(** * Tetris-am3d: the game logic engine and the heuristic placement AI

    A shallow embedding of [src/constants.ts], [src/types.ts] and the
    non-rendering part of [src/components/TetrisGame.tsx].

    Conventions of the embedding.
    - JS numbers that hold board coordinates, cell tags and counters are
      integers in every run of the program; they are modelled as [Z].
      Array indexes produced by loops ([r], [c], [rot]) are [nat].
    - A JS array is a [list]; [a[i]] is stdpp's lookup [a !! i], whose [None]
      is JS's [undefined].
    - A call that would raise a [TypeError] (a property read on [undefined])
      ends in [TypeError]; a loop that would never exit ends in [Diverges].
    - React state and the refs that mirror it ([board]/[boardRef],
      [currentPiece]/[currentPieceRef]) are one field of the record [Game]. *)

From Stdlib Require Import ZArith List Bool Lia String QArith Qminmax.
From stdpp Require Import base list.
Import ListNotations.

Local Open Scope Z_scope.

(** * The program *)

(** ** constants.ts *)

Definition BOARD_WIDTH : Z := 10.
Definition BOARD_HEIGHT : Z := 20.
Definition INITIAL_FALL_INTERVAL : Z := 1000.
Definition LEVEL_INTERVAL_DECREMENT : Z := 50.
Definition LINES_PER_LEVEL : Z := 10.
Definition LINE_CLEAR_ANIMATION_DURATION : Z := 300.
Definition AI_STEP_INTERVAL : Z := 75.

(** ** types.ts *)

Abbreviation CellValue := Z (only parsing).
Abbreviation BoardMatrix := (list (list CellValue)) (only parsing).

Record Position := { row : Z; col : Z }.

Record TetrominoShape := {
  matrix : list (list Z);
  colorIndex : Z;
  id : string
}.

Record ActivePiece := {
  shape : TetrominoShape;
  position : Position;
  rotation : nat;
  matrices : list (list (list Z))
}.

Inductive GameState := Playing | Paused | GameOver | Initial.

(** ** Outcomes of a call *)

Inductive outcome (A : Type) : Type :=
| Ok (a : A)
| TypeError
| Diverges.
Arguments Ok {A} a.
Arguments TypeError {A}.
Arguments Diverges {A}.

#[global] Instance outcome_ret : MRet outcome := fun A a => Ok a.

#[global] Instance outcome_bind : MBind outcome := fun A B k x =>
  match x with
  | Ok a => k a
  | TypeError => TypeError
  | Diverges => Diverges
  end.

#[global] Instance outcome_fmap : FMap outcome := fun A B f x =>
  match x with
  | Ok a => Ok (f a)
  | TypeError => TypeError
  | Diverges => Diverges
  end.

(** [a[i]] followed by a property read: [undefined] raises. *)
Definition deref {A} (o : option A) : outcome A :=
  match o with
  | Some a => Ok a
  | None => TypeError
  end.

(** ** The board *)

(** [Array(BOARD_WIDTH).fill(0)] *)
Definition emptyRow : list CellValue := replicate (Z.to_nat BOARD_WIDTH) 0.

(** [createEmptyBoard] *)
Definition createEmptyBoard : BoardMatrix :=
  replicate (Z.to_nat BOARD_HEIGHT) emptyRow.

(** The invariant of the data model: H rows of W cells. *)
Definition board_ok (b : BoardMatrix) : Prop :=
  length b = Z.to_nat BOARD_HEIGHT /\
  Forall (fun line => length line = Z.to_nat BOARD_WIDTH) b.

(** The cell of the board at an integer coordinate, when there is one. *)
Definition cellAt (b : BoardMatrix) (r c : Z) : option CellValue :=
  if (0 <=? r) && (0 <=? c)
  then line ← b !! Z.to_nat r; line !! Z.to_nat c
  else None.

(** [row.every(cell => cell !== 0)] *)
Definition isFullRow (line : list CellValue) : bool :=
  forallb (fun cell => negb (cell =? 0)) line.

(** ** checkCollision *)

(** The test made for one occupied cell: the four disjuncts of the [if]. The
    last one is reached with [0 <= boardRow < H] and [0 <= boardCol < W];
    a missing row is falsy, a missing cell is [undefined !== 0]. *)
Definition cellCollides (boardToCheck : BoardMatrix) (boardRow boardCol : Z) : bool :=
  (BOARD_HEIGHT <=? boardRow)
  || (boardCol <? 0)
  || (BOARD_WIDTH <=? boardCol)
  || ((0 <=? boardRow) &&
      match boardToCheck !! Z.to_nat boardRow with
      | None => false
      | Some line =>
          match line !! Z.to_nat boardCol with
          | None => true
          | Some v => negb (v =? 0)
          end
      end).

(** The inner [for] over [c], from column index [c] on, of the matrix row
    with index [r]. *)
Fixpoint collidesInRow (cells : list Z) (r c : nat) (pos : Position)
    (boardToCheck : BoardMatrix) : bool :=
  match cells with
  | [] => false
  | cell :: rest =>
      if negb (cell =? 0) &&
         cellCollides boardToCheck (row pos + Z.of_nat r) (col pos + Z.of_nat c)
      then true
      else collidesInRow rest r (S c) pos boardToCheck
  end.

(** The outer [for] over [r]. *)
Fixpoint collidesFromRow (rows : list (list Z)) (r : nat) (pos : Position)
    (boardToCheck : BoardMatrix) : bool :=
  match rows with
  | [] => false
  | cells :: rest =>
      if collidesInRow cells r 0 pos boardToCheck then true
      else collidesFromRow rest (S r) pos boardToCheck
  end.

Definition checkCollision (piece : ActivePiece) (pos : Position)
    (boardToCheck : BoardMatrix) : outcome bool :=
  m ← deref (matrices piece !! rotation piece);
  Ok (collidesFromRow m 0 pos boardToCheck).

(** ** constants.ts: the seven shapes and their rotations *)

Definition I_SHAPE : TetrominoShape :=
  {| id := "I"; matrix := [[0;0;0;0];[1;1;1;1];[0;0;0;0];[0;0;0;0]]; colorIndex := 1 |}.
Definition L_SHAPE : TetrominoShape :=
  {| id := "L"; matrix := [[0;2;0];[0;2;0];[0;2;2]]; colorIndex := 2 |}.
Definition J_SHAPE : TetrominoShape :=
  {| id := "J"; matrix := [[0;3;0];[0;3;0];[3;3;0]]; colorIndex := 3 |}.
Definition O_SHAPE : TetrominoShape :=
  {| id := "O"; matrix := [[4;4];[4;4]]; colorIndex := 4 |}.
Definition S_SHAPE : TetrominoShape :=
  {| id := "S"; matrix := [[0;5;5];[5;5;0];[0;0;0]]; colorIndex := 5 |}.
Definition Z_SHAPE : TetrominoShape :=
  {| id := "Z"; matrix := [[6;6;0];[0;6;6];[0;0;0]]; colorIndex := 6 |}.
Definition T_SHAPE : TetrominoShape :=
  {| id := "T"; matrix := [[0;7;0];[7;7;7];[0;0;0]]; colorIndex := 7 |}.

Definition TETROMINOES : list TetrominoShape :=
  [I_SHAPE; L_SHAPE; J_SHAPE; O_SHAPE; S_SHAPE; Z_SHAPE; T_SHAPE].

(** A cell that JS leaves [undefined] (a read past the end of a row, the gap
    left by a store past the end of a row) is represented by this tag. Every
    test the game logic makes on a cell is [!== 0] or [=== 0], and for both
    [undefined] behaves as a tag different from 0. On boards and matrices of
    the data model no such cell arises. *)
Definition undefinedCell : CellValue := -1.

(** [line[c]] read as a cell. *)
Definition readCell (line : list CellValue) (c : nat) : CellValue :=
  default undefinedCell (line !! c).

(** One quarter turn of [getRotations]: with [N = currentMatrix.length], the
    loops store [newMatrix[c][N-1-r] = currentMatrix[r][c]], so cell [(i, j)]
    of the new matrix is [currentMatrix[N-1-j][i]]. *)
Definition rotateOnce (currentMatrix : list (list Z)) : list (list Z) :=
  let N := length currentMatrix in
  map (fun i =>
         map (fun j => readCell (default [] (currentMatrix !! (N - 1 - j)%nat)) i)
             (seq 0 N))
      (seq 0 N).

Definition getRotations (m : list (list Z)) : list (list (list Z)) :=
  let m1 := rotateOnce m in
  let m2 := rotateOnce m1 in
  let m3 := rotateOnce m2 in
  [m; m1; m2; m3].

(** [spawnNewPiece]; [randomIndex] stands for
    [Math.floor(Math.random() * TETROMINOES.length)]. *)
Definition spawnNewPiece (randomIndex : nat) : outcome ActivePiece :=
  sh ← deref (TETROMINOES !! randomIndex);
  let ms := getRotations
              (map (fun line => map (fun cell => if 0 <? cell then colorIndex sh else 0) line)
                   (matrix sh)) in
  m0 ← deref (ms !! 0%nat);
  line0 ← deref (m0 !! 0%nat);
  Ok {| shape := sh;
        matrices := ms;
        rotation := 0;
        position := {| row := 0;
                       col := BOARD_WIDTH / 2 - Z.of_nat (length line0) / 2 |} |}.

(** ** lockPiece, first part: writing the piece into a copy of the board *)

(** [line[c] = v]: in range the cell is replaced; past the end JS grows the
    array and leaves the gap undefined. *)
Definition storeCell (line : list CellValue) (c : nat) (v : CellValue) : list CellValue :=
  if (c <? length line)%nat then <[c := v]> line
  else line ++ replicate (c - length line) undefinedCell ++ [v].

(** [newBoard[boardRow][boardCol] = cell]; a missing row raises. *)
Definition storeBoard (b : BoardMatrix) (r c : nat) (v : CellValue) : outcome BoardMatrix :=
  line ← deref (b !! r);
  Ok (<[r := storeCell line c v]> b).

(** The guard of the store. *)
Definition onBoard (boardRow boardCol : Z) : bool :=
  (0 <=? boardRow) && (boardRow <? BOARD_HEIGHT) &&
  (0 <=? boardCol) && (boardCol <? BOARD_WIDTH).

(** [row.forEach((cell, c) => ...)] of the matrix row with index [r], from
    column index [c] on. *)
Fixpoint lockRow (cells : list Z) (r c : nat) (pos : Position)
    (newBoard : BoardMatrix) : outcome BoardMatrix :=
  match cells with
  | [] => Ok newBoard
  | cell :: rest =>
      let boardRow := row pos + Z.of_nat r in
      let boardCol := col pos + Z.of_nat c in
      b ← (if negb (cell =? 0) && onBoard boardRow boardCol
           then storeBoard newBoard (Z.to_nat boardRow) (Z.to_nat boardCol) cell
           else Ok newBoard);
      lockRow rest r (S c) pos b
  end.

(** [matrix.forEach((row, r) => ...)], from row index [r] on. *)
Fixpoint lockRows (rows : list (list Z)) (r : nat) (pos : Position)
    (newBoard : BoardMatrix) : outcome BoardMatrix :=
  match rows with
  | [] => Ok newBoard
  | cells :: rest =>
      b ← lockRow cells r 0 pos newBoard;
      lockRows rest (S r) pos b
  end.

(** Lines 163-175 of lockPiece: the board with the piece written in. *)
Definition settle (b : BoardMatrix) (pieceToLock : ActivePiece) : outcome BoardMatrix :=
  m ← deref (matrices pieceToLock !! rotation pieceToLock);
  lockRows m 0 (position pieceToLock) b.

(** The elements of an array with their indexes, as [forEach((x, i) => ...)]
    and the counting [for] loops visit them. *)
Fixpoint indexedFrom {A} (i : nat) (l : list A) : list (nat * A) :=
  match l with
  | [] => []
  | a :: rest => (i, a) :: indexedFrom (S i) rest
  end.

Definition indexed {A} (l : list A) : list (nat * A) := indexedFrom 0 l.

(** Lines 177-187: does an occupied cell of the locked piece lie above row 0? *)
Definition occupiedAbove (m : list (list Z)) (top : Z) : bool :=
  existsb (fun '(r_idx, cells) =>
             existsb (fun cell => negb (cell =? 0) && (top + Z.of_nat r_idx <? 0)) cells)
          (indexed m).

(** Lines 201-206: the indexes of the full rows, scanned from [r] down to 0.
    [down] counts the rows still to scan, so the row scanned is [down - 1]. *)
Fixpoint fullRowsBelow (newBoard : BoardMatrix) (down : nat) : outcome (list nat) :=
  match down with
  | O => Ok []
  | S r =>
      line ← deref (newBoard !! r);
      rest ← fullRowsBelow newBoard r;
      Ok (if isFullRow line then r :: rest else rest)
  end.

Definition linesToClear (newBoard : BoardMatrix) : outcome (list nat) :=
  fullRowsBelow newBoard (Z.to_nat BOARD_HEIGHT).

(** ** The line-clear callback, first part: removing the rows *)

(** [[...clearingRows].sort((a, b) => b - a)] *)
Fixpoint insertDescending (x : nat) (l : list nat) : list nat :=
  match l with
  | [] => [x]
  | y :: rest => if (y <=? x)%nat then x :: l else y :: insertDescending x rest
  end.

Definition sortDescending (l : list nat) : list nat :=
  foldr insertDescending [] l.

(** One turn of the [for ... of] loop: [splice(rowIndex, 1)] then
    [unshift(Array(BOARD_WIDTH).fill(0))]. *)
Definition spliceUnshift (b : BoardMatrix) (rowIndex : nat) : BoardMatrix :=
  emptyRow :: delete rowIndex b.

(** The loop of lines 225-229; the second component is
    [linesClearedThisTurn]. *)
Definition clearRows (b : BoardMatrix) (sortedClearingRows : list nat) : BoardMatrix * Z :=
  foldl (fun '(acc, n) rowIndex => (spliceUnshift acc rowIndex, n + 1))
        (b, 0) sortedClearingRows.

(** ** The session *)

(** A score of the planner: a number or [-Infinity]. *)
Inductive Score := NegInfinity | Finite (z : Z).

Module Move.
Record AiMove := {
  targetRotation : nat;
  targetCol : Z;
  score : Score;
  finalRow : Z
}.
End Move.
Export Move (AiMove, targetRotation, targetCol, finalRow).

(** What the callback armed by [lockPiece] closes over: the props of the
    render in which [lockPiece] was created. *)
Record ClearClosure := {
  closedLinesCleared : Z;
  closedLevel : Z;
  closedNextPiecePreview : option ActivePiece
}.

(** The props owned by [App] ([gameState] to [isAiActive]), the state of
    [TetrisGame] and its refs. A timeout ref is modelled by whether a
    callback is pending; [lastFallTimeRef] is left to the scheduler. *)
Record Game := {
  gameState : GameState;
  score : Z;
  linesCleared : Z;
  level : Z;
  nextPiecePreview : option ActivePiece;
  isAiActive : bool;
  board : BoardMatrix;
  currentPiece : option ActivePiece;
  fallInterval : Z;
  aiActionInProgress : bool;
  aiCurrentBestMove : option AiMove;
  aiThinkTimeout : bool;
  aiStepTimeout : bool;
  clearingRows : list nat;
  isLineClearingAnimationActive : bool;
  lineClearEffectTimeout : option ClearClosure
}.

(** One update function per field, for the assignments of the code. *)
Definition setGameState v g : Game :=
  {| gameState := v; score := score g; linesCleared := linesCleared g;
     level := level g; nextPiecePreview := nextPiecePreview g;
     isAiActive := isAiActive g; board := board g; currentPiece := currentPiece g;
     fallInterval := fallInterval g; aiActionInProgress := aiActionInProgress g;
     aiCurrentBestMove := aiCurrentBestMove g; aiThinkTimeout := aiThinkTimeout g;
     aiStepTimeout := aiStepTimeout g; clearingRows := clearingRows g;
     isLineClearingAnimationActive := isLineClearingAnimationActive g;
     lineClearEffectTimeout := lineClearEffectTimeout g |}.

Definition setScore v g : Game :=
  {| gameState := gameState g; score := v; linesCleared := linesCleared g;
     level := level g; nextPiecePreview := nextPiecePreview g;
     isAiActive := isAiActive g; board := board g; currentPiece := currentPiece g;
     fallInterval := fallInterval g; aiActionInProgress := aiActionInProgress g;
     aiCurrentBestMove := aiCurrentBestMove g; aiThinkTimeout := aiThinkTimeout g;
     aiStepTimeout := aiStepTimeout g; clearingRows := clearingRows g;
     isLineClearingAnimationActive := isLineClearingAnimationActive g;
     lineClearEffectTimeout := lineClearEffectTimeout g |}.

Definition setLinesCleared v g : Game :=
  {| gameState := gameState g; score := score g; linesCleared := v; level := level g;
     nextPiecePreview := nextPiecePreview g; isAiActive := isAiActive g;
     board := board g; currentPiece := currentPiece g; fallInterval := fallInterval g;
     aiActionInProgress := aiActionInProgress g;
     aiCurrentBestMove := aiCurrentBestMove g; aiThinkTimeout := aiThinkTimeout g;
     aiStepTimeout := aiStepTimeout g; clearingRows := clearingRows g;
     isLineClearingAnimationActive := isLineClearingAnimationActive g;
     lineClearEffectTimeout := lineClearEffectTimeout g |}.

Definition setLevel v g : Game :=
  {| gameState := gameState g; score := score g; linesCleared := linesCleared g;
     level := v; nextPiecePreview := nextPiecePreview g; isAiActive := isAiActive g;
     board := board g; currentPiece := currentPiece g; fallInterval := fallInterval g;
     aiActionInProgress := aiActionInProgress g;
     aiCurrentBestMove := aiCurrentBestMove g; aiThinkTimeout := aiThinkTimeout g;
     aiStepTimeout := aiStepTimeout g; clearingRows := clearingRows g;
     isLineClearingAnimationActive := isLineClearingAnimationActive g;
     lineClearEffectTimeout := lineClearEffectTimeout g |}.

Definition setNextPiecePreview v g : Game :=
  {| gameState := gameState g; score := score g; linesCleared := linesCleared g;
     level := level g; nextPiecePreview := v; isAiActive := isAiActive g;
     board := board g; currentPiece := currentPiece g; fallInterval := fallInterval g;
     aiActionInProgress := aiActionInProgress g;
     aiCurrentBestMove := aiCurrentBestMove g; aiThinkTimeout := aiThinkTimeout g;
     aiStepTimeout := aiStepTimeout g; clearingRows := clearingRows g;
     isLineClearingAnimationActive := isLineClearingAnimationActive g;
     lineClearEffectTimeout := lineClearEffectTimeout g |}.

Definition setBoard v g : Game :=
  {| gameState := gameState g; score := score g; linesCleared := linesCleared g;
     level := level g; nextPiecePreview := nextPiecePreview g;
     isAiActive := isAiActive g; board := v; currentPiece := currentPiece g;
     fallInterval := fallInterval g; aiActionInProgress := aiActionInProgress g;
     aiCurrentBestMove := aiCurrentBestMove g; aiThinkTimeout := aiThinkTimeout g;
     aiStepTimeout := aiStepTimeout g; clearingRows := clearingRows g;
     isLineClearingAnimationActive := isLineClearingAnimationActive g;
     lineClearEffectTimeout := lineClearEffectTimeout g |}.

Definition setCurrentPiece v g : Game :=
  {| gameState := gameState g; score := score g; linesCleared := linesCleared g;
     level := level g; nextPiecePreview := nextPiecePreview g;
     isAiActive := isAiActive g; board := board g; currentPiece := v;
     fallInterval := fallInterval g; aiActionInProgress := aiActionInProgress g;
     aiCurrentBestMove := aiCurrentBestMove g; aiThinkTimeout := aiThinkTimeout g;
     aiStepTimeout := aiStepTimeout g; clearingRows := clearingRows g;
     isLineClearingAnimationActive := isLineClearingAnimationActive g;
     lineClearEffectTimeout := lineClearEffectTimeout g |}.

Definition setFallInterval v g : Game :=
  {| gameState := gameState g; score := score g; linesCleared := linesCleared g;
     level := level g; nextPiecePreview := nextPiecePreview g;
     isAiActive := isAiActive g; board := board g; currentPiece := currentPiece g;
     fallInterval := v; aiActionInProgress := aiActionInProgress g;
     aiCurrentBestMove := aiCurrentBestMove g; aiThinkTimeout := aiThinkTimeout g;
     aiStepTimeout := aiStepTimeout g; clearingRows := clearingRows g;
     isLineClearingAnimationActive := isLineClearingAnimationActive g;
     lineClearEffectTimeout := lineClearEffectTimeout g |}.

Definition setAiActionInProgress v g : Game :=
  {| gameState := gameState g; score := score g; linesCleared := linesCleared g;
     level := level g; nextPiecePreview := nextPiecePreview g;
     isAiActive := isAiActive g; board := board g; currentPiece := currentPiece g;
     fallInterval := fallInterval g; aiActionInProgress := v;
     aiCurrentBestMove := aiCurrentBestMove g; aiThinkTimeout := aiThinkTimeout g;
     aiStepTimeout := aiStepTimeout g; clearingRows := clearingRows g;
     isLineClearingAnimationActive := isLineClearingAnimationActive g;
     lineClearEffectTimeout := lineClearEffectTimeout g |}.

Definition setAiCurrentBestMove v g : Game :=
  {| gameState := gameState g; score := score g; linesCleared := linesCleared g;
     level := level g; nextPiecePreview := nextPiecePreview g;
     isAiActive := isAiActive g; board := board g; currentPiece := currentPiece g;
     fallInterval := fallInterval g; aiActionInProgress := aiActionInProgress g;
     aiCurrentBestMove := v; aiThinkTimeout := aiThinkTimeout g;
     aiStepTimeout := aiStepTimeout g; clearingRows := clearingRows g;
     isLineClearingAnimationActive := isLineClearingAnimationActive g;
     lineClearEffectTimeout := lineClearEffectTimeout g |}.

Definition setAiThinkTimeout v g : Game :=
  {| gameState := gameState g; score := score g; linesCleared := linesCleared g;
     level := level g; nextPiecePreview := nextPiecePreview g;
     isAiActive := isAiActive g; board := board g; currentPiece := currentPiece g;
     fallInterval := fallInterval g; aiActionInProgress := aiActionInProgress g;
     aiCurrentBestMove := aiCurrentBestMove g; aiThinkTimeout := v;
     aiStepTimeout := aiStepTimeout g; clearingRows := clearingRows g;
     isLineClearingAnimationActive := isLineClearingAnimationActive g;
     lineClearEffectTimeout := lineClearEffectTimeout g |}.

Definition setAiStepTimeout v g : Game :=
  {| gameState := gameState g; score := score g; linesCleared := linesCleared g;
     level := level g; nextPiecePreview := nextPiecePreview g;
     isAiActive := isAiActive g; board := board g; currentPiece := currentPiece g;
     fallInterval := fallInterval g; aiActionInProgress := aiActionInProgress g;
     aiCurrentBestMove := aiCurrentBestMove g; aiThinkTimeout := aiThinkTimeout g;
     aiStepTimeout := v; clearingRows := clearingRows g;
     isLineClearingAnimationActive := isLineClearingAnimationActive g;
     lineClearEffectTimeout := lineClearEffectTimeout g |}.

Definition setClearingRows v g : Game :=
  {| gameState := gameState g; score := score g; linesCleared := linesCleared g;
     level := level g; nextPiecePreview := nextPiecePreview g;
     isAiActive := isAiActive g; board := board g; currentPiece := currentPiece g;
     fallInterval := fallInterval g; aiActionInProgress := aiActionInProgress g;
     aiCurrentBestMove := aiCurrentBestMove g; aiThinkTimeout := aiThinkTimeout g;
     aiStepTimeout := aiStepTimeout g; clearingRows := v;
     isLineClearingAnimationActive := isLineClearingAnimationActive g;
     lineClearEffectTimeout := lineClearEffectTimeout g |}.

Definition setLineClearing v g : Game :=
  {| gameState := gameState g; score := score g; linesCleared := linesCleared g;
     level := level g; nextPiecePreview := nextPiecePreview g;
     isAiActive := isAiActive g; board := board g; currentPiece := currentPiece g;
     fallInterval := fallInterval g; aiActionInProgress := aiActionInProgress g;
     aiCurrentBestMove := aiCurrentBestMove g; aiThinkTimeout := aiThinkTimeout g;
     aiStepTimeout := aiStepTimeout g; clearingRows := clearingRows g;
     isLineClearingAnimationActive := v;
     lineClearEffectTimeout := lineClearEffectTimeout g |}.

Definition setLineClearEffectTimeout v g : Game :=
  {| gameState := gameState g; score := score g; linesCleared := linesCleared g;
     level := level g; nextPiecePreview := nextPiecePreview g;
     isAiActive := isAiActive g; board := board g; currentPiece := currentPiece g;
     fallInterval := fallInterval g; aiActionInProgress := aiActionInProgress g;
     aiCurrentBestMove := aiCurrentBestMove g; aiThinkTimeout := aiThinkTimeout g;
     aiStepTimeout := aiStepTimeout g; clearingRows := clearingRows g;
     isLineClearingAnimationActive := isLineClearingAnimationActive g;
     lineClearEffectTimeout := v |}.

(** [App.handleGameOver], passed as [onGameOver]. *)
Definition onGameOver (g : Game) : Game := setGameState GameOver g.

(** Disarming the driver, as every exit of [lockPiece] does:
    [aiActionInProgressRef.current = false; aiCurrentBestMoveRef.current = null;
     clearTimeout(aiStepTimeoutRef.current)]. *)
Definition disarmAi (g : Game) : Game :=
  setAiStepTimeout false (setAiCurrentBestMove None (setAiActionInProgress false g)).

(** The choice of the next piece, shared by both branches of [lockPiece]:
    the queued preview if there is one, else a fresh piece; the preview is
    refilled in both cases. [k1] and [k2] are the random indexes drawn, in
    the order of the calls to [spawnNewPiece]. *)
Definition takeNextPiece (preview : option ActivePiece) (k1 k2 : nat) (g : Game)
  : outcome (ActivePiece * Game) :=
  match preview with
  | Some p =>
      fresh ← spawnNewPiece k1;
      Ok (p, setNextPiecePreview (Some fresh) g)
  | None =>
      p ← spawnNewPiece k1;
      fresh ← spawnNewPiece k2;
      Ok (p, setNextPiecePreview (Some fresh) g)
  end.

(** The spawn check: game over if the new piece collides where it spawns. *)
Definition placeNextPiece (newPieceToSpawn : ActivePiece) (b : BoardMatrix)
    (g : Game) (onCollision : Game -> Game) : outcome Game :=
  hit ← checkCollision newPieceToSpawn (position newPieceToSpawn) b;
  Ok (if (hit : bool) then onCollision (onGameOver g)
      else setCurrentPiece (Some newPieceToSpawn) g).

(** Scoring and leveling, lines 232-241, with the props the callback closed
    over. *)
Definition applyScoring (linesClearedThisTurn : Z) (cl : ClearClosure) (g : Game) : Game :=
  if 0 <? linesClearedThisTurn then
    let newTotalLines := closedLinesCleared cl + linesClearedThisTurn in
    let g1 := setLinesCleared newTotalLines g in
    let g2 := setScore (score g1 + linesClearedThisTurn * 100 * linesClearedThisTurn * closedLevel cl) g1 in
    let newLevel := newTotalLines / LINES_PER_LEVEL + 1 in
    if closedLevel cl <? newLevel then
      setFallInterval
        (Z.max 100 (INITIAL_FALL_INTERVAL - (newLevel - 1) * LEVEL_INTERVAL_DECREMENT))
        (setLevel newLevel g2)
    else g2
  else g.

(** The callback armed by [lockPiece] (lines 219-266), run when the
    animation delay has elapsed. *)
Definition lineClearEffect (cl : ClearClosure) (k1 k2 : nat) (g : Game) : outcome Game :=
  let '(boardAfterClearVisuals, linesClearedThisTurn) :=
    clearRows (board g) (sortDescending (clearingRows g)) in
  let g1 := setBoard boardAfterClearVisuals g in
  let g2 := applyScoring linesClearedThisTurn cl g1 in
  '(newPieceToSpawn, g3) ← takeNextPiece (closedNextPiecePreview cl) k1 k2 g2;
  g4 ← placeNextPiece newPieceToSpawn boardAfterClearVisuals g3 (fun g => g);
  Ok (disarmAi (setLineClearing false (setClearingRows [] g4))).

(** The timer firing: the callback runs if it is still armed. *)
Definition fireLineClear (k1 k2 : nat) (g : Game) : outcome Game :=
  match lineClearEffectTimeout g with
  | Some cl => lineClearEffect cl k1 k2 (setLineClearEffectTimeout None g)
  | None => Ok g
  end.

(** [lockPiece] *)
Definition lockPiece (pieceToLock : option ActivePiece) (k1 k2 : nat) (g : Game)
  : outcome Game :=
  match pieceToLock with
  | None => Ok (setAiActionInProgress false g)
  | Some p =>
      if isLineClearingAnimationActive g then Ok g
      else
        newBoard ← settle (board g) p;
        lockedMatrix ← deref (matrices p !! rotation p);
        if occupiedAbove lockedMatrix (row (position p)) then
          Ok (setClearingRows []
               (setLineClearing false
                 (setLineClearEffectTimeout None
                   (disarmAi (setCurrentPiece None (onGameOver g))))))
        else
          linesToClearIndices ← linesToClear newBoard;
          let g1 := setBoard newBoard g in
          match linesToClearIndices with
          | _ :: _ =>
              Ok (setLineClearEffectTimeout
                    (Some {| closedLinesCleared := linesCleared g;
                             closedLevel := level g;
                             closedNextPiecePreview := nextPiecePreview g |})
                    (setCurrentPiece None
                      (setLineClearing true
                        (setClearingRows linesToClearIndices g1))))
          | [] =>
              '(newPieceToSpawn, g2) ← takeNextPiece (nextPiecePreview g) k1 k2 g1;
              g3 ← placeNextPiece newPieceToSpawn newBoard g2 (setCurrentPiece None);
              Ok (disarmAi g3)
          end
  end.

(** ** Manual commands *)

Definition withRotation (p : ActivePiece) (rot : nat) : ActivePiece :=
  {| shape := shape p; position := position p; rotation := rot; matrices := matrices p |}.

Definition withPosition (p : ActivePiece) (pos : Position) : ActivePiece :=
  {| shape := shape p; position := pos; rotation := rotation p; matrices := matrices p |}.

Definition isPlaying (g : Game) : bool :=
  match gameState g with Playing => true | _ => false end.

(** The guard shared by [movePiece], [moveDown], [rotatePiece] and
    [hardDrop]: the piece to act on, when the command may act. *)
Definition actingPiece (g : Game) : option ActivePiece :=
  match currentPiece g with
  | Some p =>
      if isPlaying g && negb (isLineClearingAnimationActive g) then Some p else None
  | None => None
  end.

(** [movePiece]; the boolean is its return value. *)
Definition movePiece (dRow dCol : Z) (g : Game) : outcome (bool * Game) :=
  match actingPiece g with
  | None => Ok (false, g)
  | Some p =>
      let newPosition := {| row := row (position p) + dRow; col := col (position p) + dCol |} in
      hit ← checkCollision p newPosition (board g);
      Ok (if (hit : bool) then (false, g)
          else (true, setCurrentPiece ((fun prev => withPosition prev newPosition) <$> currentPiece g) g))
  end.

(** [moveDown] *)
Definition moveDown (k1 k2 : nat) (g : Game) : outcome Game :=
  match actingPiece g with
  | None => Ok g
  | Some _ =>
      '(moved, g1) ← movePiece 1 0 g;
      if (moved : bool) then Ok g1 else lockPiece (currentPiece g1) k1 k2 g1
  end.

(** A [for] loop over candidate positions that commits the first free one. *)
Fixpoint firstFree (rotatedPiece : ActivePiece) (candidates : list Position)
    (b : BoardMatrix) : outcome (option Position) :=
  match candidates with
  | [] => Ok None
  | testPosition :: rest =>
      hit ← checkCollision rotatedPiece testPosition b;
      if (hit : bool) then firstFree rotatedPiece rest b else Ok (Some testPosition)
  end.

Definition shiftedBy (pos : Position) (dRow dCol : Z) : Position :=
  {| row := row pos + dRow; col := col pos + dCol |}.

(** [const testOffsets = [-1, 1, -2, 2]] applied to the column. *)
Definition horizontalKicks (pos : Position) : list Position :=
  map (fun offset => shiftedBy pos 0 offset) [-1; 1; -2; 2].

(** The body of [rotatePiece] after its guard: the piece to commit, or
    [None] when the rotation is rejected and the piece stays as it is. *)
Definition rotated (p : ActivePiece) (b : BoardMatrix) : outcome (option ActivePiece) :=
  let newRotation := ((rotation p + 1) mod length (matrices p))%nat in
  let rotatedPiece := withRotation p newRotation in
  hit ← checkCollision rotatedPiece (position p) b;
  if (hit : bool) then
    sideways ← firstFree rotatedPiece (horizontalKicks (position p)) b;
    match sideways with
    | Some testPosition => Ok (Some (withPosition rotatedPiece testPosition))
    | None =>
        if String.eqb (id (shape p)) "I" && (row (position p) <=? 1) then
          up ← firstFree rotatedPiece
                 [shiftedBy (position p) (-1) 0; shiftedBy (position p) (-2) 0] b;
          Ok (withPosition rotatedPiece <$> (up : option Position))
        else if row (position p) <=? 1 then
          up ← firstFree rotatedPiece [shiftedBy (position p) (-1) 0] b;
          Ok (withPosition rotatedPiece <$> (up : option Position))
        else Ok None
    end
  else Ok (Some rotatedPiece).

(** [rotatePiece] *)
Definition rotatePiece (g : Game) : outcome Game :=
  match actingPiece g with
  | None => Ok g
  | Some p =>
      r ← rotated p (board g);
      Ok (match r with
          | Some p' => setCurrentPiece (Some p') g
          | None => g
          end)
  end.

(** The [while] loop of [hardDrop] and of the planner: [fuel] bounds the
    number of tests of the loop condition. *)
Fixpoint descend (fuel : nat) (p : ActivePiece) (r c : Z) (b : BoardMatrix) : outcome Z :=
  match fuel with
  | O => Diverges
  | S k =>
      hit ← checkCollision p {| row := r + 1; col := c |} b;
      if (hit : bool) then Ok r else descend k p (r + 1) c b
  end.

(** A piece with an occupied cell collides at every row from [BOARD_HEIGHT]
    on, so a loop started at row [r] that exits at all does so within this
    many tests (see [descend_total] and [descend_of_empty_piece]). *)
Definition descentBound (r : Z) : nat := Z.to_nat (Z.max 1 (BOARD_HEIGHT - r)).

(** [hardDrop] *)
Definition hardDrop (k1 k2 : nat) (g : Game) : outcome Game :=
  match actingPiece g with
  | None => Ok g
  | Some p =>
      let start := position p in
      r ← descend (descentBound (row start)) p (row start) (col start) (board g);
      lockPiece (Some (withPosition p {| row := r; col := col start |})) k1 k2 g
  end.

(** The keys [handleKeyDown] tells apart. *)
Inductive Key := ArrowLeft | ArrowRight | ArrowDown | ArrowUp | KeyX | Space | OtherKey.

(** [handleKeyDown] *)
Definition handleKeyDown (key : Key) (k1 k2 : nat) (g : Game) : outcome Game :=
  if isLineClearingAnimationActive g then Ok g
  else if isAiActive g && isPlaying g then Ok g
  else if negb (isPlaying g) || negb (bool_decide (is_Some (currentPiece g))) then Ok g
  else
    match key with
    | ArrowLeft => snd <$> movePiece 0 (-1) g
    | ArrowRight => snd <$> movePiece 0 1 g
    | ArrowDown => moveDown k1 k2 g
    | ArrowUp | KeyX => rotatePiece g
    | Space => hardDrop k1 k2 g
    | OtherKey => Ok g
    end.

(** The gravity part of [animate]; [due] stands for
    [timestamp - lastFallTimeRef.current > fallIntervalRef.current]. *)
Definition gravityTick (due : bool) (k1 k2 : nat) (g : Game) : outcome Game :=
  if isPlaying g && bool_decide (is_Some (currentPiece g)) && negb (isAiActive g)
     && negb (isLineClearingAnimationActive g)
  then if due then moveDown k1 k2 g else Ok g
  else Ok g.

(** ** The planner: evaluateBoardState *)

(** A loop whose body may raise. *)
Fixpoint forEachM {A S : Type} (body : S -> A -> outcome S) (l : list A) (s : S)
  : outcome S :=
  match l with
  | [] => Ok s
  | a :: rest => s' ← body s a; forEachM body rest s'
  end.

(** The body of the inner [forEach] of lines 398-410 for the cell [cell] at
    matrix index [(r, c)]; the state is [boardAfterPlace] and
    [isPlacedGameOver]. *)
Definition placeCell (dropRow pieceCol : Z) (r : nat) (st : BoardMatrix * bool)
    (indexed : nat * Z) : outcome (BoardMatrix * bool) :=
  let '(boardAfterPlace, isPlacedGameOver) := st in
  let '(c, cell) := indexed in
  if negb (cell =? 0) then
    let finalRow := dropRow + Z.of_nat r in
    let finalCol := pieceCol + Z.of_nat c in
    if onBoard finalRow finalCol then
      b ← storeBoard boardAfterPlace (Z.to_nat finalRow) (Z.to_nat finalCol) cell;
      Ok (b, isPlacedGameOver)
    else if finalRow <? 0 then Ok (boardAfterPlace, true)
    else Ok st
  else Ok st.

(** Lines 394-410. *)
Definition placeOnCopy (tempBoard : BoardMatrix) (m : list (list Z)) (dropRow pieceCol : Z)
  : outcome (BoardMatrix * bool) :=
  forEachM (fun st '(r, rowCells) => forEachM (placeCell dropRow pieceCol r) (indexed rowCells) st)
           (indexed m) (tempBoard, false).

(** The loop of lines 414-422. [down] is [r_idx + 1]; [fuel] bounds the
    number of turns. *)
Fixpoint clearFullRows (fuel : nat) (boardAfterPlace : BoardMatrix) (down : nat)
    (linesClearedCount : Z) : outcome (BoardMatrix * Z) :=
  match fuel with
  | O => Diverges
  | S k =>
      match down with
      | O => Ok (boardAfterPlace, linesClearedCount)
      | S r_idx =>
          line ← deref (boardAfterPlace !! r_idx);
          if isFullRow line
          then clearFullRows k (spliceUnshift boardAfterPlace r_idx) down (linesClearedCount + 1)
          else clearFullRows k boardAfterPlace r_idx linesClearedCount
      end
  end.

(** Every turn either moves [r_idx] up or replaces a full row among rows
    [0..r_idx] by an empty one, so [2 * BOARD_HEIGHT] turns and the exit test
    are enough (see [clearFullRows_total]). *)
Definition clearFuel : nat := S (2 * Z.to_nat BOARD_HEIGHT).

(** The inner loop of lines 428-433 for column [c]: rows [r_idx],
    [r_idx + 1], ... ([todo] of them). *)
Fixpoint heightFrom (b : BoardMatrix) (c r_idx todo : nat) : outcome Z :=
  match todo with
  | O => Ok 0
  | S k =>
      line ← deref (b !! r_idx);
      if negb (readCell line c =? 0) then Ok (BOARD_HEIGHT - Z.of_nat r_idx)
      else heightFrom b c (S r_idx) k
  end.

Definition columns : list nat := seq 0 (Z.to_nat BOARD_WIDTH).

(** [heights] after the loop of lines 427-435. *)
Definition columnHeights (b : BoardMatrix) : outcome (list Z) :=
  forEachM (fun heights c =>
              h ← heightFrom b c 0 (Z.to_nat BOARD_HEIGHT);
              Ok (heights ++ [h]))
           columns [].

(** The inner loop of lines 441-447 for column [c]. *)
Fixpoint holesFrom (b : BoardMatrix) (c r_idx todo : nat) (blockReached : bool)
    (holes : Z) : outcome Z :=
  match todo with
  | O => Ok holes
  | S k =>
      line ← deref (b !! r_idx);
      if negb (readCell line c =? 0) then holesFrom b c (S r_idx) k true holes
      else if blockReached && (readCell line c =? 0)
           then holesFrom b c (S r_idx) k blockReached (holes + 1)
           else holesFrom b c (S r_idx) k blockReached holes
  end.

Definition countHoles (b : BoardMatrix) : outcome Z :=
  forEachM (fun holes c => holesFrom b c 0 (Z.to_nat BOARD_HEIGHT) false holes) columns 0.

(** Lines 451-454: [heights] has [BOARD_WIDTH] entries. *)
Fixpoint bumpinessOf (heights : list Z) : Z :=
  match heights with
  | h1 :: ((h2 :: _) as rest) => Z.abs (h1 - h2) + bumpinessOf rest
  | _ => 0
  end.

Definition sumZ (l : list Z) : Z := foldr Z.add 0 l.

(** [evaluateBoardState] *)
Definition evaluateBoardState (tempBoard : BoardMatrix) (piece : ActivePiece)
    (dropRow : Z) : outcome Score :=
  m ← deref (matrices piece !! rotation piece);
  '(boardAfterPlace, isPlacedGameOver) ← placeOnCopy tempBoard m dropRow (col (position piece));
  if (isPlacedGameOver : bool) then Ok NegInfinity
  else
    '(cleared, linesClearedCount) ←
       clearFullRows clearFuel boardAfterPlace (Z.to_nat BOARD_HEIGHT) 0;
    heights ← columnHeights cleared;
    let aggregateHeight := sumZ heights in
    holes ← countHoles cleared;
    let bumpiness := bumpinessOf heights in
    Ok (Finite (0 + linesClearedCount * 5000 - aggregateHeight * 10 - holes * 75 - bumpiness * 3)).

(** ** The planner: calculateBestMove *)

(** Lines 465-476: [minCShape], [maxCShape] and [pieceIsEmpty] after the two
    loops over the matrix. *)
Definition columnExtent (currentMatrix : list (list Z)) : outcome (Z * Z * bool) :=
  line0 ← deref (currentMatrix !! 0%nat);
  Ok (foldl (fun acc rowCells =>
               foldl (fun '(minCShape, maxCShape, pieceIsEmpty) '(c_shape, cell) =>
                        if negb (cell =? 0)
                        then (Z.min minCShape (Z.of_nat c_shape),
                              Z.max maxCShape (Z.of_nat c_shape), false)
                        else (minCShape, maxCShape, pieceIsEmpty))
                     acc (indexed rowCells))
            (Z.of_nat (length line0), -1, true) currentMatrix).

(** The values of [col] in [for (col = lo; col <= hi; col++)]. *)
Definition colsFromTo (lo hi : Z) : list Z :=
  map (fun i => lo + Z.of_nat i) (seq 0 (Z.to_nat (hi - lo + 1))).

(** [scoreForMove > bestMove.score] *)
Definition scoreGt (a b : Score) : bool :=
  match a, b with
  | Finite x, Finite y => y <? x
  | Finite _, NegInfinity => true
  | NegInfinity, _ => false
  end.

(** The body of the loop over [col] (lines 480-509) for rotation [rot]. *)
Definition tryColumn (piece : ActivePiece) (currentBoard : BoardMatrix) (rot : nat)
    (bestMove : option AiMove) (c : Z) : outcome (option AiMove) :=
  let testPiece := withPosition (withRotation piece rot) {| row := 0; col := c |} in
  hit ← checkCollision testPiece {| row := 0; col := c |} currentBoard;
  entry ← (if (hit : bool)
           then higher ← firstFree testPiece
                           (map (fun rOffset => {| row := rOffset; col := c |}) [-1; -2; -3])
                           currentBoard;
                Ok (row <$> (higher : option Position))
           else Ok (Some 0));
  match entry with
  | None => Ok bestMove
  | Some simulatedRow =>
      finalDropRow ← descend (descentBound simulatedRow) testPiece simulatedRow c currentBoard;
      scoreForMove ← evaluateBoardState currentBoard
                        (withPosition testPiece {| row := finalDropRow; col := c |})
                        finalDropRow;
      let found := {| targetRotation := rot; targetCol := c;
                      Move.score := scoreForMove; finalRow := finalDropRow |} in
      Ok (match bestMove with
          | None => Some found
          | Some best => if scoreGt scoreForMove (Move.score best) then Some found else bestMove
          end)
  end.

(** The body of the loop over [rot] (lines 464-510). *)
Definition tryRotation (piece : ActivePiece) (currentBoard : BoardMatrix)
    (bestMove : option AiMove) (rot : nat) : outcome (option AiMove) :=
  currentMatrix ← deref (matrices piece !! rot);
  '(minCShape, maxCShape, pieceIsEmpty) ← columnExtent currentMatrix;
  if (pieceIsEmpty : bool) then Ok bestMove
  else forEachM (tryColumn piece currentBoard rot)
                (colsFromTo (- minCShape) (BOARD_WIDTH - 1 - maxCShape)) bestMove.

(** [calculateBestMove] *)
Definition calculateBestMove (piece : ActivePiece) (currentBoard : BoardMatrix)
  : outcome (option AiMove) :=
  forEachM (tryRotation piece currentBoard) (seq 0 (length (matrices piece))) None.

(** ** The execution driver *)

(** The rotation branch of [executeAiStep] (lines 529-562): the piece to
    commit, or [None] when nothing was kicked and the piece is locked. *)
Definition aiRotated (piece : ActivePiece) (targetMove : AiMove) (b : BoardMatrix)
  : outcome (option ActivePiece) :=
  let rotatedPieceState := withRotation piece (targetRotation targetMove) in
  hit ← checkCollision rotatedPieceState (position piece) b;
  if (hit : bool) then
    sideways ← firstFree rotatedPieceState (horizontalKicks (position piece)) b;
    match sideways with
    | Some testPosition => Ok (Some (withPosition rotatedPieceState testPosition))
    | None =>
        if (String.eqb (id (shape piece)) "I" || String.eqb (id (shape piece)) "L"
            || String.eqb (id (shape piece)) "J")
           && (row (position piece) <=? 1)
        then
          up ← firstFree rotatedPieceState
                 (map (fun upOffset => shiftedBy (position piece) upOffset 0) [-1; -2]) b;
          Ok (withPosition rotatedPieceState <$> (up : option Position))
        else Ok None
    end
  else Ok (Some rotatedPieceState).

(** The end of [executeAiStep] after a step that was taken: the next step is
    scheduled while the driver is in progress. *)
Definition scheduleNextStep (g : Game) : Game :=
  if aiActionInProgress g then setAiStepTimeout true g else g.

(** [executeAiStep] *)
Definition executeAiStep (k1 k2 : nat) (g : Game) : outcome Game :=
  let g := setAiStepTimeout false g in
  match currentPiece g, aiCurrentBestMove g with
  | Some piece, Some targetMove =>
      if negb (isAiActive g) || negb (isPlaying g) || isLineClearingAnimationActive g
      then Ok (setAiCurrentBestMove None (setAiActionInProgress false g))
      else if negb (rotation piece =? targetRotation targetMove)%nat then
        r ← aiRotated piece targetMove (board g);
        match r with
        | Some p' => Ok (scheduleNextStep (setCurrentPiece (Some p') g))
        | None => lockPiece (currentPiece g) k1 k2 g
        end
      else if negb (col (position piece) =? targetCol targetMove) then
        let direction := if col (position piece) <? targetCol targetMove then 1 else -1 in
        '(moved, g1) ← movePiece 0 direction g;
        if (moved : bool) then Ok (scheduleNextStep g1) else lockPiece (currentPiece g1) k1 k2 g1
      else if row (position piece) <? finalRow targetMove then
        '(moved, g1) ← movePiece 1 0 g;
        if (moved : bool) then Ok (scheduleNextStep g1) else lockPiece (currentPiece g1) k1 k2 g1
      else lockPiece (currentPiece g) k1 k2 g
  | _, _ => Ok (setAiCurrentBestMove None (setAiActionInProgress false g))
  end.

(** Line 606: the delay before the planner runs. [fallIntervalRef.current / 2]
    is a division of numbers, not of integers. *)
Definition thinkTime (fallIntervalNow : Z) : Q :=
  if 0 <? fallIntervalNow
  then Qmin (inject_Z fallIntervalNow / 2) 200
  else 100%Q.

(** The effect of lines 593-637, run when the piece, the phase or the AI
    switch changes: it disarms the driver during the animation, and else
    arms the think timer. The second component is the delay of the timer
    it armed. *)
Definition aiEffect (g : Game) : Game * option Q :=
  if isLineClearingAnimationActive g then
    (setAiCurrentBestMove None
       (setAiActionInProgress false (setAiStepTimeout false (setAiThinkTimeout false g))),
     None)
  else if isAiActive g && isPlaying g && bool_decide (is_Some (currentPiece g))
          && negb (aiActionInProgress g)
  then (setAiThinkTimeout true (setAiActionInProgress true g),
        Some (thinkTime (fallInterval g)))
  else (g, None).

(** The callback of the think timer (lines 608-631). *)
Definition aiThink (k1 k2 : nat) (g : Game) : outcome Game :=
  let g := setAiThinkTimeout false g in
  match currentPiece g with
  | Some piece =>
      if negb (isAiActive g) || negb (isPlaying g) || isLineClearingAnimationActive g
      then Ok (setAiActionInProgress false g)
      else
        bestMove ← calculateBestMove piece (board g);
        match bestMove with
        | Some m => executeAiStep k1 k2 (setAiCurrentBestMove (Some m) g)
        | None =>
            '(moved, g1) ← movePiece 1 0 g;
            if (moved : bool) then Ok (setAiActionInProgress false g1)
            else lockPiece (currentPiece g1) k1 k2 g1
        end
  | None => Ok (setAiActionInProgress false g)
  end.

(** ** App.tsx: the session commands *)

Definition setIsAiActive v g : Game :=
  {| gameState := gameState g; score := score g; linesCleared := linesCleared g;
     level := level g; nextPiecePreview := nextPiecePreview g;
     isAiActive := v; board := board g; currentPiece := currentPiece g;
     fallInterval := fallInterval g; aiActionInProgress := aiActionInProgress g;
     aiCurrentBestMove := aiCurrentBestMove g; aiThinkTimeout := aiThinkTimeout g;
     aiStepTimeout := aiStepTimeout g; clearingRows := clearingRows g;
     isLineClearingAnimationActive := isLineClearingAnimationActive g;
     lineClearEffectTimeout := lineClearEffectTimeout g |}.

(** [startGame] *)
Definition startGame (g : Game) : Game :=
  setGameState Playing
    (setNextPiecePreview None (setLevel 1 (setLinesCleared 0 (setScore 0 g)))).

(** [pauseGame] *)
Definition pauseGame (g : Game) : Game :=
  if isPlaying g then setGameState Paused g else g.

(** [resumeGame] *)
Definition resumeGame (g : Game) : Game :=
  match gameState g with
  | Paused => setGameState Playing g
  | _ => g
  end.

(** The AI switch: [setIsAiActive(prev => !prev)]. *)
Definition toggleAi (g : Game) : Game := setIsAiActive (negb (isAiActive g)) g.

(** ** TetrisGame.tsx: the effects on the phase and on the AI switch *)

(** Both branches of the effect of lines 116-153 end by resetting the
    driver and cancelling its two timers. *)
Definition resetDriver (g : Game) : Game :=
  setAiStepTimeout false
    (setAiThinkTimeout false (setAiCurrentBestMove None (setAiActionInProgress false g))).

(** The effect of lines 116-153, run after a render in which [gameState] or
    [level] changed. [previousGameState] is [prevGameStateRef.current] as the
    effect finds it ([None] for [null]); [k1] and [k2] are the random indexes
    of the two pieces a new session draws. *)
Definition gameStateEffect (previousGameState : option GameState) (k1 k2 : nat)
    (g : Game) : outcome Game :=
  match gameState g with
  | Playing =>
      g1 ← match previousGameState with
           | Some Initial | Some GameOver | None =>
               newCurrentPiece ← spawnNewPiece k1;
               fresh ← spawnNewPiece k2;
               Ok (setClearingRows []
                    (setLineClearing false
                      (setFallInterval
                         (Z.max 100 (INITIAL_FALL_INTERVAL
                                     - (level g - 1) * LEVEL_INTERVAL_DECREMENT))
                         (setNextPiecePreview (Some fresh)
                           (setCurrentPiece (Some newCurrentPiece)
                             (setBoard createEmptyBoard g))))))
           | Some Playing | Some Paused => Ok g
           end;
      Ok (resetDriver g1)
  | other =>
      let g1 := match other with
                | Paused => g
                | _ => setCurrentPiece None g
                end in
      Ok (setClearingRows []
           (setLineClearing false
             (setLineClearEffectTimeout None (resetDriver g1))))
  end.

(** The effect of lines 639-646, run when the AI switch changed. *)
Definition aiSwitchEffect (g : Game) : Game :=
  if isAiActive g then g else resetDriver g.

(** ** The session at mount *)

(** The initial values of the state of [App] and of [TetrisGame] and of
    their refs. *)
Definition initialSession : Game :=
  {| gameState := Initial; score := 0; linesCleared := 0; level := 1;
     nextPiecePreview := None; isAiActive := false;
     board := createEmptyBoard; currentPiece := None;
     fallInterval := INITIAL_FALL_INTERVAL;
     aiActionInProgress := false; aiCurrentBestMove := None;
     aiThinkTimeout := false; aiStepTimeout := false;
     clearingRows := []; isLineClearingAnimationActive := false;
     lineClearEffectTimeout := None |}.

(** * Vocabulary of the statements *)

(** ** Collisions and writes *)

(** The board coordinate [(R, C)] is below the board or beside it. *)
Definition outside (R C : Z) : Prop :=
  BOARD_HEIGHT <= R \/ C < 0 \/ BOARD_WIDTH <= C.

(** The board coordinate [(R, C)] is at or below row 0 and its cell is not
    empty. *)
Definition occupiedOn (b : BoardMatrix) (R C : Z) : Prop :=
  0 <= R /\ exists w, cellAt b R C = Some w /\ w <> 0.

(** The occupied cell of a matrix row at column offset [i], if any. *)
Definition occupiedCell (cells : list Z) (i : Z) : option Z :=
  if 0 <=? i then v ← cells !! Z.to_nat i; if v =? 0 then None else Some v
  else None.

(** The occupied cell of the matrix [m] at the integer index [(i, j)], if
    any. *)
Definition matrixCell (m : list (list Z)) (i j : Z) : option Z :=
  if 0 <=? i then cells ← m !! Z.to_nat i; occupiedCell cells j
  else None.

(** The occupied cell of the matrix [m], anchored at [pos], that projects to
    the board coordinate [(R, C)], if any. *)
Definition pieceCell (m : list (list Z)) (pos : Position) (R C : Z) : option Z :=
  matrixCell m (R - row pos) (C - col pos).

(** What a board cell holds after a pass that wrote [written] over it. *)
Definition overwritten (old : option Z) (written : option Z) : option Z :=
  match old with
  | Some v => Some (default v written)
  | None => None
  end.

(** The matrix [m] has an occupied cell. *)
Definition hasOccupiedCell (m : list (list Z)) : Prop :=
  exists r c cells v, m !! r = Some cells /\ cells !! c = Some v /\ v <> 0.

(** The leftmost occupied column of a matrix ([minCShape] of the planner),
    when it has an occupied cell. *)
Definition leftmostOccupied (m : list (list Z)) : option Z :=
  match columnExtent m with
  | Ok (minCShape, _, false) => Some minCShape
  | _ => None
  end.

(** ** Sessions *)

(** The board, the active piece and the session counters are the same in
    both states. *)
Definition sameBoardPieceCounters (g g' : Game) : Prop :=
  board g' = board g /\ currentPiece g' = currentPiece g /\
  score g' = score g /\ linesCleared g' = linesCleared g /\
  level g' = level g /\ fallInterval g' = fallInterval g.

(** ** Rotation: the places tried *)

(** The rotation index after the current one. *)
Definition nextRotation (p : ActivePiece) : nat :=
  ((rotation p + 1) mod length (matrices p))%nat.

(** [pos] moved up or down by each of the row offsets. *)
Definition upKicks (pos : Position) (offsets : list Z) : list Position :=
  map (fun upOffset => shiftedBy pos upOffset 0) offsets.

(** The places the manual rotation of section 4.2 tries, in order: the
    place of the piece, the horizontal kicks -1, +1, -2, +2, then, when the
    row is at most 1, the vertical kicks -1, -2 for the 4-cell-wide shape
    (the shape I) and -1 for every other shape. *)
Definition manualPlaces (p : ActivePiece) : list Position :=
  position p :: horizontalKicks (position p) ++
  (if row (position p) <=? 1
   then upKicks (position p) (if String.eqb (id (shape p)) "I" then [-1; -2] else [-1])
   else []).

(** The places the driver tries, in order: the place of the piece, the
    horizontal kicks -1, +1, -2, +2, then, when the row is at most 1, the
    vertical kicks -1, -2 for the shapes I, L and J and none for the other
    shapes. *)
Definition driverPlaces (p : ActivePiece) : list Position :=
  position p :: horizontalKicks (position p) ++
  (if (String.eqb (id (shape p)) "I" || String.eqb (id (shape p)) "L"
       || String.eqb (id (shape p)) "J")
      && (row (position p) <=? 1)
   then upKicks (position p) [-1; -2]
   else []).

(** The rotated piece put at the first of [places] where it does not
    collide; [None] when it collides at each of them. *)
Definition firstFit (rotatedPiece : ActivePiece) (places : list Position) (b : BoardMatrix)
  : outcome (option ActivePiece) :=
  found ← firstFree rotatedPiece places b;
  Ok (withPosition rotatedPiece <$> (found : option Position)).

(** The manual rotation operation as section 4.2 describes it: advance the
    rotation index, then commit the first place that fits. *)
Definition manualRotation (p : ActivePiece) (b : BoardMatrix) : outcome (option ActivePiece) :=
  firstFit (withRotation p (nextRotation p)) (manualPlaces p) b.

(** The piece collides at [pos]; the piece fits at [pos]. *)
Definition blockedAt (p : ActivePiece) (pos : Position) (b : BoardMatrix) : Prop :=
  checkCollision p pos b = Ok true.

Definition fitsAt (p : ActivePiece) (pos : Position) (b : BoardMatrix) : Prop :=
  checkCollision p pos b = Ok false.

(** Where the two tables of vertical kicks part: at row 1 or above, with
    the piece in its next rotation blocked at its place and at every
    horizontal kick, either the shape is L or J, one row up is blocked and
    two rows up fits, or the shape is none of I, L and J and one row up
    fits. *)
Definition kicksDiffer (p : ActivePiece) (b : BoardMatrix) : Prop :=
  let rotatedPiece := withRotation p (nextRotation p) in
  row (position p) <= 1 /\
  Forall (fun pos => blockedAt rotatedPiece pos b)
         (position p :: horizontalKicks (position p)) /\
  ((In (id (shape p)) ["L"; "J"]%string /\
    blockedAt rotatedPiece (shiftedBy (position p) (-1) 0) b /\
    fitsAt rotatedPiece (shiftedBy (position p) (-2) 0) b) \/
   (~ In (id (shape p)) ["I"; "L"; "J"]%string /\
    fitsAt rotatedPiece (shiftedBy (position p) (-1) 0) b)).

(** ** The evaluation of a board *)

(** Some occupied cell of [m], dropped at row [dropRow], lies above row 0. *)
Definition landsAboveTop (m : list (list Z)) (dropRow : Z) : Prop :=
  exists r c cells v,
    m !! r = Some cells /\ cells !! c = Some v /\ v <> 0 /\ dropRow + Z.of_nat r < 0.

(** The number of full rows of a board. *)
Definition fullRowCount (b : BoardMatrix) : nat := length (List.filter isFullRow b).

(** The board with its full rows taken out and as many empty rows put on
    top. *)
Definition afterClear (b : BoardMatrix) : BoardMatrix :=
  replicate (fullRowCount b) emptyRow
  ++ List.filter (fun line => negb (isFullRow line)) b.

(** Column [c] of a board, read from the top. *)
Definition column (b : BoardMatrix) (c : nat) : list Z :=
  map (fun line => readCell line c) b.

(** The part of a column from its highest occupied cell down to the
    bottom. *)
Fixpoint stackOf (cells : list Z) : list Z :=
  match cells with
  | [] => []
  | v :: below => if v =? 0 then stackOf below else cells
  end.

(** The height of a column: the distance from the top of its highest
    occupied cell to the bottom, 0 for an empty column. *)
Definition stackHeight (cells : list Z) : Z := Z.of_nat (length (stackOf cells)).

(** A hole: an empty cell with an occupied cell somewhere above it. *)
Definition isHole (cells : list Z) (r : nat) : bool :=
  (List.nth r cells 0 =? 0) && existsb (fun v => negb (v =? 0)) (take r cells).

(** The number of holes of a column. *)
Definition holesIn (cells : list Z) : Z :=
  Z.of_nat (length (List.filter (isHole cells) (seq 0 (length cells)))).

(** The sum of the heights of the columns. *)
Definition aggregateHeightOf (b : BoardMatrix) : Z :=
  sumZ (map (fun c => stackHeight (column b c)) columns).

(** The number of holes of the board. *)
Definition holesOf (b : BoardMatrix) : Z :=
  sumZ (map (fun c => holesIn (column b c)) columns).

(** The sum of the height differences between neighbouring columns. *)
Definition bumpinessOfBoard (b : BoardMatrix) : Z :=
  sumZ (map (fun c => Z.abs (stackHeight (column b c) - stackHeight (column b (S c))))
            (seq 0 (Z.to_nat BOARD_WIDTH - 1))).

(** The empty cells of a column that the scan of the evaluation counts,
    when it has ([seen]) or has not yet met an occupied cell. *)
Definition zerosUnder (seen : bool) (cells : list Z) : Z :=
  Z.of_nat (length (List.filter (fun v => v =? 0) (if seen then cells else stackOf cells))).

(** ** Well-formed matrices, pieces and sessions *)

(** A matrix of [N] rows of [N] cells. *)
Definition square (N : nat) (m : list (list Z)) : Prop :=
  length m = N /\ Forall (fun line => length line = N) m.

(** The cell of a matrix at index [(i, j)], as the loops of [getRotations]
    read it. *)
Definition cellOf (m : list (list Z)) (i j : nat) : Z :=
  readCell (default [] (m !! i)) j.

(** A piece whose rotation index selects one of its matrices, each of which
    has an occupied cell. *)
Definition piece_ok (p : ActivePiece) : Prop :=
  (rotation p < length (matrices p))%nat /\ Forall hasOccupiedCell (matrices p).

(** The test of [hasOccupiedCell]. *)
Definition occupiedb (m : list (list Z)) : bool :=
  existsb (existsb (fun v => negb (v =? 0))) m.

(** Row [r] of the board is a full row. *)
Definition fullAt (b : BoardMatrix) (r : nat) : Prop :=
  exists line, b !! r = Some line /\ isFullRow line = true.

(** A list of indexes in strictly descending order. *)
Fixpoint descending (l : list nat) : Prop :=
  match l with
  | [] => True
  | x :: rest => Forall (fun y => (y < x)%nat) rest /\ descending rest
  end.

(** ** The choice of the planner *)

(** The update of [bestMove] at lines 507-509: a new candidate replaces the
    best move when there is none yet or when it scores strictly higher. *)
Definition better (best cand : option AiMove) : option AiMove :=
  match cand, best with
  | None, _ => best
  | Some x, None => Some x
  | Some x, Some bm => if scoreGt (Move.score x) (Move.score bm) then Some x else best
  end.

(** [cand] is the placement the planner evaluates for rotation [rot] and
    column [c]: the column is in the range the loop runs over, and the body
    of the loop, started without a best move, ends with [cand]. *)
Definition candidate (piece : ActivePiece) (b : BoardMatrix) (rot : nat) (c : Z)
    (cand : AiMove) : Prop :=
  exists m minCShape maxCShape,
    matrices piece !! rot = Some m /\
    columnExtent m = Ok (minCShape, maxCShape, false) /\
    - minCShape <= c <= BOARD_WIDTH - 1 - maxCShape /\
    tryColumn piece b rot None c = Ok (Some cand).

(** [(rot, c)] comes before [(rot', c')] in the order of the two loops. *)
Definition triedBefore (rot : nat) (c : Z) (rot' : nat) (c' : Z) : Prop :=
  (rot < rot')%nat \/ (rot = rot' /\ c < c').

(** ** Well-formed sessions *)

(** The data model of a session: the board has [BOARD_HEIGHT] rows of
    [BOARD_WIDTH] cells; the active piece, the queued preview and the
    preview a pending line clear closed over are well formed; the rows
    marked for clearing are rows of the board; and the rotation a planned
    move asks for is one the active piece has. *)
Definition session_ok (g : Game) : Prop :=
  board_ok (board g) /\
  (forall p, currentPiece g = Some p -> piece_ok p) /\
  (forall p, nextPiecePreview g = Some p -> piece_ok p) /\
  (forall cl p, lineClearEffectTimeout g = Some cl ->
                closedNextPiecePreview cl = Some p -> piece_ok p) /\
  Forall (fun r => (r < Z.to_nat BOARD_HEIGHT)%nat) (clearingRows g) /\
  (forall mv p, aiCurrentBestMove g = Some mv -> currentPiece g = Some p ->
                (targetRotation mv < length (matrices p))%nat).

(** The operation returns, and with a well-formed session. *)
Definition safely (o : outcome Game) : Prop :=
  exists g', o = Ok g' /\ session_ok g'.

(** A session in play or paused that has no active piece and no line clear
    pending. *)
Definition stranded (g : Game) : Prop :=
  currentPiece g = None /\ lineClearEffectTimeout g = None /\
  (gameState g = Playing \/ gameState g = Paused).

(** The operation returns with a session that is stranded still and has
    the board of [g]. *)
Definition staysStranded (g : Game) (o : outcome Game) : Prop :=
  exists g', o = Ok g' /\ stranded g' /\ board g' = board g.

(** The active piece, if there is one, does not collide where it is: by
    [checkCollision], each of its occupied cells is between the walls,
    above the floor, and on an empty cell of the board or above row 0. *)
Definition placed_free (g : Game) : Prop :=
  forall p, currentPiece g = Some p ->
    checkCollision p (position p) (board g) = Ok false.

(** The operation returns, and with the active piece free of collision. *)
Definition keepsFree (o : outcome Game) : Prop :=
  exists g', o = Ok g' /\ placed_free g'.

(** ** Proof automation for sessions *)

(** The fields of a session after its setters. *)
Ltac session_fields :=
  cbn [gameState score linesCleared level nextPiecePreview isAiActive board currentPiece
       fallInterval aiActionInProgress aiCurrentBestMove aiThinkTimeout aiStepTimeout
       clearingRows isLineClearingAnimationActive lineClearEffectTimeout
       setGameState setScore setLinesCleared setLevel setNextPiecePreview setIsAiActive
       setBoard setCurrentPiece setFallInterval setAiActionInProgress setAiCurrentBestMove
       setAiThinkTimeout setAiStepTimeout setClearingRows setLineClearing
       setLineClearEffectTimeout onGameOver disarmAi resetDriver scheduleNextStep
       closedLinesCleared closedLevel closedNextPiecePreview] in *.

(** A session built by setters from a well-formed one is well formed when
    its board, pieces, marked rows and planned move are. *)
Ltac session_ok_by Hok :=
  let Hb := fresh "Hb" in
  let Hcur := fresh "Hcur" in
  let Hprev := fresh "Hprev" in
  let Hcl := fresh "Hcl" in
  let Hrows := fresh "Hrows" in
  let Hmv := fresh "Hmv" in
  destruct Hok as (Hb & Hcur & Hprev & Hcl & Hrows & Hmv);
  unfold session_ok; session_fields;
  repeat match goal with |- _ /\ _ => split end;
  try assumption; try (intros; discriminate); eauto.

(** * Sample pieces, boards and sessions *)

(** A piece of shape [sh] in rotation [rot] at row [r] and column [c]. The
    matrices of the seven shapes carry their colour index already. *)
Definition pieceOf (sh : TetrominoShape) (rot : nat) (r c : Z) : ActivePiece :=
  {| shape := sh; position := {| row := r; col := c |}; rotation := rot;
     matrices := getRotations (matrix sh) |}.

(** The O piece as [spawnNewPiece] builds it. *)
Definition spawnedO : ActivePiece :=
  {| shape := O_SHAPE; position := {| row := 0; col := 4 |}; rotation := 0;
     matrices := [[[4; 4]; [4; 4]]; [[4; 4]; [4; 4]]; [[4; 4]; [4; 4]]; [[4; 4]; [4; 4]]] |}.

(** A planned move that asks for rotation [rot]. *)
Definition moveTo (rot : nat) (c r : Z) : AiMove :=
  {| targetRotation := rot; targetCol := c; Move.score := Finite 0; finalRow := r |}.

(** A session in play with the given counters, board and piece, no queued
    preview, the AI off and nothing pending. *)
Definition sessionWith (points lines lvl : Z) (b : BoardMatrix) (p : option ActivePiece) : Game :=
  {| gameState := Playing; score := points; linesCleared := lines; level := lvl;
     nextPiecePreview := None; isAiActive := false; board := b; currentPiece := p;
     fallInterval := Z.max 100 (INITIAL_FALL_INTERVAL - (lvl - 1) * LEVEL_INTERVAL_DECREMENT);
     aiActionInProgress := false; aiCurrentBestMove := None;
     aiThinkTimeout := false; aiStepTimeout := false;
     clearingRows := []; isLineClearingAnimationActive := false;
     lineClearEffectTimeout := None |}.

(** A board whose two lowest rows lack only columns 0 and 1. *)
Definition twoRowsOpenLeft : BoardMatrix :=
  replicate 18 emptyRow ++ replicate 2 ([0; 0] ++ replicate 8 1).

(** The O piece about to fill the two open rows, at level 3 with 29 lines. *)
Definition sampleSession : Game :=
  sessionWith 500 29 3 twoRowsOpenLeft (Some (pieceOf O_SHAPE 0 18 0)).

(** The state after [lockPiece] on [sampleSession]. *)
Definition sampleLocked : Game :=
  match lockPiece (currentPiece sampleSession) 0 1 sampleSession with
  | Ok g1 => g1
  | _ => sampleSession
  end.

(** A row that holds a single block, a row filled by the O piece. *)
Definition markerRow : list CellValue := [0; 0; 0; 0; 0; 0; 0; 0; 0; 5].

Definition filledRow : list CellValue := [4; 4] ++ replicate 8 1.

(** Two rows that lack only columns 0 and 1, under a row that holds a
    single block. *)
Definition twoRowsUnderMarker : BoardMatrix :=
  replicate 17 emptyRow ++ [markerRow] ++ replicate 2 ([0; 0] ++ replicate 8 1).

(** The O piece about to fill both rows. *)
Definition markerSession : Game :=
  sessionWith 0 0 1 twoRowsUnderMarker (Some (pieceOf O_SHAPE 0 18 0)).

(** A stack filling columns 3 to 7 from row 3 down. *)
Definition stackUnderT : BoardMatrix :=
  replicate 3 emptyRow ++ replicate 17 [0; 0; 0; 1; 1; 1; 1; 1; 0; 0].

(** A well in column 4 between two stacks, with a gap at row 3 of column 5. *)
Definition wellForL : BoardMatrix :=
  replicate 2 emptyRow
  ++ [[0; 0; 0; 1; 0; 1; 0; 0; 0; 0]; [0; 0; 0; 1; 0; 0; 0; 0; 0; 0]]
  ++ replicate 16 [0; 0; 0; 1; 1; 1; 0; 0; 0; 0].

(** A session in play that the AI drives toward the move [mv]. *)
Definition drivenSession (b : BoardMatrix) (p : ActivePiece) (mv : AiMove) : Game :=
  setAiCurrentBestMove (Some mv)
    (setAiActionInProgress true (setIsAiActive true (sessionWith 0 0 1 b (Some p)))).

(** ** Games played from the start *)

(** A new game: the effect at mount, the start command and the phase
    effect after it; [k1] and [k2] are the random indexes of the first piece
    and of the preview. *)
Definition newGame (k1 k2 : nat) : outcome Game :=
  mounted ← gameStateEffect None k1 k2 initialSession;
  gameStateEffect (Some (gameState mounted)) k1 k2 (startGame mounted).

(** Keys pressed one after the other, each with the random index drawn if
    the key locks the piece. *)
Definition pressAll (script : list (Key * nat)) (g : Game) : outcome Game :=
  forEachM (fun g '(key, k) => handleKeyDown key k k g) script g.

(** The keys that place one piece; [k] is the index of the piece that
    enters the preview when this one locks. *)
Definition placing (keys : list Key) (k : nat) : list (Key * nat) :=
  map (fun key => (key, k)) keys.

(** The AI switched on in the session [g] and the think timer fired: the
    two effects on the switch, then the think callback, which plans and
    takes the first step of the driver. *)
Definition aiTakesOver (k1 k2 : nat) (g : Game) : outcome Game :=
  aiThink k1 k2 (fst (aiEffect (aiSwitchEffect (toggleAi g)))).

(** A game of eleven I pieces: two towers in columns 5 and 8, a bar over
    columns 3 to 6 in row 3 and two bars over columns 0 to 7 in row 2. The
    twelfth piece is a T. *)
Definition gameUnderT : list (Key * nat) :=
  placing [ArrowUp; Space] 0 ++ placing [ArrowUp; Space] 0 ++
  placing [ArrowUp; Space] 0 ++ placing [ArrowUp; Space] 0 ++
  placing [ArrowUp; ArrowRight; ArrowRight; ArrowRight; Space] 0 ++
  placing [ArrowUp; ArrowRight; ArrowRight; ArrowRight; Space] 0 ++
  placing [ArrowUp; ArrowRight; ArrowRight; ArrowRight; Space] 0 ++
  placing [ArrowUp; ArrowRight; ArrowRight; ArrowRight; Space] 0 ++
  placing [Space] 0 ++
  placing [ArrowLeft; ArrowLeft; ArrowLeft; Space] 6 ++
  placing [ArrowRight; Space] 0.

Definition underT : Game :=
  match newGame 0 0 ≫= pressAll gameUnderT with
  | Ok g => g
  | _ => initialSession
  end.

(** A game of fourteen pieces: rows 18 and 19 filled but for a slot on the
    left, and two towers in columns 4 and 7 that reach row 1. The fifteenth
    piece is an L. *)
Definition gameAroundL : list (Key * nat) :=
  placing [ArrowRight; ArrowRight; ArrowRight; Space] 1 ++
  placing [ArrowRight; ArrowRight; ArrowRight; Space] 3 ++
  placing [ArrowUp; ArrowUp; ArrowUp; ArrowLeft; ArrowLeft; ArrowLeft; Space] 0 ++
  placing [Space] 0 ++
  placing [ArrowUp; ArrowLeft; Space] 0 ++
  placing [ArrowUp; ArrowLeft; Space] 3 ++
  placing [ArrowUp; ArrowLeft; Space] 0 ++
  placing [ArrowLeft; Space] 0 ++
  placing [ArrowUp; ArrowRight; ArrowRight; Space] 0 ++
  placing [ArrowUp; ArrowRight; ArrowRight; Space] 0 ++
  placing [ArrowUp; ArrowRight; ArrowRight; Space] 6 ++
  placing [ArrowUp; ArrowRight; ArrowRight; Space] 2 ++
  placing [ArrowRight; ArrowRight; ArrowRight; Space] 1 ++
  placing [ArrowLeft; Space] 0.

Definition aroundL : Game :=
  match newGame 0 0 ≫= pressAll gameAroundL with
  | Ok g => g
  | _ => initialSession
  end.

(** A game that starts with an L piece. *)
Definition startsWithL : Game :=
  match newGame 1 0 with
  | Ok g => g
  | _ => initialSession
  end.

(** ** A restart while a line clear is pending *)

(** The three counters of a session: score, total lines, level. *)
Definition counters (g : Game) : Z * Z * Z := (score g, linesCleared g, level g).

Definition samePhase (a b : GameState) : bool :=
  match a, b with
  | Playing, Playing | Paused, Paused | GameOver, GameOver | Initial, Initial => true
  | _, _ => false
  end.

(** The render after a step: the phase effect runs if the step changed
    [gameState] or [level], the two values of its dependency list that can
    change (line 153), and finds in [prevGameStateRef] the phase of the
    render before. *)
Definition thenPhaseEffect (k1 k2 : nat) (before after : Game) : outcome Game :=
  if samePhase (gameState after) (gameState before) && (level after =? level before)
  then Ok after
  else gameStateEffect (Some (gameState before)) k1 k2 after.

(** The restart button, shown in play, in pause and after a game over
    (App.tsx, lines 155-157). *)
Definition restartGame (k1 k2 : nat) (g : Game) : outcome Game :=
  thenPhaseEffect k1 k2 g (startGame g).

(** The timer of the clear animation firing, and the render after it. *)
Definition clearTimer (k1 k2 : nat) (g : Game) : outcome Game :=
  fireLineClear k1 k2 g ≫= thenPhaseEffect k1 k2 g.

(** Steps taken one after the other. *)
Definition thenAll (steps : list (Game -> outcome Game)) (start : outcome Game)
  : outcome Game :=
  foldl (fun run step => run ≫= step) start steps.

(** On an empty board, with two I pieces and an O piece: the I pieces fill
    columns 0 to 7 of row 19 and the O piece columns 8 and 9 of rows 18 and
    19, which completes row 19. *)
Definition fillRowOne : list (Key * nat) :=
  placing [ArrowLeft; ArrowLeft; ArrowLeft; Space] 3 ++
  placing [ArrowRight; Space] 0 ++
  placing [ArrowRight; ArrowRight; ArrowRight; ArrowRight; Space] 0.

(** With what the O piece left in row 19 after the clear: two I pieces
    complete the row again. *)
Definition fillRowTwo : list (Key * nat) :=
  placing [ArrowLeft; ArrowLeft; ArrowLeft; Space] 0 ++
  placing [ArrowRight; Space] 0.

(** A round of five pieces that clears two lines, one at a time, and leaves
    the board empty; the pieces drawn are I, I, O, I, I again. *)
Definition twoLines : list (Game -> outcome Game) :=
  [pressAll fillRowOne; clearTimer 0 0; pressAll fillRowTwo; clearTimer 0 0].

Definition tenLines : list (Game -> outcome Game) := concat (replicate 5 twoLines).

(** A game of five rounds; in the sixth the O piece has just completed row
    19 and the animation runs. *)
Definition roundSixLocked : Game :=
  match thenAll (tenLines ++ [pressAll fillRowOne]) (newGame 0 0) with
  | Ok g => g
  | _ => initialSession
  end.

(** The animation left alone. *)
Definition roundSixLeftAlone : Game :=
  match clearTimer 0 0 roundSixLocked with
  | Ok g => g
  | _ => initialSession
  end.

(** The restart button pressed during the animation, then the timer, then
    the next two pieces and the timer of the line they complete. *)
Definition roundSixRestarted : Game :=
  match restartGame 0 0 roundSixLocked with
  | Ok g => g
  | _ => initialSession
  end.

Definition roundSixCleared : Game :=
  match clearTimer 0 0 roundSixRestarted with
  | Ok g => g
  | _ => initialSession
  end.

Definition roundSixNextLine : Game :=
  match thenAll [pressAll fillRowTwo; clearTimer 0 0] (Ok roundSixCleared) with
  | Ok g => g
  | _ => initialSession
  end.

(** The line counter, the level and the fall interval of a session. *)
Definition pace (g : Game) : Z * Z * Z := (linesCleared g, level g, fallInterval g).

(** What the pending callback closed over: the line counter and the level
    of the render in which the piece was locked. *)
Definition closedCounters (g : Game) : option (Z * Z) :=
  (fun cl => (closedLinesCleared cl, closedLevel cl)) <$> lineClearEffectTimeout g.

(** The O piece about to fill the two open rows, at level 3 with 25 lines. *)
Definition lateSession : Game :=
  sessionWith 700 25 3 twoRowsOpenLeft (Some (pieceOf O_SHAPE 0 18 0)).

(** * Properties *)

(** ** Shapes of boards *)

Lemma board_ok_empty : board_ok createEmptyBoard.
Proof.
  split; [reflexivity|].
  unfold createEmptyBoard. apply Forall_replicate. reflexivity.
Qed.

Lemma board_ok_row (b : BoardMatrix) (r : nat) :
  board_ok b -> (r < Z.to_nat BOARD_HEIGHT)%nat ->
  exists line, b !! r = Some line /\ length line = Z.to_nat BOARD_WIDTH.
Proof.
  intros [Hlen Hrows] Hr.
  destruct (lookup_lt_is_Some_2 b r) as [line Hline]; [lia|].
  exists line. split; [assumption|].
  eapply Forall_lookup_1 in Hrows; eauto.
Qed.

Lemma board_ok_cell (b : BoardMatrix) (R C : Z) :
  board_ok b -> 0 <= R < BOARD_HEIGHT -> 0 <= C < BOARD_WIDTH ->
  exists line v, b !! Z.to_nat R = Some line /\ line !! Z.to_nat C = Some v
                 /\ cellAt b R C = Some v.
Proof.
  intros Hok HR HC.
  destruct (board_ok_row b (Z.to_nat R) Hok) as (line & Hline & Hlen); [lia|].
  destruct (lookup_lt_is_Some_2 line (Z.to_nat C)) as [v Hv]; [lia|].
  exists line, v. repeat split; try assumption.
  unfold cellAt.
  replace (0 <=? R) with true by (symmetry; apply Z.leb_le; lia).
  replace (0 <=? C) with true by (symmetry; apply Z.leb_le; lia).
  simpl. rewrite Hline. simpl. exact Hv.
Qed.

(** ** checkCollision *)

Lemma cellCollides_spec (b : BoardMatrix) (R C : Z) :
  board_ok b ->
  cellCollides b R C = true <-> outside R C \/ occupiedOn b R C.
Proof.
  intros Hok. unfold cellCollides, outside, occupiedOn.
  rewrite !orb_true_iff, andb_true_iff, !Z.leb_le, Z.ltb_lt.
  split.
  - intros [[[H|H]|H]|[HR Hcell]]; [left; lia..|].
    destruct (Z.le_gt_cases BOARD_HEIGHT R); [left; lia|].
    destruct (Z.lt_ge_cases C 0); [left; lia|].
    destruct (Z.le_gt_cases BOARD_WIDTH C); [left; lia|].
    right. split; [assumption|].
    destruct (board_ok_cell b R C Hok) as (line & v & Hline & Hv & Hat); [lia..|].
    rewrite Hline in Hcell. simpl in Hcell. rewrite Hv in Hcell.
    exists v. split; [assumption|].
    apply negb_true_iff, Z.eqb_neq in Hcell. assumption.
  - intros [[H|[H|H]]|[HR (w & Hat & Hw)]]; [tauto..|].
    right. split; [assumption|].
    unfold cellAt in Hat.
    destruct ((0 <=? R) && (0 <=? C)); [|discriminate].
    destruct (b !! Z.to_nat R) as [line|]; [|discriminate].
    simpl in Hat. rewrite Hat.
    apply negb_true_iff, Z.eqb_neq. assumption.
Qed.

Lemma collidesInRow_true (cells : list Z) (r c0 : nat) (pos : Position) (b : BoardMatrix) :
  collidesInRow cells r c0 pos b = true <->
  exists c v, cells !! c = Some v /\ v <> 0 /\
    cellCollides b (row pos + Z.of_nat r) (col pos + Z.of_nat (c0 + c)) = true.
Proof.
  revert c0. induction cells as [|cell rest IH]; intros c0; simpl.
  - split; [discriminate|]. intros (c & v & Hc & _). rewrite lookup_nil in Hc. discriminate.
  - destruct (negb (cell =? 0) && cellCollides b (row pos + Z.of_nat r) (col pos + Z.of_nat c0))
      eqn:Hhere.
    + split; [intros _|reflexivity].
      apply andb_true_iff in Hhere as [Hne Hhit].
      exists 0%nat, cell. rewrite Nat.add_0_r.
      apply negb_true_iff, Z.eqb_neq in Hne. auto.
    + rewrite IH. split.
      * intros (c & v & Hc & Hv & Hhit). exists (S c), v.
        replace (c0 + S c)%nat with (S c0 + c)%nat by lia. auto.
      * intros (c & v & Hc & Hv & Hhit). destruct c as [|c].
        -- simpl in Hc. injection Hc as ->. rewrite Nat.add_0_r in Hhit.
           apply Z.eqb_neq in Hv. rewrite Hv, Hhit in Hhere. discriminate.
        -- exists c, v. replace (S c0 + c)%nat with (c0 + S c)%nat by lia. auto.
Qed.

Lemma collidesFromRow_true (rows : list (list Z)) (r0 : nat) (pos : Position) (b : BoardMatrix) :
  collidesFromRow rows r0 pos b = true <->
  exists r c cells v, rows !! r = Some cells /\ cells !! c = Some v /\ v <> 0 /\
    cellCollides b (row pos + Z.of_nat (r0 + r)) (col pos + Z.of_nat c) = true.
Proof.
  revert r0. induction rows as [|cells rest IH]; intros r0; simpl.
  - split; [discriminate|]. intros (r & c & cells & v & Hr & _).
    rewrite lookup_nil in Hr. discriminate.
  - destruct (collidesInRow cells r0 0 pos b) eqn:Hhere.
    + split; [intros _|reflexivity].
      apply collidesInRow_true in Hhere as (c & v & Hc & Hv & Hhit).
      exists 0%nat, c, cells, v. rewrite Nat.add_0_r. auto.
    + rewrite IH. split.
      * intros (r & c & cs & v & Hr & Hc & Hv & Hhit). exists (S r), c, cs, v.
        replace (r0 + S r)%nat with (S r0 + r)%nat by lia. auto.
      * intros (r & c & cs & v & Hr & Hc & Hv & Hhit). destruct r as [|r].
        -- simpl in Hr. injection Hr as <-. rewrite Nat.add_0_r in Hhit.
           assert (collidesInRow cells r0 0 pos b = true) as Habs
             by (apply collidesInRow_true; exists c, v; auto).
           rewrite Habs in Hhere. discriminate.
        -- exists r, c, cs, v. replace (S r0 + r)%nat with (r0 + S r)%nat by lia. auto.
Qed.

(** C2. On a board of the data model, and for a piece whose rotation index
    selects one of its matrices, [checkCollision] returns, and it returns
    [true] if and only if some non-empty cell of the current rotation matrix
    projects to a row >= 20, or to a column < 0 or >= 10, or to a row >= 0
    whose board cell is non-empty. A cell projected to a negative row inside
    the columns of the board therefore never collides. *)
Theorem checkCollision_iff (piece : ActivePiece) (pos : Position) (b : BoardMatrix)
    (m : list (list Z)) :
  matrices piece !! rotation piece = Some m ->
  board_ok b ->
  exists illegal, checkCollision piece pos b = Ok illegal /\
    (illegal = true <->
     exists r c cells v,
       m !! r = Some cells /\ cells !! c = Some v /\ v <> 0 /\
       (outside (row pos + Z.of_nat r) (col pos + Z.of_nat c) \/
        occupiedOn b (row pos + Z.of_nat r) (col pos + Z.of_nat c))).
Proof.
  intros Hm Hok. unfold checkCollision. rewrite Hm. simpl.
  eexists. split; [reflexivity|].
  rewrite collidesFromRow_true.
  split; intros (r & c & cells & v & Hr & Hc & Hv & Hhit);
    exists r, c, cells, v; repeat split; try assumption.
  - apply cellCollides_spec in Hhit; assumption.
  - apply cellCollides_spec; assumption.
Qed.

Lemma checkCollision_iff_witness :
  exists illegal,
    checkCollision {| shape := O_SHAPE; position := {| row := -1; col := 4 |};
                      rotation := 0; matrices := getRotations (matrix O_SHAPE) |}
                   {| row := -1; col := 4 |} createEmptyBoard = Ok illegal /\
    (illegal = true <->
     exists r c cells v,
       matrix O_SHAPE !! r = Some cells /\ cells !! c = Some v /\ v <> 0 /\
       (outside (-1 + Z.of_nat r) (4 + Z.of_nat c) \/
        occupiedOn createEmptyBoard (-1 + Z.of_nat r) (4 + Z.of_nat c))).
Proof.
  apply (checkCollision_iff
           {| shape := O_SHAPE; position := {| row := -1; col := 4 |};
              rotation := 0; matrices := getRotations (matrix O_SHAPE) |}
           {| row := -1; col := 4 |} createEmptyBoard (matrix O_SHAPE)).
  - reflexivity.
  - split; [reflexivity | repeat constructor].
Defined.

(** ** lockPiece: writing the piece into the board *)

Lemma onBoard_true (R C : Z) :
  onBoard R C = true <-> 0 <= R < BOARD_HEIGHT /\ 0 <= C < BOARD_WIDTH.
Proof.
  unfold onBoard. rewrite !andb_true_iff, !Z.leb_le, !Z.ltb_lt. lia.
Qed.

Lemma cellAt_None_off (b : BoardMatrix) (R C : Z) :
  board_ok b -> ~ (0 <= R < BOARD_HEIGHT /\ 0 <= C < BOARD_WIDTH) -> cellAt b R C = None.
Proof.
  intros [Hlen Hrows] Hoff. unfold cellAt.
  destruct (0 <=? R) eqn:HR; [|reflexivity].
  destruct (0 <=? C) eqn:HC; [|reflexivity]. simpl.
  apply Z.leb_le in HR, HC.
  destruct (b !! Z.to_nat R) as [line|] eqn:Hline; [|reflexivity]. simpl.
  apply lookup_ge_None.
  assert (length line = Z.to_nat BOARD_WIDTH) as Hw
    by (eapply Forall_lookup_1 in Hrows; eauto).
  apply lookup_lt_Some in Hline.
  assert (R < BOARD_HEIGHT) by lia. lia.
Qed.

Lemma storeBoard_spec (b : BoardMatrix) (R C v : Z) :
  board_ok b -> onBoard R C = true ->
  exists b', storeBoard b (Z.to_nat R) (Z.to_nat C) v = Ok b' /\ board_ok b' /\
    forall R' C', cellAt b' R' C' =
      overwritten (cellAt b R' C') (if (R' =? R) && (C' =? C) then Some v else None).
Proof.
  intros Hok Hon. apply onBoard_true in Hon as [HR HC].
  destruct (board_ok_cell b R C Hok HR HC) as (line & old & Hline & Hold & Hat).
  assert (length line = Z.to_nat BOARD_WIDTH) as Hw.
  { destruct Hok as [_ Hrows]. eapply Forall_lookup_1 in Hrows; eauto. }
  unfold storeBoard. rewrite Hline. simpl. unfold storeCell.
  replace (Z.to_nat C <? length line)%nat with true
    by (symmetry; apply Nat.ltb_lt; lia).
  eexists. split; [reflexivity|]. split.
  - destruct Hok as [Hlen Hrows]. split.
    + rewrite length_insert. assumption.
    + apply Forall_insert; [assumption|]. rewrite length_insert. assumption.
  - intros R' C'. unfold cellAt.
    destruct (0 <=? R') eqn:HR'; [|reflexivity].
    destruct (0 <=? C') eqn:HC'; [|reflexivity]. simpl.
    apply Z.leb_le in HR', HC'.
    destruct (Z.eqb_spec R' R) as [->|HneR].
    + rewrite list_lookup_insert_eq by (apply lookup_lt_Some in Hline; lia).
      rewrite Hline. simpl.
      destruct (Z.eqb_spec C' C) as [->|HneC].
      * rewrite list_lookup_insert_eq by lia. rewrite Hold. reflexivity.
      * rewrite list_lookup_insert_ne by lia.
        destruct (line !! Z.to_nat C'); reflexivity.
    + rewrite list_lookup_insert_ne by lia. simpl.
      destruct (b !! Z.to_nat R') as [line'|]; [|reflexivity]. simpl.
      destruct (line' !! Z.to_nat C'); reflexivity.
Qed.

Lemma occupiedCell_cons (cell : Z) (rest : list Z) (i : Z) :
  occupiedCell (cell :: rest) i =
  if i =? 0 then (if cell =? 0 then None else Some cell) else occupiedCell rest (i - 1).
Proof.
  unfold occupiedCell.
  destruct (Z.eqb_spec i 0) as [->|Hne]; [reflexivity|].
  destruct (0 <=? i) eqn:Hi.
  - apply Z.leb_le in Hi.
    replace (0 <=? i - 1) with true by (symmetry; apply Z.leb_le; lia).
    replace (Z.to_nat i) with (S (Z.to_nat (i - 1))) by lia. reflexivity.
  - apply Z.leb_gt in Hi.
    replace (0 <=? i - 1) with false by (symmetry; apply Z.leb_gt; lia). reflexivity.
Qed.

Lemma lockRow_spec (cells : list Z) (r c0 : nat) (pos : Position) (b : BoardMatrix) :
  board_ok b ->
  exists b', lockRow cells r c0 pos b = Ok b' /\ board_ok b' /\
    forall R C, cellAt b' R C =
      overwritten (cellAt b R C)
        (if R =? row pos + Z.of_nat r
         then occupiedCell cells (C - (col pos + Z.of_nat c0)) else None).
Proof.
  revert c0 b. induction cells as [|cell rest IH]; intros c0 b Hok.
  - exists b. split; [reflexivity|]. split; [assumption|].
    intros R C. unfold occupiedCell. rewrite lookup_nil.
    destruct (cellAt b R C); simpl; [|reflexivity].
    destruct (R =? _); [destruct (0 <=? _)|]; reflexivity.
  - simpl.
    set (boardRow := row pos + Z.of_nat r).
    set (boardCol := col pos + Z.of_nat c0).
    assert (exists b1, (if negb (cell =? 0) && onBoard boardRow boardCol
                        then storeBoard b (Z.to_nat boardRow) (Z.to_nat boardCol) cell
                        else Ok b) = Ok b1 /\ board_ok b1 /\
              forall R C, cellAt b1 R C =
                overwritten (cellAt b R C)
                  (if (R =? boardRow) && (C =? boardCol)
                   then (if cell =? 0 then None else Some cell) else None))
      as (b1 & Hb1 & Hok1 & Hcells1).
    { destruct (cell =? 0) eqn:Hcell; simpl.
      - exists b. split; [reflexivity|]. split; [assumption|].
        intros R C. destruct (cellAt b R C); simpl; [|reflexivity].
        destruct ((R =? boardRow) && (C =? boardCol)); reflexivity.
      - destruct (onBoard boardRow boardCol) eqn:Hon.
        + apply storeBoard_spec; assumption.
        + exists b. split; [reflexivity|]. split; [assumption|].
          intros R C.
          destruct (Z.eqb_spec R boardRow) as [->|]; [|destruct (cellAt b R C); reflexivity].
          destruct (Z.eqb_spec C boardCol) as [->|]; [|destruct (cellAt b boardRow C); reflexivity].
          rewrite cellAt_None_off; [reflexivity|assumption|].
          intros Hin. apply onBoard_true in Hin. congruence. }
    rewrite Hb1. simpl.
    destruct (IH (S c0) b1 Hok1) as (b2 & Hb2 & Hok2 & Hcells2).
    exists b2. split; [assumption|]. split; [assumption|].
    intros R C. rewrite Hcells2, Hcells1, occupiedCell_cons.
    fold boardRow. fold boardCol.
    replace (C - (col pos + Z.of_nat (S c0))) with (C - boardCol - 1) by (unfold boardCol; lia).
    destruct (cellAt b R C) as [old|]; simpl; [|reflexivity].
    destruct (R =? boardRow); simpl; [|reflexivity].
    destruct (Z.eqb_spec C boardCol) as [->|Hne].
    + rewrite Z.sub_diag. simpl.
      replace (occupiedCell rest (0 - 1)) with (@None Z) by reflexivity.
      destruct (cell =? 0); reflexivity.
    + replace (C - boardCol =? 0) with false by (symmetry; apply Z.eqb_neq; lia).
      reflexivity.
Qed.

Lemma matrixCell_cons (cells : list Z) (rest : list (list Z)) (i j : Z) :
  matrixCell (cells :: rest) i j =
  if i =? 0 then occupiedCell cells j else matrixCell rest (i - 1) j.
Proof.
  unfold matrixCell.
  destruct (Z.eqb_spec i 0) as [->|Hne]; [reflexivity|].
  destruct (0 <=? i) eqn:Hi.
  - apply Z.leb_le in Hi.
    replace (0 <=? i - 1) with true by (symmetry; apply Z.leb_le; lia).
    replace (Z.to_nat i) with (S (Z.to_nat (i - 1))) by lia. reflexivity.
  - apply Z.leb_gt in Hi.
    replace (0 <=? i - 1) with false by (symmetry; apply Z.leb_gt; lia). reflexivity.
Qed.

Lemma lockRows_spec (rows : list (list Z)) (r0 : nat) (pos : Position) (b : BoardMatrix) :
  board_ok b ->
  exists b', lockRows rows r0 pos b = Ok b' /\ board_ok b' /\
    forall R C, cellAt b' R C =
      overwritten (cellAt b R C)
        (matrixCell rows (R - (row pos + Z.of_nat r0)) (C - col pos)).
Proof.
  revert r0 b. induction rows as [|cells rest IH]; intros r0 b Hok.
  - exists b. split; [reflexivity|]. split; [assumption|].
    intros R C. unfold matrixCell. rewrite lookup_nil.
    destruct (cellAt b R C); simpl; [|reflexivity].
    destruct (0 <=? _); reflexivity.
  - simpl.
    destruct (lockRow_spec cells r0 0 pos b Hok) as (b1 & Hb1 & Hok1 & Hcells1).
    rewrite Hb1. simpl.
    destruct (IH (S r0) b1 Hok1) as (b2 & Hb2 & Hok2 & Hcells2).
    exists b2. split; [assumption|]. split; [assumption|].
    intros R C. rewrite Hcells2, Hcells1, matrixCell_cons.
    replace (R - (row pos + Z.of_nat (S r0))) with (R - (row pos + Z.of_nat r0) - 1) by lia.
    replace (C - (col pos + Z.of_nat 0%nat)) with (C - col pos) by lia.
    destruct (cellAt b R C) as [old|]; simpl; [|reflexivity].
    destruct (Z.eqb_spec R (row pos + Z.of_nat r0)) as [->|Hne].
    + rewrite Z.sub_diag. simpl.
      replace (matrixCell rest (0 - 1) (C - col pos)) with (@None Z) by reflexivity.
      reflexivity.
    + replace (R - (row pos + Z.of_nat r0) =? 0) with false
        by (symmetry; apply Z.eqb_neq; lia).
      reflexivity.
Qed.

(** C10. Locking any piece at any position into a board of the data model
    raises no error and gives a board of 20 rows of 10 cells; a cell of the
    result holds the occupied cell of the piece that projects onto it, if
    there is one, and what it held before otherwise. Occupied cells that
    project outside rows [0, 20) or columns [0, 10) are written nowhere. *)
Theorem settle_writes_on_board_only (b : BoardMatrix) (pieceToLock : ActivePiece)
    (m : list (list Z)) :
  matrices pieceToLock !! rotation pieceToLock = Some m ->
  board_ok b ->
  exists newBoard,
    settle b pieceToLock = Ok newBoard /\
    board_ok newBoard /\
    (forall R C, 0 <= R < BOARD_HEIGHT -> 0 <= C < BOARD_WIDTH ->
       exists old, cellAt b R C = Some old /\
         cellAt newBoard R C = Some (default old (pieceCell m (position pieceToLock) R C))) /\
    (forall R C, ~ (0 <= R < BOARD_HEIGHT /\ 0 <= C < BOARD_WIDTH) ->
       cellAt newBoard R C = None).
Proof.
  intros Hm Hok. unfold settle. rewrite Hm. simpl.
  destruct (lockRows_spec m 0 (position pieceToLock) b Hok) as (b' & Hb' & Hok' & Hcells).
  exists b'. split; [assumption|]. split; [assumption|]. split.
  - intros R C HR HC.
    destruct (board_ok_cell b R C Hok HR HC) as (line & old & _ & _ & Hat).
    exists old. split; [assumption|].
    rewrite Hcells, Hat. unfold pieceCell. simpl.
    replace (R - (row (position pieceToLock) + Z.of_nat 0%nat))
      with (R - row (position pieceToLock)) by lia.
    reflexivity.
  - intros R C Hoff. apply cellAt_None_off; assumption.
Qed.

Lemma settle_writes_on_board_only_witness :
  exists newBoard,
    settle createEmptyBoard
      {| shape := O_SHAPE; position := {| row := -1; col := 9 |};
         rotation := 2; matrices := getRotations (matrix O_SHAPE) |} = Ok newBoard /\
    board_ok newBoard /\
    cellAt newBoard 0 9 = Some 4 /\ cellAt newBoard 0 8 = Some 0.
Proof.
  destruct (settle_writes_on_board_only createEmptyBoard
              {| shape := O_SHAPE; position := {| row := -1; col := 9 |};
                 rotation := 2; matrices := getRotations (matrix O_SHAPE) |}
              (matrix O_SHAPE))
    as (newBoard & Hrun & Hok & Hon & _).
  - reflexivity.
  - split; [reflexivity | repeat constructor].
  - exists newBoard. split; [assumption|]. split; [assumption|].
    split.
    + destruct (Hon 0 9) as (old & Hold & Hnew); [unfold BOARD_HEIGHT; lia|unfold BOARD_WIDTH; lia|].
      vm_compute in Hold. injection Hold as <-. exact Hnew.
    + destruct (Hon 0 8) as (old & Hold & Hnew); [unfold BOARD_HEIGHT; lia|unfold BOARD_WIDTH; lia|].
      vm_compute in Hold. injection Hold as <-. exact Hnew.
Defined.

(** ** The session: what the helpers of lockPiece leave alone *)

Lemma spawnNewPiece_ok (k : nat) :
  (k < length TETROMINOES)%nat ->
  exists p, spawnNewPiece k = Ok p /\ is_Some (matrices p !! rotation p).
Proof.
  intros Hk.
  do 7 (destruct k as [|k]; [eexists; split; [reflexivity|vm_compute; eauto]|]).
  simpl in Hk. lia.
Qed.

Lemma takeNextPiece_inv (preview : option ActivePiece) (k1 k2 : nat) (g : Game)
    (p : ActivePiece) (g' : Game) :
  takeNextPiece preview k1 k2 g = Ok (p, g') ->
  exists fresh, g' = setNextPiecePreview (Some fresh) g.
Proof.
  unfold takeNextPiece. intros H.
  destruct preview as [q|].
  - destruct (spawnNewPiece k1) as [fresh| |]; simpl in H; try discriminate.
    injection H as _ <-. eauto.
  - destruct (spawnNewPiece k1) as [q| |]; simpl in H; try discriminate.
    destruct (spawnNewPiece k2) as [fresh| |]; simpl in H; try discriminate.
    injection H as _ <-. eauto.
Qed.

Lemma takeNextPiece_ok (preview : option ActivePiece) (k1 k2 : nat) (g : Game) :
  (k1 < length TETROMINOES)%nat -> (k2 < length TETROMINOES)%nat ->
  (forall q, preview = Some q -> is_Some (matrices q !! rotation q)) ->
  exists p g', takeNextPiece preview k1 k2 g = Ok (p, g') /\
               is_Some (matrices p !! rotation p).
Proof.
  intros Hk1 Hk2 Hpre. unfold takeNextPiece.
  destruct (spawnNewPiece_ok k1 Hk1) as (p1 & Hp1 & Hm1).
  destruct (spawnNewPiece_ok k2 Hk2) as (p2 & Hp2 & Hm2).
  destruct preview as [q|]; rewrite Hp1; simpl.
  - eauto.
  - rewrite Hp2. simpl. eauto.
Qed.

Lemma placeNextPiece_inv (p : ActivePiece) (b : BoardMatrix) (g : Game)
    (onCollision : Game -> Game) (g' : Game) :
  placeNextPiece p b g onCollision = Ok g' ->
  g' = onCollision (onGameOver g) \/ g' = setCurrentPiece (Some p) g.
Proof.
  unfold placeNextPiece. intros H.
  destruct (checkCollision p (position p) b) as [hit| |]; simpl in H; try discriminate.
  injection H as <-. destruct hit; auto.
Qed.

Lemma placeNextPiece_ok (p : ActivePiece) (b : BoardMatrix) (g : Game)
    (onCollision : Game -> Game) :
  is_Some (matrices p !! rotation p) ->
  exists g', placeNextPiece p b g onCollision = Ok g'.
Proof.
  intros [m Hm]. unfold placeNextPiece, checkCollision. rewrite Hm. simpl. eauto.
Qed.

Lemma sortDescending_length (l : list nat) : length (sortDescending l) = length l.
Proof.
  assert (forall x l', length (insertDescending x l') = S (length l')) as Hins.
  { intros x l'. induction l' as [|y l' IH]; simpl; [reflexivity|].
    destruct (y <=? x)%nat; simpl; congruence. }
  induction l as [|x l IH]; simpl; [reflexivity|].
  rewrite Hins. congruence.
Qed.

Lemma clearRows_count (b : BoardMatrix) (l : list nat) :
  snd (clearRows b l) = Z.of_nat (length l).
Proof.
  unfold clearRows.
  assert (forall acc n, snd (foldl (fun '(acc, n) rowIndex => (spliceUnshift acc rowIndex, n + 1))
                               (acc, n) l) = n + Z.of_nat (length l)) as Hgen.
  { induction l as [|x l IH]; intros acc n; simpl; [lia|]. rewrite IH. lia. }
  rewrite Hgen. lia.
Qed.

(** The counters after the callback of the clear animation. *)
Lemma lineClearEffect_counters (cl : ClearClosure) (k1 k2 : nat) (g g2 : Game) :
  lineClearEffect cl k1 k2 g = Ok g2 ->
  let scored := applyScoring (Z.of_nat (length (clearingRows g))) cl g in
  score g2 = score scored /\ linesCleared g2 = linesCleared scored /\
  level g2 = level scored /\ fallInterval g2 = fallInterval scored /\
  board g2 = fst (clearRows (board g) (sortDescending (clearingRows g))).
Proof.
  unfold lineClearEffect. intros H.
  pose proof (clearRows_count (board g) (sortDescending (clearingRows g))) as Hn.
  rewrite sortDescending_length in Hn.
  destruct (clearRows (board g) (sortDescending (clearingRows g))) as [b' n].
  simpl in Hn. subst n.
  set (scoredB := applyScoring _ cl (setBoard b' g)) in H.
  assert (score scoredB = score (applyScoring (Z.of_nat (length (clearingRows g))) cl g)
          /\ linesCleared scoredB = linesCleared (applyScoring (Z.of_nat (length (clearingRows g))) cl g)
          /\ level scoredB = level (applyScoring (Z.of_nat (length (clearingRows g))) cl g)
          /\ fallInterval scoredB = fallInterval (applyScoring (Z.of_nat (length (clearingRows g))) cl g)
          /\ board scoredB = b') as (Hs & Hl & Hv & Hf & Hb).
  { unfold scoredB, applyScoring.
    destruct (0 <? _); [destruct (closedLevel cl <? _)|]; repeat split. }
  destruct (takeNextPiece (closedNextPiecePreview cl) k1 k2 scoredB) as [[p g3]| |] eqn:Htake;
    simpl in H; try discriminate.
  apply takeNextPiece_inv in Htake as [fresh ->].
  destruct (placeNextPiece p b' _ _) as [g4| |] eqn:Hplace; simpl in H; try discriminate.
  injection H as <-.
  apply placeNextPiece_inv in Hplace as [-> | ->]; simpl; auto.
Qed.

Lemma lineClearEffect_ok (cl : ClearClosure) (k1 k2 : nat) (g : Game) :
  (k1 < length TETROMINOES)%nat -> (k2 < length TETROMINOES)%nat ->
  (forall q, closedNextPiecePreview cl = Some q -> is_Some (matrices q !! rotation q)) ->
  exists g2, lineClearEffect cl k1 k2 g = Ok g2.
Proof.
  intros Hk1 Hk2 Hpre. unfold lineClearEffect.
  destruct (clearRows (board g) (sortDescending (clearingRows g))) as [b' n].
  destruct (takeNextPiece_ok (closedNextPiecePreview cl) k1 k2
              (applyScoring n cl (setBoard b' g)) Hk1 Hk2 Hpre) as (p & g3 & Htake & Hp).
  rewrite Htake. simpl.
  destruct (placeNextPiece_ok p b' g3 (fun g0 => g0) Hp) as [g4 Hplace].
  rewrite Hplace. simpl. eauto.
Qed.

(** [lockPiece] raises the animation flag only on its line-clear branch. *)
Lemma lockPiece_enters_clearing (p : ActivePiece) (k1 k2 : nat) (g g1 : Game) :
  isLineClearingAnimationActive g = false ->
  lockPiece (Some p) k1 k2 g = Ok g1 ->
  isLineClearingAnimationActive g1 = true ->
  exists newBoard,
    settle (board g) p = Ok newBoard /\
    linesToClear newBoard = Ok (clearingRows g1) /\
    clearingRows g1 <> [] /\
    board g1 = newBoard /\
    currentPiece g1 = None /\
    score g1 = score g /\ linesCleared g1 = linesCleared g /\ level g1 = level g /\
    fallInterval g1 = fallInterval g /\
    lineClearEffectTimeout g1 =
      Some {| closedLinesCleared := linesCleared g; closedLevel := level g;
              closedNextPiecePreview := nextPiecePreview g |}.
Proof.
  intros Hidle Hlock Hflag. unfold lockPiece in Hlock. rewrite Hidle in Hlock.
  destruct (settle (board g) p) as [newBoard| |] eqn:Hsettle; simpl in Hlock;
    try discriminate.
  destruct (deref (matrices p !! rotation p)) as [lockedMatrix| |]; simpl in Hlock;
    try discriminate.
  destruct (occupiedAbove lockedMatrix (row (position p))).
  { injection Hlock as <-. simpl in Hflag. discriminate. }
  destruct (linesToClear newBoard) as [lines| |] eqn:Hlines; simpl in Hlock;
    try discriminate.
  destruct lines as [|r lines].
  - destruct (takeNextPiece _ k1 k2 _) as [[q g2]| |] eqn:Htake; simpl in Hlock;
      try discriminate.
    apply takeNextPiece_inv in Htake as [fresh ->].
    destruct (placeNextPiece _ _ _ _) as [g3| |] eqn:Hplace; simpl in Hlock; try discriminate.
    injection Hlock as <-.
    apply placeNextPiece_inv in Hplace as [-> | ->]; simpl in Hflag; congruence.
  - injection Hlock as <-. exists newBoard. simpl.
    split; [reflexivity|]. split; [assumption|]. split; [discriminate|].
    repeat split.
Qed.

(** ** Scoring and leveling *)

Lemma applyScoring_counters (n : Z) (cl : ClearClosure) (g : Game) :
  0 < n ->
  let newLevel := (closedLinesCleared cl + n) / LINES_PER_LEVEL + 1 in
  score (applyScoring n cl g) = score g + n * 100 * n * closedLevel cl /\
  linesCleared (applyScoring n cl g) = closedLinesCleared cl + n /\
  level (applyScoring n cl g) = (if closedLevel cl <? newLevel then newLevel else level g) /\
  fallInterval (applyScoring n cl g) =
    (if closedLevel cl <? newLevel
     then Z.max 100 (INITIAL_FALL_INTERVAL - (newLevel - 1) * LEVEL_INTERVAL_DECREMENT)
     else fallInterval g).
Proof.
  intros Hn. unfold applyScoring.
  replace (0 <? n) with true by (symmetry; apply Z.ltb_lt; assumption).
  destruct (closedLevel cl <? _); simpl; auto.
Qed.

(** The two steps of a turn that clears lines: the lock that raises the
    animation flag, then the callback of the animation timer. *)
Lemma clearing_turn (p : ActivePiece) (k1 k2 k3 k4 : nat) (g g1 : Game) :
  isLineClearingAnimationActive g = false ->
  lockPiece (Some p) k1 k2 g = Ok g1 ->
  isLineClearingAnimationActive g1 = true ->
  (k3 < length TETROMINOES)%nat -> (k4 < length TETROMINOES)%nat ->
  (forall q, nextPiecePreview g = Some q -> is_Some (matrices q !! rotation q)) ->
  let n := Z.of_nat (length (clearingRows g1)) in
  let cl := {| closedLinesCleared := linesCleared g; closedLevel := level g;
               closedNextPiecePreview := nextPiecePreview g |} in
  0 < n /\
  exists g2, fireLineClear k3 k4 g1 = Ok g2 /\
    score g2 = score (applyScoring n cl g1) /\
    linesCleared g2 = linesCleared (applyScoring n cl g1) /\
    level g2 = level (applyScoring n cl g1) /\
    fallInterval g2 = fallInterval (applyScoring n cl g1) /\
    board g2 = fst (clearRows (board g1) (sortDescending (clearingRows g1))).
Proof.
  intros Hidle Hlock Hflag Hk3 Hk4 Hpre n cl.
  destruct (lockPiece_enters_clearing p k1 k2 g g1 Hidle Hlock Hflag)
    as (newBoard & _ & _ & Hrows & _ & _ & _ & _ & _ & _ & Htimer).
  split.
  { unfold n. destruct (clearingRows g1); [congruence|simpl; lia]. }
  unfold fireLineClear. rewrite Htimer. fold cl.
  destruct (lineClearEffect_ok cl k3 k4 (setLineClearEffectTimeout None g1) Hk3 Hk4 Hpre)
    as [g2 Hrun].
  exists g2. split; [assumption|].
  apply lineClearEffect_counters in Hrun. simpl in Hrun.
  destruct Hrun as (Hs & Hl & Hv & Hf & Hb). fold n in Hs, Hl, Hv, Hf.
  unfold applyScoring in *.
  destruct (0 <? n); [destruct (closedLevel cl <? _)|]; simpl in *; auto.
Qed.

(** The turn left alone: from the lock that starts the animation to the
    callback of its timer, with nothing in between. Clearing n > 0 lines at
    level L, it adds n * 100 * n * L to the score and n to the line
    counter. *)
Lemma clear_adds_quadratic_score (p : ActivePiece) (k1 k2 k3 k4 : nat) (g g1 : Game) :
  isLineClearingAnimationActive g = false ->
  lockPiece (Some p) k1 k2 g = Ok g1 ->
  isLineClearingAnimationActive g1 = true ->
  (k3 < length TETROMINOES)%nat -> (k4 < length TETROMINOES)%nat ->
  (forall q, nextPiecePreview g = Some q -> is_Some (matrices q !! rotation q)) ->
  let n := Z.of_nat (length (clearingRows g1)) in
  0 < n /\
  exists g2, fireLineClear k3 k4 g1 = Ok g2 /\
    score g2 = score g + n * 100 * n * level g /\
    linesCleared g2 = linesCleared g + n.
Proof.
  intros Hidle Hlock Hflag Hk3 Hk4 Hpre n.
  destruct (clearing_turn p k1 k2 k3 k4 g g1 Hidle Hlock Hflag Hk3 Hk4 Hpre)
    as (Hn & g2 & Hrun & Hs & Hl & _).
  fold n in Hn, Hs, Hl.
  destruct (lockPiece_enters_clearing p k1 k2 g g1 Hidle Hlock Hflag)
    as (_ & _ & _ & _ & _ & _ & Hscore & _).
  split; [assumption|]. exists g2. split; [assumption|].
  destruct (applyScoring_counters n
              {| closedLinesCleared := linesCleared g; closedLevel := level g;
                 closedNextPiecePreview := nextPiecePreview g |} g1 Hn)
    as (Hs' & Hl' & _).
  simpl in Hs', Hl'. rewrite Hs, Hs', Hl, Hl', Hscore. split; reflexivity.
Qed.

Lemma clear_adds_quadratic_score_witness :
  exists g2, fireLineClear 2 3 sampleLocked = Ok g2 /\
    score g2 = 500 + 1200 /\ linesCleared g2 = 29 + 2.
Proof.
  destruct (clear_adds_quadratic_score (pieceOf O_SHAPE 0 18 0) 0 1 2 3
              sampleSession sampleLocked)
    as (_ & g2 & Hrun & Hscore & Hlines).
  - reflexivity.
  - vm_compute. reflexivity.
  - vm_compute. reflexivity.
  - simpl. lia.
  - simpl. lia.
  - intros q Hq. vm_compute in Hq. discriminate.
  - exists g2. split; [assumption|]. split; [exact Hscore | exact Hlines].
Defined.

Lemma crosses_multiple_iff (before after : Z) :
  0 <= before -> before <= after ->
  before / LINES_PER_LEVEL + 1 < after / LINES_PER_LEVEL + 1 <->
  exists k, before < LINES_PER_LEVEL * k <= after.
Proof.
  unfold LINES_PER_LEVEL. intros H0 Hle.
  pose proof (Z.div_mod before 10 ltac:(lia)) as Hb.
  pose proof (Z.mod_pos_bound before 10 ltac:(lia)) as Hbm.
  pose proof (Z.div_mod after 10 ltac:(lia)) as Ha.
  pose proof (Z.mod_pos_bound after 10 ltac:(lia)) as Ham.
  split.
  - intros Hlt. exists (after / 10). lia.
  - intros (k & Hk1 & Hk2). lia.
Qed.

(** The turn left alone, again. After it the level is the larger of the old
    level and floor(totalLines / 10) + 1. The fall interval changes only
    when the level is raised, to max(100, 1000 - (k - 1) * 50) for the new
    level k; an interval that had this value for the old level has it for
    the new one, and it stays at or above 100. If the level was in step with
    the line counter before the turn, it is raised exactly when the counter
    gets to a multiple of 10 or, several lines being cleared at once, past
    it, and it is in step after the turn. *)
Lemma level_follows_total_lines (p : ActivePiece) (k1 k2 k3 k4 : nat) (g g1 : Game) :
  isLineClearingAnimationActive g = false ->
  lockPiece (Some p) k1 k2 g = Ok g1 ->
  isLineClearingAnimationActive g1 = true ->
  (k3 < length TETROMINOES)%nat -> (k4 < length TETROMINOES)%nat ->
  (forall q, nextPiecePreview g = Some q -> is_Some (matrices q !! rotation q)) ->
  exists g2, fireLineClear k3 k4 g1 = Ok g2 /\
    level g2 = Z.max (level g) (linesCleared g2 / LINES_PER_LEVEL + 1) /\
    (level g < level g2 ->
       fallInterval g2 =
         Z.max 100 (INITIAL_FALL_INTERVAL - (level g2 - 1) * LEVEL_INTERVAL_DECREMENT)) /\
    (level g2 = level g -> fallInterval g2 = fallInterval g) /\
    (fallInterval g =
       Z.max 100 (INITIAL_FALL_INTERVAL - (level g - 1) * LEVEL_INTERVAL_DECREMENT) ->
     fallInterval g2 =
       Z.max 100 (INITIAL_FALL_INTERVAL - (level g2 - 1) * LEVEL_INTERVAL_DECREMENT)) /\
    (100 <= fallInterval g -> 100 <= fallInterval g2) /\
    (0 <= linesCleared g -> level g = linesCleared g / LINES_PER_LEVEL + 1 ->
       level g2 = linesCleared g2 / LINES_PER_LEVEL + 1 /\
       (level g < level g2 <->
        exists k, linesCleared g < LINES_PER_LEVEL * k <= linesCleared g2)).
Proof.
  intros Hidle Hlock Hflag Hk3 Hk4 Hpre.
  destruct (clearing_turn p k1 k2 k3 k4 g g1 Hidle Hlock Hflag Hk3 Hk4 Hpre)
    as (Hn & g2 & Hrun & _ & Hl & Hv & Hf & _).
  destruct (lockPiece_enters_clearing p k1 k2 g g1 Hidle Hlock Hflag)
    as (_ & _ & _ & _ & _ & _ & _ & _ & Hlevel1 & Hfall1 & _).
  set (n := Z.of_nat (length (clearingRows g1))) in *.
  destruct (applyScoring_counters n
              {| closedLinesCleared := linesCleared g; closedLevel := level g;
                 closedNextPiecePreview := nextPiecePreview g |} g1 Hn)
    as (_ & Hl' & Hv' & Hf').
  simpl in Hl', Hv', Hf'.
  rewrite Hl' in Hl. rewrite Hv', Hlevel1 in Hv. rewrite Hf', Hfall1 in Hf.
  exists g2. split; [assumption|].
  rewrite Hl.
  destruct (Z.ltb_spec (level g) ((linesCleared g + n) / LINES_PER_LEVEL + 1)) as [Hup|Hsame].
  - repeat split.
    + lia.
    + intros _. rewrite Hf, Hv. reflexivity.
    + intros Heq. lia.
    + intros _. rewrite Hf, Hv. reflexivity.
    + intros _. rewrite Hf. lia.
    + lia.
    + intros _. apply crosses_multiple_iff; lia.
    + intros _. lia.
  - repeat split.
    + lia.
    + intros Hlt. lia.
    + intros _. assumption.
    + intros Hinv. rewrite Hf, Hv. assumption.
    + intros. lia.
    + pose proof (Z.div_le_mono (linesCleared g) (linesCleared g + n) LINES_PER_LEVEL
                    ltac:(reflexivity) ltac:(lia)). lia.
    + intros Hlt. lia.
    + intros Hex. apply crosses_multiple_iff in Hex; lia.
Qed.

Lemma level_follows_total_lines_witness :
  exists g2, fireLineClear 2 3 sampleLocked = Ok g2 /\
    level g2 = Z.max 3 (linesCleared g2 / LINES_PER_LEVEL + 1) /\
    (3 < level g2 -> fallInterval g2 = Z.max 100 (1000 - (level g2 - 1) * 50)).
Proof.
  destruct (level_follows_total_lines (pieceOf O_SHAPE 0 18 0) 0 1 2 3
              sampleSession sampleLocked)
    as (g2 & Hrun & Hlevel & Hfall & _).
  - reflexivity.
  - vm_compute. reflexivity.
  - vm_compute. reflexivity.
  - simpl. lia.
  - simpl. lia.
  - intros q Hq. vm_compute in Hq. discriminate.
  - exists g2. split; [assumption|]. split; [exact Hlevel | exact Hfall].
Defined.

(** C6. The claim holds for the turn left alone and fails when the game is
    restarted while the line clear is pending. The game: five rounds of two
    lines bring the session to 1000 points, 10 lines and level 2; in the
    sixth round the O piece completes row 19 and the animation starts, its
    callback holding the 10 lines and the level 2 of that render. Left
    alone, the callback adds 1 * 100 * 1 * 2 to the score and 1 to the
    lines. The restart button, pressed during the animation, sets the
    counters to 0 points, 0 lines and level 1 and leaves the timer armed.
    Its callback then clears the one row at level 1: it adds 200 to the
    score where the claim has 1 * 100 * 1 * 1, and sets the line counter to
    11 where the claim has 0 + 1. The same on the two-line clear at level 3
    with 29 lines: restarted during the animation, the session goes from 0
    points, 0 lines and level 1 to 1200 points, 31 lines and level 4. *)
Theorem restart_during_clear_scores_with_old_counters :
  thenAll (tenLines ++ [pressAll fillRowOne]) (newGame 0 0) = Ok roundSixLocked /\
  counters roundSixLocked = (1000, 10, 2) /\
  clearingRows roundSixLocked = [19%nat] /\
  isLineClearingAnimationActive roundSixLocked = true /\
  closedCounters roundSixLocked = Some (10, 2) /\
  clearTimer 0 0 roundSixLocked = Ok roundSixLeftAlone /\
  counters roundSixLeftAlone = (1000 + 1 * 100 * 1 * 2, 10 + 1, 2) /\
  restartGame 0 0 roundSixLocked = Ok roundSixRestarted /\
  counters roundSixRestarted = (0, 0, 1) /\
  gameState roundSixRestarted = Playing /\
  clearingRows roundSixRestarted = [19%nat] /\
  closedCounters roundSixRestarted = Some (10, 2) /\
  clearTimer 0 0 roundSixRestarted = Ok roundSixCleared /\
  counters roundSixCleared = (200, 11, 1) /\
  score roundSixCleared <>
    score roundSixRestarted + 1 * 100 * 1 * level roundSixRestarted /\
  linesCleared roundSixCleared <> linesCleared roundSixRestarted + 1 /\
  lockPiece (currentPiece sampleSession) 0 1 sampleSession = Ok sampleLocked /\
  counters sampleLocked = (500, 29, 3) /\
  clearingRows sampleLocked = [19%nat; 18%nat] /\
  (counters <$> restartGame 0 1 sampleLocked) = Ok (0, 0, 1) /\
  (counters <$> thenAll [restartGame 0 1; clearTimer 2 3] (Ok sampleLocked))
    = Ok (1200, 31, 4).
Proof.
  repeat match goal with |- _ /\ _ => split end;
    lazymatch goal with
    | |- _ <> _ => vm_compute; discriminate
    | |- _ => vm_compute; reflexivity
    end.
Qed.

(** C7. The claim holds for the turn left alone and fails when the game is
    restarted while the line clear is pending. After the five rounds of
    [tenLines] the session has 10 lines, level 2 and the fall interval 950
    when the O piece of the sixth round completes row 19. Left alone, the callback leaves it at 11 lines, level
    2 and 950. After the restart button the session has 0 lines and level 1
    and still the interval 950, not the 1000 of level 1. The callback then
    sets the line counter to 11 and compares floor(11 / 10) + 1 = 2 with the
    level 2 it closed over: the level stays at 1, below floor(totalLines /
    10) + 1, and the interval at 950. The next line brings the counter from
    11 to 12, and this turn raises the level from 1 to 2 though the counter
    reaches no multiple of 10. The same with 25 lines at level 3 and the
    two-line clear: restarted during the animation, the session ends at 27
    lines, level 1 and the interval 900, and the turn after it, which brings
    the counter to 28, raises the level to 3. *)
Theorem restart_during_clear_leaves_level_behind :
  thenAll (tenLines ++ [pressAll fillRowOne]) (newGame 0 0) = Ok roundSixLocked /\
  pace roundSixLocked = (10, 2, 950) /\
  closedCounters roundSixLocked = Some (10, 2) /\
  clearTimer 0 0 roundSixLocked = Ok roundSixLeftAlone /\
  pace roundSixLeftAlone = (11, 11 / LINES_PER_LEVEL + 1, 950) /\
  restartGame 0 0 roundSixLocked = Ok roundSixRestarted /\
  pace roundSixRestarted = (0, 1, 950) /\
  fallInterval roundSixRestarted <>
    Z.max 100 (INITIAL_FALL_INTERVAL
               - (level roundSixRestarted - 1) * LEVEL_INTERVAL_DECREMENT) /\
  clearTimer 0 0 roundSixRestarted = Ok roundSixCleared /\
  pace roundSixCleared = (11, 1, 950) /\
  level roundSixCleared < linesCleared roundSixCleared / LINES_PER_LEVEL + 1 /\
  fallInterval roundSixCleared <>
    Z.max 100 (INITIAL_FALL_INTERVAL
               - (level roundSixCleared - 1) * LEVEL_INTERVAL_DECREMENT) /\
  thenAll [pressAll fillRowTwo; clearTimer 0 0] (Ok roundSixCleared)
    = Ok roundSixNextLine /\
  pace roundSixNextLine = (12, 2, 950) /\
  level roundSixCleared < level roundSixNextLine /\
  ~ (exists k, linesCleared roundSixCleared < LINES_PER_LEVEL * k
               <= linesCleared roundSixNextLine) /\
  pace lateSession = (25, 3, 900) /\
  (pace <$> thenAll [restartGame 0 1; clearTimer 2 3]
              (lockPiece (currentPiece lateSession) 0 1 lateSession))
    = Ok (27, 1, 900) /\
  (pace <$> thenAll [restartGame 0 1; clearTimer 2 3; pressAll (placing [Space] 0);
                     clearTimer 0 0]
              (lockPiece (currentPiece lateSession) 0 1 lateSession))
    = Ok (28, 3, 900).
Proof.
  assert (linesCleared roundSixCleared = 11) as Hbefore by (vm_compute; reflexivity).
  assert (linesCleared roundSixNextLine = 12) as Hafter by (vm_compute; reflexivity).
  repeat match goal with |- _ /\ _ => split end;
    lazymatch goal with
    | |- ~ (exists _, _) =>
        intros [k Hk]; rewrite Hbefore, Hafter in Hk; unfold LINES_PER_LEVEL in Hk; lia
    | |- _ <> _ => vm_compute; discriminate
    | |- _ => vm_compute; reflexivity
    end.
Qed.

(** ** The think delay *)

Lemma thinkTime_positive (f : Z) :
  0 < f -> thinkTime f = Qmin (inject_Z f / 2) 200.
Proof.
  intros Hf. unfold thinkTime.
  replace (0 <? f) with true by (symmetry; apply Z.ltb_lt; assumption).
  reflexivity.
Qed.

Lemma half_le_200 (f : Z) : (inject_Z f / 2 <= 200)%Q <-> f <= 400.
Proof.
  unfold Qle, Qdiv, Qmult, Qinv, inject_Z. simpl. lia.
Qed.

(** The delay of the think timer is [thinkTime] of the fall interval at the
    moment the effect arms it. *)
Lemma aiEffect_delay (g g' : Game) (d : Q) :
  aiEffect g = (g', Some d) ->
  d = thinkTime (fallInterval g) /\ aiThinkTimeout g' = true /\
  aiActionInProgress g' = true /\ sameBoardPieceCounters g g'.
Proof.
  unfold aiEffect. intros H.
  destruct (isLineClearingAnimationActive g); [discriminate|].
  destruct (isAiActive g && isPlaying g && bool_decide (is_Some (currentPiece g))
            && negb (aiActionInProgress g)); [|discriminate].
  injection H as <- <-. repeat split.
Qed.

(** C8, as the code has it. For a fall interval f > 0 the think delay is
    min(f / 2, 200): half of f up to f = 400 and 200 from there on. It is
    positive and at most 200, and there is no lower bound of 100: the value
    100 is what the code takes when f <= 0. For the fall intervals the
    session can have, 100 to 1000, the delay lies between 50 and 200. *)
Theorem thinkTime_is_capped_half (f : Z) :
  0 < f ->
  (f <= 400 -> (thinkTime f == inject_Z f / 2)%Q) /\
  (400 <= f -> (thinkTime f == 200)%Q) /\
  (0 < thinkTime f)%Q /\ (thinkTime f <= 200)%Q /\
  (100 <= f -> (50 <= thinkTime f)%Q).
Proof.
  intros Hf. rewrite thinkTime_positive by assumption.
  split; [|split; [|split; [|split]]].
  - intros Hle. apply Q.min_l. apply half_le_200. assumption.
  - intros Hge. apply Q.min_r. unfold Qle, Qdiv, Qmult, Qinv, inject_Z. simpl. lia.
  - apply Q.min_glb_lt; [|reflexivity].
    unfold Qlt, Qdiv, Qmult, Qinv, inject_Z. simpl. lia.
  - apply Q.le_min_r.
  - intros H100. apply Q.min_glb; [|discriminate].
    unfold Qle, Qdiv, Qmult, Qinv, inject_Z. simpl. lia.
Qed.

Lemma thinkTime_is_capped_half_witness :
  (thinkTime 150 == inject_Z 150 / 2)%Q /\ (thinkTime 150 <= 200)%Q.
Proof.
  destruct (thinkTime_is_capped_half 150) as (Hhalf & _ & _ & Hcap & _).
  - lia.
  - split; [apply Hhalf; lia | exact Hcap].
Defined.

(** C8, as stated, fails at the fall interval of level 19 and above: the
    delay is 50, below the claimed minimum of 100. *)
Lemma thinkTime_below_100 :
  0 < 100 /\ 100 = Z.max 100 (INITIAL_FALL_INTERVAL - (19 - 1) * LEVEL_INTERVAL_DECREMENT) /\
  (thinkTime 100 == 50)%Q /\ ~ (100 <= thinkTime 100)%Q.
Proof.
  split; [lia|]. split; [reflexivity|]. split; [reflexivity|].
  intros H. vm_compute in H. apply H. reflexivity.
Qed.

(** ** The animation flag as a gate *)

Lemma actingPiece_clearing (g : Game) :
  isLineClearingAnimationActive g = true -> actingPiece g = None.
Proof.
  intros Hflag. unfold actingPiece. rewrite Hflag.
  destruct (currentPiece g); [|reflexivity].
  rewrite andb_false_r. reflexivity.
Qed.

Lemma sameBoardPieceCounters_refl (g : Game) : sameBoardPieceCounters g g.
Proof. repeat split. Qed.

(** C9. While the animation flag is set, a gravity tick, every key command
    (move, soft drop, rotate, hard drop), each of the movement operations
    called directly, [lockPiece], a step of the AI driver, the think
    callback and the AI effect all return, and leave the board, the active
    piece and the session counters as they were. Only the callback of the
    animation timer ([fireLineClear]) is not gated by the flag. *)
Theorem clearing_gates_every_command (g : Game) (due : bool) (key : Key)
    (dRow dCol : Z) (pieceToLock : option ActivePiece) (k1 k2 : nat) :
  isLineClearingAnimationActive g = true ->
  gravityTick due k1 k2 g = Ok g /\
  handleKeyDown key k1 k2 g = Ok g /\
  movePiece dRow dCol g = Ok (false, g) /\
  moveDown k1 k2 g = Ok g /\
  rotatePiece g = Ok g /\
  hardDrop k1 k2 g = Ok g /\
  (exists g', lockPiece pieceToLock k1 k2 g = Ok g' /\ sameBoardPieceCounters g g') /\
  (exists g', executeAiStep k1 k2 g = Ok g' /\ sameBoardPieceCounters g g') /\
  (exists g', aiThink k1 k2 g = Ok g' /\ sameBoardPieceCounters g g') /\
  sameBoardPieceCounters g (fst (aiEffect g)).
Proof.
  intros Hflag.
  pose proof (actingPiece_clearing g Hflag) as Hact.
  repeat match goal with |- _ /\ _ => split end.
  - unfold gravityTick. rewrite Hflag, andb_false_r. reflexivity.
  - unfold handleKeyDown. rewrite Hflag. reflexivity.
  - unfold movePiece. rewrite Hact. reflexivity.
  - unfold moveDown. rewrite Hact. reflexivity.
  - unfold rotatePiece. rewrite Hact. reflexivity.
  - unfold hardDrop. rewrite Hact. reflexivity.
  - unfold lockPiece. destruct pieceToLock as [p|].
    + rewrite Hflag. exists g. split; [reflexivity|apply sameBoardPieceCounters_refl].
    + eexists. split; [reflexivity|]. repeat split.
  - unfold executeAiStep. simpl.
    destruct (currentPiece g) as [piece|]; [destruct (aiCurrentBestMove g) as [m|]|].
    + rewrite Hflag, orb_true_r. eexists. split; [reflexivity|]. repeat split.
    + eexists. split; [reflexivity|]. repeat split.
    + eexists. split; [reflexivity|]. repeat split.
  - unfold aiThink. simpl. destruct (currentPiece g) as [piece|].
    + rewrite Hflag, orb_true_r. eexists. split; [reflexivity|]. repeat split.
    + eexists. split; [reflexivity|]. repeat split.
  - unfold aiEffect. rewrite Hflag. repeat split.
Qed.

Lemma clearing_gates_every_command_witness :
  gravityTick true 0 1 sampleLocked = Ok sampleLocked /\
  handleKeyDown Space 0 1 sampleLocked = Ok sampleLocked /\
  exists g', executeAiStep 0 1 sampleLocked = Ok g' /\ board g' = board sampleLocked.
Proof.
  destruct (clearing_gates_every_command sampleLocked true Space 0 0 None 0 1)
    as (Htick & Hkey & _ & _ & _ & _ & _ & (g' & Hstep & Hsame & _) & _).
  - vm_compute. reflexivity.
  - split; [exact Htick|]. split; [exact Hkey|]. exists g'. split; assumption.
Defined.

(** ** The planner on the empty board *)

Lemma spawnedO_is_spawned : spawnNewPiece 3 = Ok spawnedO.
Proof. reflexivity. Qed.

(** C4, as the code has it. On the empty board the planner sends the O piece
    to the left wall: rotation 0, target column 0 (so the leftmost occupied
    column is 0), resting row 18, score -46. The columns are tried from 0 to
    8 and only a strictly higher score replaces the best move: column 0
    scores -46 (bumpiness 2), the centred column 4 scores -52 (bumpiness 4),
    column 8 ties with column 0 and comes later. *)
Theorem planner_O_on_empty_board :
  calculateBestMove spawnedO createEmptyBoard =
    Ok (Some {| targetRotation := 0; targetCol := 0;
                Move.score := Finite (-46); finalRow := 18 |}) /\
  leftmostOccupied [[4; 4]; [4; 4]] = Some 0 /\
  evaluateBoardState createEmptyBoard (withPosition spawnedO {| row := 18; col := 0 |}) 18
    = Ok (Finite (-46)) /\
  evaluateBoardState createEmptyBoard (withPosition spawnedO {| row := 18; col := 4 |}) 18
    = Ok (Finite (-52)) /\
  evaluateBoardState createEmptyBoard (withPosition spawnedO {| row := 18; col := 8 |}) 18
    = Ok (Finite (-46)).
Proof.
  repeat split; vm_compute; reflexivity.
Qed.

(** C4, as stated, fails: the move returned for the O piece on the empty
    board does not put the leftmost occupied column at 4. *)
Lemma planner_O_not_centred :
  exists move minC,
    calculateBestMove spawnedO createEmptyBoard = Ok (Some move) /\
    (matrices spawnedO !! targetRotation move) ≫= leftmostOccupied = Some minC /\
    targetCol move + minC <> 4 /\
    finalRow move = 18.
Proof.
  exists {| targetRotation := 0; targetCol := 0;
            Move.score := Finite (-46); finalRow := 18 |}, 0.
  split; [vm_compute; reflexivity|].
  split; [reflexivity|].
  split; [discriminate|reflexivity].
Qed.

(** ** Rotation: the driver and the manual command *)

Lemma firstFree_In (p : ActivePiece) (candidates : list Position) (b : BoardMatrix)
    (pos : Position) :
  firstFree p candidates b = Ok (Some pos) -> In pos candidates.
Proof.
  induction candidates as [|c rest IH]; simpl; [discriminate|].
  destruct (checkCollision p c b) as [hit| |]; simpl; try discriminate.
  destruct hit.
  - intros H. right. apply IH. assumption.
  - intros H. injection H as ->. left. reflexivity.
Qed.

Lemma firstFree_app (rp : ActivePiece) (l1 l2 : list Position) (b : BoardMatrix) :
  firstFree rp (l1 ++ l2) b =
  firstFree rp l1 b ≫= fun found =>
    match found with
    | Some pos => Ok (Some pos)
    | None => firstFree rp l2 b
    end.
Proof.
  induction l1 as [|pos rest IH]; cbn [app firstFree mbind outcome_bind]; [reflexivity|].
  destruct (checkCollision rp pos b) as [hit| |]; cbn [mbind outcome_bind]; try reflexivity.
  destruct hit; [exact IH|reflexivity].
Qed.

Lemma firstFree_None (rp : ActivePiece) (l : list Position) (b : BoardMatrix) :
  firstFree rp l b = Ok None <-> Forall (fun pos => blockedAt rp pos b) l.
Proof.
  induction l as [|pos rest IH]; cbn [firstFree].
  - split; [constructor|reflexivity].
  - unfold blockedAt at 1.
    destruct (checkCollision rp pos b) as [hit| |] eqn:Hhit; cbn [mbind outcome_bind].
    + destruct hit.
      * rewrite IH. split; intros Hall.
        -- constructor; assumption.
        -- inversion Hall. assumption.
      * split; [discriminate|]. intros Hall. inversion Hall as [|? ? Hb _].
        unfold blockedAt in Hb. congruence.
    + split; [discriminate|]. intros Hall. inversion Hall as [|? ? Hb _].
      unfold blockedAt in Hb. congruence.
    + split; [discriminate|]. intros Hall. inversion Hall as [|? ? Hb _].
      unfold blockedAt in Hb. congruence.
Qed.

(** [rotatePiece] searches the places of section 4.2. *)
Lemma rotated_as_search (p : ActivePiece) (b : BoardMatrix) :
  rotated p b = manualRotation p b.
Proof.
  unfold rotated, manualRotation, firstFit, manualPlaces. cbv zeta.
  fold (nextRotation p). set (rp := withRotation p (nextRotation p)).
  cbn [firstFree].
  destruct (checkCollision rp (position p) b) as [hit| |]; cbn [mbind outcome_bind];
    try reflexivity.
  destruct hit; [|reflexivity].
  rewrite firstFree_app.
  destruct (firstFree rp (horizontalKicks (position p)) b) as [side| |];
    cbn [mbind outcome_bind]; try reflexivity.
  destruct side as [pos|]; [reflexivity|].
  destruct (id (shape p) =? "I")%string, (row (position p) <=? 1); reflexivity.
Qed.

(** The driver searches its own places. *)
Lemma aiRotated_as_search (p : ActivePiece) (targetMove : AiMove) (b : BoardMatrix) :
  aiRotated p targetMove b =
  firstFit (withRotation p (targetRotation targetMove)) (driverPlaces p) b.
Proof.
  unfold aiRotated, firstFit, driverPlaces. cbv zeta.
  set (rp := withRotation p (targetRotation targetMove)).
  cbn [firstFree].
  destruct (checkCollision rp (position p) b) as [hit| |]; cbn [mbind outcome_bind];
    try reflexivity.
  destruct hit; [|reflexivity].
  rewrite firstFree_app.
  destruct (firstFree rp (horizontalKicks (position p)) b) as [side| |];
    cbn [mbind outcome_bind]; try reflexivity.
  destruct side as [pos|]; [reflexivity|].
  destruct (_ && (row (position p) <=? 1)); reflexivity.
Qed.

(** The two searches of the piece in its next rotation give the same result
    but where the tables of vertical kicks part. *)
Lemma kick_tables_compared (p : ActivePiece) (b : BoardMatrix) :
  let rp := withRotation p (nextRotation p) in
  (firstFit rp (driverPlaces p) b = firstFit rp (manualPlaces p) b <-> ~ kicksDiffer p b) /\
  (kicksDiffer p b -> In (id (shape p)) ["L"; "J"]%string ->
   firstFit rp (manualPlaces p) b = Ok None /\
   firstFit rp (driverPlaces p) b
     = Ok (Some (withPosition rp (shiftedBy (position p) (-2) 0)))) /\
  (kicksDiffer p b -> ~ In (id (shape p)) ["I"; "L"; "J"]%string ->
   firstFit rp (manualPlaces p) b
     = Ok (Some (withPosition rp (shiftedBy (position p) (-1) 0))) /\
   firstFit rp (driverPlaces p) b = Ok None).
Proof.
  intros rp. unfold firstFit, driverPlaces, manualPlaces.
  set (common := position p :: horizontalKicks (position p)).
  set (u1 := shiftedBy (position p) (-1) 0). set (u2 := shiftedBy (position p) (-2) 0).
  change (position p :: horizontalKicks (position p) ++ ?tail) with (common ++ tail).
  rewrite !firstFree_app.
  assert (kicksDiffer p b -> firstFree rp common b = Ok None) as Hblocked.
  { unfold kicksDiffer. intros (_ & Hall & _). apply firstFree_None. exact Hall. }
  destruct (firstFree rp common b) as [found| |] eqn:Hcommon; cbn [mbind outcome_bind].
  2,3: (split; [split; [intros _ Hk; apply Hblocked in Hk; discriminate|reflexivity]
               |split; intros Hk; apply Hblocked in Hk; discriminate]).
  destruct found as [pos|].
  { split; [split; [intros _ Hk; apply Hblocked in Hk; discriminate|reflexivity]
           |split; intros Hk; apply Hblocked in Hk; discriminate]. }
  clear Hblocked.
  pose proof Hcommon as Hall. apply firstFree_None in Hall.
  assert (exists m, forall pos, checkCollision rp pos b = Ok (collidesFromRow m 0 pos b))
    as [m Hcc].
  { inversion Hall as [|? ? Hplace _]. unfold blockedAt, checkCollision in Hplace.
    unfold checkCollision.
    destruct (matrices rp !! rotation rp) as [m|]; [|discriminate].
    exists m. reflexivity. }
  assert (kicksDiffer p b <->
          row (position p) <= 1 /\
          ((In (id (shape p)) ["L"; "J"]%string /\
            collidesFromRow m 0 u1 b = true /\ collidesFromRow m 0 u2 b = false) \/
           (~ In (id (shape p)) ["I"; "L"; "J"]%string /\
            collidesFromRow m 0 u1 b = false))) as Hk.
  { unfold kicksDiffer, blockedAt, fitsAt. cbv zeta. fold rp u1 u2. rewrite !Hcc. split.
    - intros (Hr & _ & [(Hid & H1 & H2) | (Hid & H1)]); (split; [exact Hr|]);
        [left|right]; repeat split; try assumption; congruence.
    - intros (Hr & [(Hid & H1 & H2) | (Hid & H1)]); (split; [exact Hr|]);
        (split; [exact Hall|]); [left|right]; repeat split; try assumption;
        f_equal; assumption. }
  rewrite Hk. clear Hk.
  destruct (Z.leb_spec (row (position p)) 1) as [Hrow|Hrow].
  2:{ rewrite andb_false_r. cbn [firstFree mbind outcome_bind fmap option_fmap option_map].
      split; [split; [intros _ (Hr & _); lia|reflexivity]|split; intros (Hr & _); lia]. }
  rewrite andb_true_r.
  destruct (String.eqb_spec (id (shape p)) "I") as [HI|HI].
  { cbn [orb].
    split; [split; [intros _|reflexivity]|split].
    - intros (_ & [[[HL | [HJ | []]] _] | [Hid _]]); try congruence.
      apply Hid. left. congruence.
    - intros _ [HL | [HJ | []]]; congruence.
    - intros _ Hid. exfalso. apply Hid. left. congruence. }
  cbn [orb].
  destruct ((id (shape p) =? "L") || (id (shape p) =? "J"))%string eqn:Hlj.
  - assert (In (id (shape p)) ["L"; "J"]%string) as Hin.
    { apply orb_true_iff in Hlj as [Hid | Hid]; apply String.eqb_eq in Hid; rewrite Hid;
        cbn; auto. }
    assert (In (id (shape p)) ["I"; "L"; "J"]%string) as Hin3 by (right; exact Hin).
    cbn [upKicks map firstFree]. fold u1 u2. rewrite !Hcc. cbn [mbind outcome_bind].
    destruct (collidesFromRow m 0 u1 b); [destruct (collidesFromRow m 0 u2 b)|];
      cbn [mbind outcome_bind fmap option_fmap option_map].
    + split; [split; [intros _|reflexivity]|split].
      * intros (_ & [(_ & _ & Hf) | (Hid & _)]); [discriminate|contradiction].
      * intros (_ & [(_ & _ & Hf) | (Hid & _)]); [discriminate|contradiction].
      * intros _ Hid. contradiction.
    + split; [split; [discriminate|]|split].
      * intros Hnot. exfalso. apply Hnot. split; [assumption|]. left. auto.
      * intros _ _. split; reflexivity.
      * intros _ Hid. contradiction.
    + split; [split; [intros _|reflexivity]|split].
      * intros (_ & [(_ & Hb & _) | (Hid & _)]); [discriminate|contradiction].
      * intros (_ & [(_ & Hb & _) | (Hid & _)]); [discriminate|contradiction].
      * intros _ Hid. contradiction.
  - assert (~ In (id (shape p)) ["I"; "L"; "J"]%string) as Hnin.
    { apply orb_false_iff in Hlj as [HL HJ].
      apply String.eqb_neq in HL, HJ.
      intros [Hid | [Hid | [Hid | []]]]; congruence. }
    assert (~ In (id (shape p)) ["L"; "J"]%string) as Hnin2
      by (intros Hid; apply Hnin; right; exact Hid).
    cbn [upKicks map firstFree]. fold u1. rewrite !Hcc. cbn [mbind outcome_bind].
    destruct (collidesFromRow m 0 u1 b);
      cbn [mbind outcome_bind fmap option_fmap option_map].
    + split; [split; [intros _|reflexivity]|split].
      * intros (_ & [(Hid & _) | (_ & Hf)]); [contradiction|discriminate].
      * intros _ Hid. contradiction.
      * intros (_ & [(Hid & _) | (_ & Hf)]); [contradiction|discriminate].
    + split; [split; [discriminate|]|split].
      * intros Hnot. exfalso. apply Hnot. split; [assumption|]. right. auto.
      * intros _ Hid. contradiction.
      * intros _ _. split; reflexivity.
Qed.

Lemma firstFree_Some (rp : ActivePiece) (l : list Position) (b : BoardMatrix)
    (pos : Position) :
  firstFree rp l b = Ok (Some pos) -> In pos l /\ fitsAt rp pos b.
Proof.
  induction l as [|c rest IH]; cbn [firstFree]; [discriminate|].
  destruct (checkCollision rp c b) as [hit| |] eqn:Hhit; cbn [mbind outcome_bind];
    try discriminate.
  destruct hit.
  - intros Hrest. destruct (IH Hrest) as [Hin Hfits]. split; [right; assumption|assumption].
  - intros [= ->]. split; [left; reflexivity|exact Hhit].
Qed.

Lemma firstFit_Some (rp : ActivePiece) (places : list Position) (b : BoardMatrix)
    (p' : ActivePiece) :
  firstFit rp places b = Ok (Some p') ->
  exists pos, p' = withPosition rp pos /\ In pos places /\ fitsAt rp pos b.
Proof.
  unfold firstFit. intros Hrun.
  destruct (firstFree rp places b) as [found| |] eqn:Hfound;
    cbn [mbind outcome_bind] in Hrun; try discriminate.
  destruct found as [pos|]; cbn in Hrun; [|discriminate].
  injection Hrun as <-.
  destruct (firstFree_Some _ _ _ _ Hfound) as [Hin Hfits].
  exists pos. repeat split; assumption.
Qed.

(** C5, as the code has it. The manual rotation is the operation of
    section 4.2: the piece in its next rotation is put at the first place
    that fits among its own place, the horizontal kicks -1, +1, -2, +2 and,
    when the row is at most 1, the vertical kicks -1, -2 for the shape I and
    -1 for every other shape. The driver turns the piece directly to the
    target rotation and searches its own places: the same but for the
    vertical kicks, which are -1, -2 for the shapes I, L and J and none for
    the other shapes; what it commits is in the target rotation, at one of
    these places, free of collision. When the target is the next rotation
    index, the two attempts give the same result (the same piece state, or
    no fit) except where the tables of vertical kicks part: at row 1 or
    above with the place and every horizontal kick blocked, for L and J with
    one row up blocked and two rows up free the driver commits two rows up
    and the manual rotation finds nothing, and for the shapes other than I,
    L and J with one row up free the manual rotation commits there and the
    driver finds nothing. When the target is another rotation index, the
    two results are equal only where the manual rotation commits nothing.
    The attempt need not succeed: when nothing fits, the manual rotation
    leaves the session as it is, and the driver locks the piece. *)
Theorem ai_rotation_vs_manual (piece : ActivePiece) (targetMove : AiMove) (b : BoardMatrix) :
  rotated piece b = manualRotation piece b /\
  aiRotated piece targetMove b =
    firstFit (withRotation piece (targetRotation targetMove)) (driverPlaces piece) b /\
  (forall p', aiRotated piece targetMove b = Ok (Some p') ->
     shape p' = shape piece /\ matrices p' = matrices piece /\
     rotation p' = targetRotation targetMove /\
     In (position p') (driverPlaces piece) /\
     checkCollision p' (position p') b = Ok false) /\
  (targetRotation targetMove = nextRotation piece ->
   (aiRotated piece targetMove b = rotated piece b <-> ~ kicksDiffer piece b) /\
   (kicksDiffer piece b -> In (id (shape piece)) ["L"; "J"]%string ->
    rotated piece b = Ok None /\
    aiRotated piece targetMove b =
      Ok (Some (withPosition (withRotation piece (nextRotation piece))
                             (shiftedBy (position piece) (-2) 0)))) /\
   (kicksDiffer piece b -> ~ In (id (shape piece)) ["I"; "L"; "J"]%string ->
    rotated piece b =
      Ok (Some (withPosition (withRotation piece (nextRotation piece))
                             (shiftedBy (position piece) (-1) 0))) /\
    aiRotated piece targetMove b = Ok None)) /\
  (targetRotation targetMove <> nextRotation piece ->
   aiRotated piece targetMove b = rotated piece b ->
   forall p', rotated piece b <> Ok (Some p')) /\
  (forall g, actingPiece g = Some piece -> board g = b ->
     rotated piece b = Ok None -> rotatePiece g = Ok g) /\
  (forall g k1 k2,
     currentPiece g = Some piece -> aiCurrentBestMove g = Some targetMove -> board g = b ->
     isAiActive g = true -> isPlaying g = true -> isLineClearingAnimationActive g = false ->
     rotation piece <> targetRotation targetMove ->
     aiRotated piece targetMove b = Ok None ->
     executeAiStep k1 k2 g = lockPiece (Some piece) k1 k2 (setAiStepTimeout false g)).
Proof.
  pose proof (rotated_as_search piece b) as Hmanual.
  pose proof (aiRotated_as_search piece targetMove b) as Hdriver.
  assert (forall p', aiRotated piece targetMove b = Ok (Some p') ->
            shape p' = shape piece /\ matrices p' = matrices piece /\
            rotation p' = targetRotation targetMove /\
            In (position p') (driverPlaces piece) /\
            checkCollision p' (position p') b = Ok false) as Hcommit.
  { intros p' Hrun. rewrite Hdriver in Hrun.
    destruct (firstFit_Some _ _ _ _ Hrun) as (pos & -> & Hin & Hfits).
    repeat split; assumption. }
  split; [exact Hmanual|]. split; [exact Hdriver|]. split; [exact Hcommit|].
  split; [|split; [|split]].
  - intros Htarget. rewrite Hdriver, Hmanual, Htarget. unfold manualRotation.
    exact (kick_tables_compared piece b).
  - intros Hother Hsame p' Hrun.
    rewrite Hrun in Hsame. destruct (Hcommit p' Hsame) as (_ & _ & Hrot & _).
    rewrite Hmanual in Hrun.
    destruct (firstFit_Some _ _ _ _ Hrun) as (pos & -> & _).
    apply Hother. symmetry. exact Hrot.
  - intros g Hact Hb Hrej. unfold rotatePiece. rewrite Hact, Hb, Hrej. reflexivity.
  - intros g k1 k2 Hcur Hbest Hb Hai Hplay Hidle Hne Hnone.
    unfold executeAiStep. simpl. rewrite Hcur, Hbest, Hai, Hidle.
    unfold isPlaying in *. simpl. rewrite Hplay. simpl.
    replace (rotation piece =? targetRotation targetMove)%nat with false
      by (symmetry; apply Nat.eqb_neq; assumption).
    simpl. rewrite Hb, Hnone, ?Hidle. reflexivity.
Qed.

Lemma ai_rotation_vs_manual_witness :
  rotated (pieceOf L_SHAPE 0 0 4) (board aroundL) = Ok None /\
  aiRotated (pieceOf L_SHAPE 0 0 4) (moveTo 1 0 17) (board aroundL)
    = Ok (Some (pieceOf L_SHAPE 1 (-2) 4)).
Proof.
  destruct (ai_rotation_vs_manual (pieceOf L_SHAPE 0 0 4) (moveTo 1 0 17) (board aroundL))
    as (_ & _ & _ & Hnext & _).
  destruct Hnext as (_ & Htwo & _); [reflexivity|].
  apply Htwo.
  - split; [vm_compute; discriminate|].
    split; [repeat constructor; vm_compute; reflexivity|].
    left. split; [left; reflexivity|]. split; vm_compute; reflexivity.
  - left. reflexivity.
Defined.

(** C5, as stated, fails in games played from the start, with the target
    rotation the planner returns. In a game that starts with an L piece the
    planner asks for rotation 3, and the driver turns the piece there at
    once, where the manual rotation turns it to rotation 1. After the game
    [gameUnderT] the T piece spawns on a stack that blocks its next rotation
    in place and at every horizontal kick: the manual rotation kicks it up
    one row, and the driver, which has no vertical kick for T, finds nothing,
    locks the piece where it is and ends the game. After the game
    [gameAroundL] the L piece spawns between two towers: the manual rotation
    finds nothing and leaves the piece, and the driver kicks it up two
    rows. *)
Lemma ai_rotation_differs :
  (newGame 1 0 = Ok startsWithL /\
   currentPiece startsWithL = Some (pieceOf L_SHAPE 0 0 4) /\
   board startsWithL = createEmptyBoard /\
   calculateBestMove (pieceOf L_SHAPE 0 0 4) createEmptyBoard
     = Ok (Some {| targetRotation := 3; targetCol := 7;
                   Move.score := Finite (-46); finalRow := 18 |}) /\
   aiRotated (pieceOf L_SHAPE 0 0 4) (moveTo 3 7 18) createEmptyBoard
     = Ok (Some (pieceOf L_SHAPE 3 0 4)) /\
   rotated (pieceOf L_SHAPE 0 0 4) createEmptyBoard = Ok (Some (pieceOf L_SHAPE 1 0 4)) /\
   (currentPiece <$> aiTakesOver 0 0 startsWithL) = Ok (Some (pieceOf L_SHAPE 3 0 4)) /\
   (currentPiece <$> rotatePiece startsWithL) = Ok (Some (pieceOf L_SHAPE 1 0 4))) /\
  (newGame 0 0 ≫= pressAll gameUnderT = Ok underT /\
   currentPiece underT = Some (pieceOf T_SHAPE 0 0 4) /\
   calculateBestMove (pieceOf T_SHAPE 0 0 4) (board underT)
     = Ok (Some {| targetRotation := 1; targetCol := 7;
                   Move.score := Finite 330; finalRow := 1 |}) /\
   nextRotation (pieceOf T_SHAPE 0 0 4) = 1%nat /\
   rotated (pieceOf T_SHAPE 0 0 4) (board underT) = Ok (Some (pieceOf T_SHAPE 1 (-1) 4)) /\
   aiRotated (pieceOf T_SHAPE 0 0 4) (moveTo 1 7 1) (board underT) = Ok None /\
   (currentPiece <$> rotatePiece underT) = Ok (Some (pieceOf T_SHAPE 1 (-1) 4)) /\
   (currentPiece <$> aiTakesOver 0 0 underT) = Ok None /\
   (gameState <$> aiTakesOver 0 0 underT) = Ok GameOver) /\
  (newGame 0 0 ≫= pressAll gameAroundL = Ok aroundL /\
   currentPiece aroundL = Some (pieceOf L_SHAPE 0 0 4) /\
   calculateBestMove (pieceOf L_SHAPE 0 0 4) (board aroundL)
     = Ok (Some {| targetRotation := 1; targetCol := 0;
                   Move.score := Finite 5701; finalRow := 17 |}) /\
   nextRotation (pieceOf L_SHAPE 0 0 4) = 1%nat /\
   rotated (pieceOf L_SHAPE 0 0 4) (board aroundL) = Ok None /\
   aiRotated (pieceOf L_SHAPE 0 0 4) (moveTo 1 0 17) (board aroundL)
     = Ok (Some (pieceOf L_SHAPE 1 (-2) 4)) /\
   rotatePiece aroundL = Ok aroundL /\
   (currentPiece <$> aiTakesOver 0 0 aroundL) = Ok (Some (pieceOf L_SHAPE 1 (-2) 4))).
Proof.
  repeat match goal with |- _ /\ _ => split end; vm_compute; reflexivity.
Qed.

(** ** The rows removed when the animation ends *)

Lemma clearRows_snoc (b : BoardMatrix) (l : list nat) (rowIndex : nat) :
  fst (clearRows b (l ++ [rowIndex])) = spliceUnshift (fst (clearRows b l)) rowIndex.
Proof.
  unfold clearRows. rewrite foldl_app. simpl.
  destruct (foldl _ (b, 0) l) as [acc n]. reflexivity.
Qed.

(** The loop keeps the number of rows, whatever rows it removes. *)
Lemma clearRows_length (b : BoardMatrix) (l : list nat) :
  Forall (fun rowIndex => (rowIndex < length b)%nat) l ->
  length (fst (clearRows b l)) = length b.
Proof.
  induction l as [|rowIndex l IH] using rev_ind; intros Hall; [reflexivity|].
  apply Forall_app in Hall as [Hl Hlast].
  inversion Hlast as [|? ? Hlt _]; subst.
  rewrite clearRows_snoc. unfold spliceUnshift. simpl.
  rewrite length_delete.
  - rewrite IH by assumption. lia.
  - apply lookup_lt_is_Some_2. rewrite IH by assumption. assumption.
Qed.

(** With one full row the loop removes that row and no other. *)
Lemma clearRows_single (b : BoardMatrix) (rowIndex : nat) :
  fst (clearRows b [rowIndex]) = emptyRow :: delete rowIndex b.
Proof. reflexivity. Qed.

(** C1 at a board with two full rows. The O piece fills rows 18 and 19 under
    a row that holds one block. The callback removes row 19, puts an empty
    row on top, and then removes what is now at index 18: the row with the
    single block, not the second full row, which stays at the bottom of the
    board. The planner's own simulation of the same placement removes the
    two full rows and keeps the row with the block. *)
Theorem clear_two_rows_removes_wrong_row :
  exists g1 g2,
    lockPiece (currentPiece markerSession) 0 1 markerSession = Ok g1 /\
    clearingRows g1 = [19; 18]%nat /\
    board g1 = replicate 17 emptyRow ++ [markerRow; filledRow; filledRow] /\
    isFullRow markerRow = false /\ isFullRow filledRow = true /\
    fireLineClear 2 3 g1 = Ok g2 /\
    board g2 = replicate 19 emptyRow ++ [filledRow] /\
    length (board g2) = Z.to_nat BOARD_HEIGHT /\
    clearFullRows clearFuel (board g1) (Z.to_nat BOARD_HEIGHT) 0
      = Ok (replicate 19 emptyRow ++ [markerRow], 2).
Proof.
  eexists. eexists.
  split; [vm_compute; reflexivity|].
  repeat split; vm_compute; reflexivity.
Qed.

(** ** evaluateBoardState: the placement on the copy *)

Lemma outcome_bind_Ok {A B} (a : A) (k : A -> outcome B) : Ok a ≫= k = k a.
Proof. reflexivity. Qed.

Lemma placeCell_eq (dropRow pieceCol : Z) (r c : nat) (b : BoardMatrix) (flag : bool)
    (cell : Z) :
  placeCell dropRow pieceCol r (b, flag) (c, cell) =
  if negb (cell =? 0) then
    if onBoard (dropRow + Z.of_nat r) (pieceCol + Z.of_nat c) then
      storeBoard b (Z.to_nat (dropRow + Z.of_nat r)) (Z.to_nat (pieceCol + Z.of_nat c)) cell
        ≫= fun b0 => Ok (b0, flag)
    else if dropRow + Z.of_nat r <? 0 then Ok (b, true)
    else Ok (b, flag)
  else Ok (b, flag).
Proof. reflexivity. Qed.

Lemma placeRow_lockRow (cells : list Z) (r c0 : nat) (dropRow pieceCol : Z)
    (b : BoardMatrix) (flag : bool) :
  forEachM (placeCell dropRow pieceCol r) (indexedFrom c0 cells) (b, flag) =
  lockRow cells r c0 {| row := dropRow; col := pieceCol |} b ≫= fun b' =>
    Ok (b', flag || existsb (fun cell => negb (cell =? 0) && (dropRow + Z.of_nat r <? 0)) cells).
Proof.
  revert c0 b flag. induction cells as [|cell rest IH]; intros c0 b flag.
  - simpl. rewrite orb_false_r. reflexivity.
  - cbn [indexedFrom forEachM lockRow existsb row col]. rewrite placeCell_eq.
    destruct (cell =? 0) eqn:Hcell; cbn [negb andb orb].
    + rewrite outcome_bind_Ok, IH. rewrite outcome_bind_Ok. reflexivity.
    + destruct (onBoard (dropRow + Z.of_nat r) (pieceCol + Z.of_nat c0)) eqn:Hon.
      * destruct (storeBoard b _ _ cell) as [b1| |]; cbn [mbind outcome_bind]; try reflexivity.
        rewrite IH.
        apply onBoard_true in Hon as [[Hr _] _].
        replace (dropRow + Z.of_nat r <? 0) with false by (symmetry; apply Z.ltb_ge; lia).
        reflexivity.
      * rewrite !outcome_bind_Ok.
        destruct (dropRow + Z.of_nat r <? 0) eqn:Habove.
        -- rewrite outcome_bind_Ok, IH.
           destruct (lockRow rest r (S c0) _ b) as [b'| |]; cbn [mbind outcome_bind];
             try reflexivity.
           rewrite !orb_true_r. reflexivity.
        -- rewrite outcome_bind_Ok, IH. reflexivity.
Qed.

Lemma placeRows_lockRows (rows : list (list Z)) (r0 : nat) (dropRow pieceCol : Z)
    (b : BoardMatrix) (flag : bool) :
  forEachM (fun st '(r, rowCells) =>
              forEachM (placeCell dropRow pieceCol r) (indexed rowCells) st)
           (indexedFrom r0 rows) (b, flag) =
  lockRows rows r0 {| row := dropRow; col := pieceCol |} b ≫= fun b' =>
    Ok (b', flag || existsb (fun '(r, cells) =>
                       existsb (fun cell => negb (cell =? 0) && (dropRow + Z.of_nat r <? 0)) cells)
                     (indexedFrom r0 rows)).
Proof.
  revert r0 b flag. induction rows as [|cells rest IH]; intros r0 b flag.
  - simpl. rewrite orb_false_r. reflexivity.
  - cbn [indexedFrom forEachM lockRows existsb]. unfold indexed. rewrite placeRow_lockRow.
    destruct (lockRow cells r0 0 _ b) as [b1| |]; cbn [mbind outcome_bind]; try reflexivity.
    rewrite IH.
    destruct (lockRows rest (S r0) _ b1) as [b2| |]; cbn [mbind outcome_bind]; try reflexivity.
    rewrite orb_assoc. reflexivity.
Qed.

(** The copy written by the evaluation is the board [lockPiece] would write,
    and the flag is the test of the game-over check. *)
Lemma placeOnCopy_settle (tempBoard : BoardMatrix) (piece : ActivePiece) (dropRow : Z)
    (m : list (list Z)) :
  matrices piece !! rotation piece = Some m ->
  placeOnCopy tempBoard m dropRow (col (position piece)) =
  settle tempBoard (withPosition piece {| row := dropRow; col := col (position piece) |})
    ≫= fun placed => Ok (placed, occupiedAbove m dropRow).
Proof.
  intros Hm. unfold placeOnCopy, settle, indexed. simpl. rewrite Hm. simpl.
  rewrite placeRows_lockRows. reflexivity.
Qed.

Lemma occupiedAbove_true (m : list (list Z)) (dropRow : Z) :
  occupiedAbove m dropRow = true <-> landsAboveTop m dropRow.
Proof.
  unfold occupiedAbove, indexed, landsAboveTop.
  assert (forall r0 rows,
    existsb (fun '(r_idx, cells) =>
               existsb (fun cell => negb (cell =? 0) && (dropRow + Z.of_nat r_idx <? 0)) cells)
            (indexedFrom r0 rows) = true <->
    exists r c cells v, rows !! r = Some cells /\ cells !! c = Some v /\ v <> 0 /\
                        dropRow + Z.of_nat (r0 + r) < 0) as Hgen.
  { intros r0 rows. revert r0. induction rows as [|cells rest IH]; intros r0; simpl.
    - split; [discriminate|]. intros (r & c & cs & v & Hr & _).
      rewrite lookup_nil in Hr. discriminate.
    - rewrite orb_true_iff, IH, existsb_exists. split.
      + intros [(cell & Hin & Hcell) | (r & c & cs & v & Hr & Hc & Hv & Hlt)].
        * apply andb_true_iff in Hcell as [Hne Hlt].
          apply list_elem_of_In, list_elem_of_lookup in Hin as [c Hc].
          exists 0%nat, c, cells, cell. rewrite Nat.add_0_r.
          apply negb_true_iff, Z.eqb_neq in Hne. apply Z.ltb_lt in Hlt. auto.
        * exists (S r), c, cs, v. replace (r0 + S r)%nat with (S r0 + r)%nat by lia. auto.
      + intros (r & c & cs & v & Hr & Hc & Hv & Hlt). destruct r as [|r].
        * left. simpl in Hr. injection Hr as <-. exists v. split.
          -- apply list_elem_of_In, list_elem_of_lookup. eauto.
          -- rewrite Nat.add_0_r in Hlt. apply andb_true_iff. split.
             ++ apply negb_true_iff, Z.eqb_neq. assumption.
             ++ apply Z.ltb_lt. assumption.
        * right. exists r, c, cs, v.
          replace (S r0 + r)%nat with (r0 + S r)%nat by lia. auto. }
  rewrite Hgen. simpl. reflexivity.
Qed.

(** ** evaluateBoardState: the simulated clear *)

Lemma fullRowCount_app (b1 b2 : BoardMatrix) :
  fullRowCount (b1 ++ b2) = (fullRowCount b1 + fullRowCount b2)%nat.
Proof. unfold fullRowCount. rewrite List.filter_app, length_app. reflexivity. Qed.

Lemma fullRowCount_le (b : BoardMatrix) : (fullRowCount b <= length b)%nat.
Proof. unfold fullRowCount. apply List.filter_length_le. Qed.

(** Above the rows still to examine there are only the empty rows put on
    top, and the loop walks over them without a change. *)
Lemma clearFullRows_over_empty (d c : nat) (suf : BoardMatrix) (fuel : nat) (n : Z) :
  (d <= c)%nat -> (d < fuel)%nat ->
  clearFullRows fuel (replicate c emptyRow ++ suf) d n = Ok (replicate c emptyRow ++ suf, n).
Proof.
  revert fuel. induction d as [|d IH]; intros fuel Hd Hfuel.
  - destruct fuel; [lia|]. reflexivity.
  - destruct fuel as [|k]; [lia|]. cbn [clearFullRows].
    rewrite lookup_app_l by (rewrite length_replicate; lia).
    rewrite lookup_replicate_2 by lia.
    cbn [deref mbind outcome_bind].
    change (isFullRow emptyRow) with false. cbn iota.
    apply IH; lia.
Qed.

Lemma clearFullRows_sweep (pre : BoardMatrix) :
  forall (c : nat) (suf : BoardMatrix) (fuel : nat) (n : Z),
    (length pre + c + fullRowCount pre < fuel)%nat ->
    clearFullRows fuel (replicate c emptyRow ++ pre ++ suf) (c + length pre) n =
    Ok (replicate (c + fullRowCount pre) emptyRow
          ++ List.filter (fun line => negb (isFullRow line)) pre ++ suf,
        n + Z.of_nat (fullRowCount pre)).
Proof.
  induction pre as [|x pre IH] using rev_ind; intros c suf fuel n Hfuel.
  - simpl in *. rewrite !Nat.add_0_r, Z.add_0_r.
    apply clearFullRows_over_empty; lia.
  - assert (fullRowCount [x] = if isFullRow x then 1%nat else 0%nat) as Hx
      by (unfold fullRowCount; simpl; destruct (isFullRow x); reflexivity).
    rewrite fullRowCount_app, length_app, Hx in *. cbn [length] in *.
    destruct fuel as [|k]; [lia|].
    replace (c + (length pre + 1))%nat with (S (c + length pre)) by lia.
    cbn [clearFullRows].
    replace (replicate c emptyRow ++ (pre ++ [x]) ++ suf)
      with ((replicate c emptyRow ++ pre) ++ x :: suf)
      by (rewrite <- !app_assoc; reflexivity).
    replace (c + length pre)%nat with (length (replicate c emptyRow ++ pre))
      by (rewrite length_app, length_replicate; reflexivity).
    rewrite list_lookup_middle by reflexivity.
    cbn [deref mbind outcome_bind].
    rewrite List.filter_app. cbn [List.filter].
    destruct (isFullRow x) eqn:Hfull; cbn [negb length app].
    + unfold spliceUnshift. rewrite delete_middle.
      rewrite length_app, length_replicate.
      rewrite <- app_assoc.
      change (emptyRow :: replicate c emptyRow ++ pre ++ suf)
        with (replicate (S c) emptyRow ++ pre ++ suf).
      replace (S (c + length pre)) with (S c + length pre)%nat by lia.
      rewrite IH by lia.
      rewrite app_nil_r.
      replace (S c + fullRowCount pre)%nat with (c + (fullRowCount pre + 1))%nat by lia.
      f_equal. f_equal. lia.
    + rewrite length_app, length_replicate.
      rewrite <- app_assoc.
      rewrite IH by lia.
      rewrite !Nat.add_0_r, <- app_assoc. reflexivity.
Qed.

(** The loop of the evaluation ends within its fuel, counts the full rows
    and leaves the board with them taken out. *)
Lemma clearFullRows_total (b : BoardMatrix) :
  length b = Z.to_nat BOARD_HEIGHT ->
  clearFullRows clearFuel b (Z.to_nat BOARD_HEIGHT) 0 =
  Ok (afterClear b, Z.of_nat (fullRowCount b)).
Proof.
  intros Hlen. pose proof (fullRowCount_le b) as Hle.
  pose proof (clearFullRows_sweep b 0 [] clearFuel 0) as Hsweep.
  rewrite !app_nil_r in Hsweep.
  change (replicate 0 emptyRow ++ b) with b in Hsweep.
  rewrite !Nat.add_0_l, Z.add_0_l, Hlen in Hsweep.
  apply Hsweep. unfold clearFuel. lia.
Qed.

(** ** evaluateBoardState: heights, holes and bumpiness *)

(** The height of a column whose highest occupied cell is at row [r] is
    the number of rows from [r] to the bottom; an empty column has height 0. *)
Lemma stackHeight_first_occupied (cells : list Z) (r : nat) (v : Z) :
  cells !! r = Some v -> v <> 0 ->
  (forall r' v', (r' < r)%nat -> cells !! r' = Some v' -> v' = 0) ->
  stackHeight cells = Z.of_nat (length cells) - Z.of_nat r.
Proof.
  unfold stackHeight. revert r. induction cells as [|x rest IH]; intros r Hr Hv Habove.
  - rewrite lookup_nil in Hr. discriminate.
  - destruct r as [|r]; cbn [stackOf].
    + simpl in Hr. injection Hr as ->.
      replace (v =? 0) with false by (symmetry; apply Z.eqb_neq; assumption). lia.
    + rewrite (Habove 0%nat x) by (reflexivity || lia). cbn [Z.eqb].
      rewrite (IH r); [cbn [length]; lia|exact Hr|assumption|].
      intros r' v' Hlt Hr'. apply (Habove (S r') v'); [lia|exact Hr'].
Qed.

Lemma stackHeight_empty_column (cells : list Z) :
  Forall (fun v => v = 0) cells -> stackHeight cells = 0.
Proof.
  unfold stackHeight. induction 1 as [|x rest Hx _ IH]; [reflexivity|].
  cbn [stackOf]. rewrite Hx. exact IH.
Qed.

Lemma column_drop (b : BoardMatrix) (c r : nat) (line : list Z) :
  b !! r = Some line ->
  column (drop r b) c = readCell line c :: column (drop (S r) b) c.
Proof.
  intros Hline. unfold column. rewrite (drop_S b line r Hline). reflexivity.
Qed.

Lemma heightFrom_spec (b : BoardMatrix) (c : nat) :
  length b = Z.to_nat BOARD_HEIGHT ->
  forall todo r, (r + todo)%nat = length b ->
    heightFrom b c r todo = Ok (stackHeight (column (drop r b) c)).
Proof.
  intros Hlen. induction todo as [|k IH]; intros r Hr.
  - rewrite drop_ge by lia. reflexivity.
  - destruct (lookup_lt_is_Some_2 b r) as [line Hline]; [lia|].
    cbn [heightFrom]. rewrite Hline. cbn [deref mbind outcome_bind].
    rewrite (column_drop b c r line Hline). unfold stackHeight. cbn [stackOf].
    destruct (readCell line c =? 0); cbn [negb].
    + apply IH. lia.
    + f_equal. cbn [length]. unfold column. rewrite length_map, length_drop. lia.
Qed.

Lemma holesFrom_spec (b : BoardMatrix) (c : nat) :
  forall todo r seen holes, (r + todo)%nat = length b ->
    holesFrom b c r todo seen holes = Ok (holes + zerosUnder seen (column (drop r b) c)).
Proof.
  induction todo as [|k IH]; intros r seen holes Hr.
  - rewrite drop_ge by lia. cbn [holesFrom]. unfold zerosUnder.
    destruct seen; simpl; f_equal; lia.
  - destruct (lookup_lt_is_Some_2 b r) as [line Hline]; [lia|].
    cbn [holesFrom]. rewrite Hline. cbn [deref mbind outcome_bind].
    rewrite (column_drop b c r line Hline).
    destruct (readCell line c =? 0) eqn:Hv; cbn [negb].
    + destruct seen; cbn [andb].
      * rewrite IH by lia. unfold zerosUnder. cbn [List.filter]. rewrite Hv.
        cbn [length]. f_equal. lia.
      * rewrite IH by lia. unfold zerosUnder. cbn [stackOf]. rewrite Hv. reflexivity.
    + rewrite IH by lia. unfold zerosUnder. cbn [stackOf]. rewrite Hv.
      destruct seen; cbn [List.filter]; rewrite Hv; reflexivity.
Qed.

Lemma filter_map_length {A B} (f : B -> bool) (g : A -> B) (l : list A) :
  length (List.filter f (map g l)) = length (List.filter (fun x => f (g x)) l).
Proof.
  induction l as [|x l IH]; simpl; [reflexivity|].
  destruct (f (g x)); simpl; congruence.
Qed.

Lemma zeros_by_index (l : list Z) :
  length (List.filter (fun r => List.nth r l 0 =? 0) (seq 0 (length l))) =
  length (List.filter (fun v => v =? 0) l).
Proof.
  induction l as [|v l IH]; [reflexivity|].
  change (seq 0 (length (v :: l))) with (0%nat :: seq 1 (length l)).
  rewrite <- seq_shift. cbn [List.filter List.nth].
  destruct (v =? 0); cbn [length]; rewrite filter_map_length; cbn [List.nth];
    rewrite IH; reflexivity.
Qed.

(** The holes of a column are the empty cells of its stack. *)
Lemma holesIn_stack (cells : list Z) :
  holesIn cells = zerosUnder false cells.
Proof.
  unfold holesIn, zerosUnder. f_equal.
  induction cells as [|v rest IH]; [reflexivity|].
  change (seq 0 (length (v :: rest))) with (0%nat :: seq 1 (length rest)).
  rewrite <- seq_shift. cbn [List.filter stackOf].
  replace (isHole (v :: rest) 0) with false
    by (unfold isHole; cbn [take existsb]; rewrite andb_false_r; reflexivity).
  rewrite filter_map_length.
  destruct (v =? 0) eqn:Hv.
  - rewrite <- IH. f_equal. apply List.filter_ext. intros r.
    unfold isHole. cbn [List.nth take existsb]. rewrite Hv. reflexivity.
  - cbn [List.filter]. rewrite Hv. rewrite <- zeros_by_index. f_equal.
    apply List.filter_ext. intros r.
    unfold isHole. cbn [List.nth take existsb]. rewrite Hv. cbn [negb orb].
    apply andb_true_r.
Qed.

Lemma columnHeights_spec (b : BoardMatrix) :
  length b = Z.to_nat BOARD_HEIGHT ->
  columnHeights b = Ok (map (fun c => stackHeight (column b c)) columns).
Proof.
  intros Hlen. unfold columnHeights.
  assert (forall cols acc,
    forEachM (fun heights c =>
                heightFrom b c 0 (Z.to_nat BOARD_HEIGHT) ≫= fun h => Ok (heights ++ [h]))
             cols acc
    = Ok (acc ++ map (fun c => stackHeight (column b c)) cols)) as Hgen.
  { induction cols as [|c cols IH]; intros acc; cbn [forEachM map].
    - rewrite app_nil_r. reflexivity.
    - rewrite (heightFrom_spec b c Hlen) by lia. cbn [mbind outcome_bind].
      rewrite IH, <- app_assoc. reflexivity. }
  apply Hgen.
Qed.

Lemma countHoles_spec (b : BoardMatrix) :
  length b = Z.to_nat BOARD_HEIGHT ->
  countHoles b = Ok (holesOf b).
Proof.
  intros Hlen. unfold countHoles, holesOf.
  assert (forall cols acc,
    forEachM (fun holes c => holesFrom b c 0 (Z.to_nat BOARD_HEIGHT) false holes) cols acc
    = Ok (acc + sumZ (map (fun c => holesIn (column b c)) cols))) as Hgen.
  { induction cols as [|c cols IH]; intros acc; cbn [forEachM map sumZ foldr].
    - rewrite Z.add_0_r. reflexivity.
    - rewrite holesFrom_spec by lia. cbn [mbind outcome_bind].
      rewrite IH. rewrite holesIn_stack. f_equal. unfold sumZ.
      change (drop 0 b) with b. lia. }
  apply Hgen.
Qed.

Lemma bumpinessOf_spec (h : nat -> Z) :
  forall n s, bumpinessOf (map h (seq s (S n))) =
              sumZ (map (fun c => Z.abs (h c - h (S c))) (seq s n)).
Proof.
  induction n as [|n IH]; intros s; [reflexivity|].
  change (seq s (S (S n))) with (s :: seq (S s) (S n)).
  cbn [map]. change (seq s (S n)) with (s :: seq (S s) n). cbn [map sumZ foldr].
  rewrite <- IH. reflexivity.
Qed.

Lemma afterClear_ok (b : BoardMatrix) : board_ok b -> board_ok (afterClear b).
Proof.
  intros [Hlen Hrows]. unfold afterClear, fullRowCount. split.
  - rewrite length_app, length_replicate, <- Hlen.
    assert (forall l, (length (List.filter isFullRow l)
                       + length (List.filter (fun line => negb (isFullRow line)) l))%nat
                      = length l) as Hsplit.
    { induction l as [|x l IH]; simpl; [reflexivity|].
      destruct (isFullRow x); simpl; lia. }
    apply Hsplit.
  - apply Forall_app. split.
    + apply Forall_replicate. reflexivity.
    + apply Forall_forall. intros line Hin.
      apply list_elem_of_In, List.filter_In in Hin as [Hin _].
      rewrite Forall_forall in Hrows. apply Hrows, list_elem_of_In. assumption.
Qed.

(** C3. On a board of the data model and for a piece whose rotation index
    selects one of its matrices: if an occupied cell of the placement lands
    above row 0 the evaluation is -Infinity; otherwise it is
    linesCleared * 5000 - aggregateHeight * 10 - holes * 75 - bumpiness * 3,
    where linesCleared is the number of full rows of the board after the
    piece is written in at the drop row, and the heights, holes and
    bumpiness are those of that board with its full rows taken out and as
    many empty rows put on top. *)
Theorem evaluateBoardState_value (tempBoard : BoardMatrix) (piece : ActivePiece)
    (dropRow : Z) (m : list (list Z)) :
  matrices piece !! rotation piece = Some m ->
  board_ok tempBoard ->
  (landsAboveTop m dropRow ->
   evaluateBoardState tempBoard piece dropRow = Ok NegInfinity) /\
  (~ landsAboveTop m dropRow ->
   exists placed,
     settle tempBoard
       (withPosition piece {| row := dropRow; col := col (position piece) |}) = Ok placed /\
     board_ok placed /\ board_ok (afterClear placed) /\
     evaluateBoardState tempBoard piece dropRow =
       Ok (Finite (Z.of_nat (fullRowCount placed) * 5000
                   - aggregateHeightOf (afterClear placed) * 10
                   - holesOf (afterClear placed) * 75
                   - bumpinessOfBoard (afterClear placed) * 3))).
Proof.
  intros Hm Hok.
  pose proof (placeOnCopy_settle tempBoard piece dropRow m Hm) as Hplace.
  destruct (lockRows_spec m 0 {| row := dropRow; col := col (position piece) |} tempBoard Hok)
    as (placed & Hrows & Hokp & _).
  assert (settle tempBoard
            (withPosition piece {| row := dropRow; col := col (position piece) |}) = Ok placed)
    as Hsettle.
  { unfold settle. cbn [matrices rotation position withPosition]. rewrite Hm. exact Hrows. }
  rewrite Hsettle in Hplace. cbn [mbind outcome_bind] in Hplace.
  unfold evaluateBoardState. rewrite Hm. cbn [deref mbind outcome_bind].
  rewrite Hplace. cbn [mbind outcome_bind].
  split.
  - intros Habove. apply occupiedAbove_true in Habove. rewrite Habove. reflexivity.
  - intros Hnot. exists placed.
    split; [assumption|]. split; [assumption|].
    split; [apply afterClear_ok; assumption|].
    destruct (occupiedAbove m dropRow) eqn:Habove.
    { apply occupiedAbove_true in Habove. contradiction. }
    pose proof (afterClear_ok placed Hokp) as [Hlenc _].
    destruct Hokp as [Hlenp _].
    rewrite (clearFullRows_total placed Hlenp). cbn [mbind outcome_bind].
    rewrite (columnHeights_spec (afterClear placed) Hlenc). cbn [mbind outcome_bind].
    rewrite (countHoles_spec (afterClear placed) Hlenc). cbn [mbind outcome_bind].
    change columns with (seq 0 (S 9)) at 2.
    rewrite bumpinessOf_spec.
    unfold aggregateHeightOf, bumpinessOfBoard.
    change (Z.to_nat BOARD_WIDTH - 1)%nat with 9%nat.
    reflexivity.
Qed.

Lemma evaluateBoardState_value_witness :
  evaluateBoardState twoRowsOpenLeft (pieceOf O_SHAPE 0 0 0) (-1) = Ok NegInfinity /\
  exists placed,
    settle twoRowsOpenLeft (pieceOf O_SHAPE 0 18 0) = Ok placed /\
    evaluateBoardState twoRowsOpenLeft (pieceOf O_SHAPE 0 0 0) 18 =
      Ok (Finite (Z.of_nat (fullRowCount placed) * 5000
                  - aggregateHeightOf (afterClear placed) * 10
                  - holesOf (afterClear placed) * 75
                  - bumpinessOfBoard (afterClear placed) * 3)).
Proof.
  split.
  - destruct (evaluateBoardState_value twoRowsOpenLeft (pieceOf O_SHAPE 0 0 0) (-1)
                (matrix O_SHAPE)) as [Hinf _].
    + reflexivity.
    + split; [reflexivity | repeat constructor].
    + apply Hinf. exists 0%nat, 0%nat, [4; 4], 4.
      split; [reflexivity|]. split; [reflexivity|]. split; [discriminate|simpl; lia].
  - destruct (evaluateBoardState_value twoRowsOpenLeft (pieceOf O_SHAPE 0 0 0) 18
                (matrix O_SHAPE)) as [_ Hfin].
    + reflexivity.
    + split; [reflexivity | repeat constructor].
    + destruct Hfin as (placed & Hsettle & _ & _ & Hvalue).
      * intros (r & c & cells & v & _ & _ & _ & Hlt). lia.
      * exists placed. split; [exact Hsettle | exact Hvalue].
Defined.

(** ** The descent loop and its bound *)

Lemma checkCollision_below_board (p : ActivePiece) (m : list (list Z)) (R c : Z)
    (b : BoardMatrix) :
  matrices p !! rotation p = Some m -> hasOccupiedCell m -> BOARD_HEIGHT <= R ->
  checkCollision p {| row := R; col := c |} b = Ok true.
Proof.
  intros Hm (r & j & cells & v & Hr & Hj & Hv) HR.
  unfold checkCollision. rewrite Hm. cbn [deref mbind outcome_bind]. f_equal.
  apply collidesFromRow_true. exists r, j, cells, v.
  repeat split; try assumption.
  unfold cellCollides. cbn [row col].
  replace (BOARD_HEIGHT <=? R + Z.of_nat (0 + r)) with true
    by (symmetry; apply Z.leb_le; lia).
  reflexivity.
Qed.

(** For a piece with an occupied cell the loop exits within its bound. *)
Lemma descend_total (p : ActivePiece) (m : list (list Z)) (c : Z) (b : BoardMatrix) :
  matrices p !! rotation p = Some m -> hasOccupiedCell m ->
  forall fuel r, (descentBound r <= fuel)%nat ->
    exists r', descend fuel p r c b = Ok r' /\ r <= r'.
Proof.
  intros Hm Hocc. unfold descentBound.
  induction fuel as [|k IH]; intros r Hfuel; [lia|].
  cbn [descend].
  destruct (Z.le_gt_cases BOARD_HEIGHT (r + 1)) as [Hlow|Hhigh].
  - rewrite (checkCollision_below_board p m (r + 1) c b Hm Hocc Hlow).
    cbn [mbind outcome_bind]. exists r. split; [reflexivity|lia].
  - assert (exists hit, checkCollision p {| row := r + 1; col := c |} b = Ok hit) as [hit Hhit]
      by (unfold checkCollision; rewrite Hm; cbn [deref mbind outcome_bind]; eauto).
    rewrite Hhit. cbn [mbind outcome_bind]. destruct hit.
    + exists r. split; [reflexivity|lia].
    + destruct (IH (r + 1)) as (r' & Hr' & Hle); [lia|].
      exists r'. split; [assumption|lia].
Qed.

(** For a piece without an occupied cell nothing ever collides, and the
    loop has no exit: the model runs out of any fuel. *)
Lemma descend_of_empty_piece (p : ActivePiece) (m : list (list Z)) (c : Z) (b : BoardMatrix) :
  matrices p !! rotation p = Some m -> ~ hasOccupiedCell m ->
  (forall pos, checkCollision p pos b = Ok false) /\
  (forall fuel r, descend fuel p r c b = Diverges).
Proof.
  intros Hm Hempty.
  assert (forall pos, checkCollision p pos b = Ok false) as Hfree.
  { intros pos. unfold checkCollision. rewrite Hm. cbn [deref mbind outcome_bind]. f_equal.
    destruct (collidesFromRow m 0 pos b) eqn:Hhit; [|reflexivity].
    exfalso. apply Hempty.
    apply collidesFromRow_true in Hhit as (r & j & cells & v & Hr & Hj & Hv & _).
    exists r, j, cells, v. auto. }
  split; [assumption|].
  induction fuel as [|k IH]; intros r; [reflexivity|].
  cbn [descend]. rewrite Hfree. cbn [mbind outcome_bind]. apply IH.
Qed.

(** * Further properties *)

(** ** getRotations *)

Lemma lookup_map_seq {A} (f : nat -> A) (n s i : nat) :
  (i < n)%nat -> map f (seq s n) !! i = Some (f (s + i)%nat).
Proof.
  revert s i. induction n as [|n IH]; intros s i Hi; [lia|].
  destruct i as [|i]; simpl.
  - rewrite Nat.add_0_r. reflexivity.
  - rewrite IH by lia. f_equal. f_equal. lia.
Qed.

Lemma rotateOnce_square (m : list (list Z)) : square (length m) (rotateOnce m).
Proof.
  unfold square, rotateOnce. split.
  - rewrite length_map, length_seq. reflexivity.
  - apply Forall_forall. intros line Hin.
    apply list_elem_of_In, in_map_iff in Hin as (i & <- & _).
    rewrite length_map, length_seq. reflexivity.
Qed.

Lemma rotateOnce_cell (m : list (list Z)) (i j : nat) :
  (i < length m)%nat -> (j < length m)%nat ->
  cellOf (rotateOnce m) i j = cellOf m (length m - 1 - j) i.
Proof.
  intros Hi Hj. unfold cellOf at 1. unfold rotateOnce.
  rewrite lookup_map_seq by assumption. cbn [from_option Datatypes.id].
  unfold readCell. rewrite lookup_map_seq by assumption. reflexivity.
Qed.

Lemma square_ext (N : nat) (a b : list (list Z)) :
  square N a -> square N b ->
  (forall i j, (i < N)%nat -> (j < N)%nat -> cellOf a i j = cellOf b i j) ->
  a = b.
Proof.
  intros [Hla Hra] [Hlb Hrb] Hcells. apply list_eq. intros i.
  destruct (Nat.lt_ge_cases i N) as [Hi|Hi].
  - destruct (lookup_lt_is_Some_2 a i) as [ra Ha]; [lia|].
    destruct (lookup_lt_is_Some_2 b i) as [rb Hb]; [lia|].
    rewrite Ha, Hb. f_equal.
    assert (length ra = N) as Hna by (eapply Forall_lookup_1 in Hra; eauto).
    assert (length rb = N) as Hnb by (eapply Forall_lookup_1 in Hrb; eauto).
    apply list_eq. intros j.
    destruct (Nat.lt_ge_cases j N) as [Hj|Hj].
    + specialize (Hcells i j Hi Hj). unfold cellOf, readCell in Hcells.
      rewrite Ha, Hb in Hcells. cbn [from_option Datatypes.id] in Hcells.
      destruct (lookup_lt_is_Some_2 ra j) as [x Hx]; [lia|].
      destruct (lookup_lt_is_Some_2 rb j) as [y Hy]; [lia|].
      rewrite Hx, Hy in *. cbn [from_option Datatypes.id] in Hcells. congruence.
    + rewrite !lookup_ge_None_2 by lia. reflexivity.
  - rewrite !lookup_ge_None_2 by lia. reflexivity.
Qed.

(** X1. The four matrices of [getRotations] of a square matrix are square
    matrices of the same size, and a quarter turn of the last one gives the
    first one back: four quarter turns are the identity, so stepping the
    rotation index around the four states returns the piece to the shape it
    started with. *)
Theorem getRotations_cycle (N : nat) (m : list (list Z)) :
  square N m ->
  exists m1 m2 m3,
    getRotations m = [m; m1; m2; m3] /\
    square N m1 /\ square N m2 /\ square N m3 /\
    rotateOnce m3 = m.
Proof.
  intros Hsq. pose proof Hsq as [Hlen _].
  set (m1 := rotateOnce m). set (m2 := rotateOnce m1). set (m3 := rotateOnce m2).
  pose proof (rotateOnce_square m) as H1. fold m1 in H1. rewrite Hlen in H1.
  pose proof (rotateOnce_square m1) as H2. fold m2 in H2.
  rewrite (proj1 H1) in H2.
  pose proof (rotateOnce_square m2) as H3. fold m3 in H3.
  rewrite (proj1 H2) in H3.
  pose proof (rotateOnce_square m3) as H4. rewrite (proj1 H3) in H4.
  exists m1, m2, m3. repeat match goal with |- _ /\ _ => split end;
    try assumption; [reflexivity|].
  apply (square_ext N); try assumption.
  intros i j Hi Hj.
  rewrite rotateOnce_cell by (rewrite (proj1 H3); lia). rewrite (proj1 H3).
  unfold m3. rewrite rotateOnce_cell by (rewrite (proj1 H2); lia). rewrite (proj1 H2).
  unfold m2. rewrite rotateOnce_cell by (rewrite (proj1 H1); lia). rewrite (proj1 H1).
  unfold m1. rewrite rotateOnce_cell by lia. rewrite Hlen.
  f_equal; lia.
Qed.

Lemma getRotations_cycle_witness :
  exists m1 m2 m3,
    getRotations (matrix T_SHAPE) = [matrix T_SHAPE; m1; m2; m3] /\
    rotateOnce m3 = matrix T_SHAPE.
Proof.
  destruct (getRotations_cycle 3 (matrix T_SHAPE)) as (m1 & m2 & m3 & Hrot & _ & _ & _ & Hback).
  - split; [reflexivity | repeat constructor].
  - exists m1, m2, m3. split; assumption.
Defined.

(** ** spawnNewPiece *)

Lemma occupiedb_true (m : list (list Z)) : occupiedb m = true -> hasOccupiedCell m.
Proof.
  unfold occupiedb, hasOccupiedCell. intros H.
  apply existsb_exists in H as (cells & Hin & H).
  apply existsb_exists in H as (v & Hv & Hne).
  apply list_elem_of_In, list_elem_of_lookup in Hin as [r Hr].
  apply list_elem_of_In, list_elem_of_lookup in Hv as [c Hc].
  exists r, c, cells, v. repeat split; try assumption.
  apply negb_true_iff, Z.eqb_neq in Hne. assumption.
Qed.

Lemma piece_ok_by_test (p : ActivePiece) :
  (rotation p <? length (matrices p))%nat && forallb occupiedb (matrices p) = true ->
  piece_ok p.
Proof.
  intros H. apply andb_true_iff in H as [Hrot Hall]. split.
  - apply Nat.ltb_lt. assumption.
  - apply Forall_forall. intros m Hin.
    rewrite forallb_forall in Hall. apply occupiedb_true, Hall, list_elem_of_In. assumption.
Qed.

Lemma piece_ok_matrix (p : ActivePiece) :
  piece_ok p -> exists m, matrices p !! rotation p = Some m /\ hasOccupiedCell m.
Proof.
  intros [Hrot Hall].
  destruct (lookup_lt_is_Some_2 (matrices p) (rotation p) Hrot) as [m Hm].
  exists m. split; [assumption|]. eapply Forall_lookup_1 in Hall; eauto.
Qed.

Lemma spawnNewPiece_piece_ok (k : nat) :
  (k < length TETROMINOES)%nat -> exists p, spawnNewPiece k = Ok p /\ piece_ok p.
Proof.
  intros Hk.
  do 7 (destruct k as [|k];
        [eexists; split; [reflexivity|apply piece_ok_by_test; vm_compute; reflexivity]|]).
  simpl in Hk. lia.
Qed.

(** X2. For each of the seven indexes of the table [spawnNewPiece] returns a
    piece of that shape in rotation 0 at row 0, horizontally centred
    (column 5 - floor(N / 2) for a matrix of size N), whose matrices are the
    four rotations of the shape's matrix, each with an occupied cell, and
    which does not collide on the empty board. An index past the table
    raises a TypeError. *)
Theorem spawnNewPiece_centred_and_free (k : nat) :
  ((k < length TETROMINOES)%nat ->
   exists sh p,
     TETROMINOES !! k = Some sh /\ spawnNewPiece k = Ok p /\
     shape p = sh /\ rotation p = 0%nat /\ matrices p = getRotations (matrix sh) /\
     position p = {| row := 0;
                     col := BOARD_WIDTH / 2 - Z.of_nat (length (matrix sh)) / 2 |} /\
     piece_ok p /\
     checkCollision p (position p) createEmptyBoard = Ok false) /\
  ((length TETROMINOES <= k)%nat -> spawnNewPiece k = TypeError).
Proof.
  split.
  - intros Hk.
    do 7 (destruct k as [|k];
          [eexists; eexists; split; [reflexivity|]; split; [reflexivity|];
           repeat match goal with |- _ /\ _ => split end;
           try reflexivity; apply piece_ok_by_test; vm_compute; reflexivity|]).
    simpl in Hk. lia.
  - intros Hk. unfold spawnNewPiece.
    rewrite lookup_ge_None_2 by assumption. reflexivity.
Qed.

Lemma spawnNewPiece_centred_and_free_witness :
  exists p, spawnNewPiece 0 = Ok p /\ position p = {| row := 0; col := 3 |} /\
            checkCollision p (position p) createEmptyBoard = Ok false.
Proof.
  destruct (spawnNewPiece_centred_and_free 0) as [Hin _].
  destruct Hin as (sh & p & Hsh & Hp & _ & _ & _ & Hpos & _ & Hfree); [simpl; lia|].
  exists p. split; [assumption|]. split; [|assumption].
  vm_compute in Hsh. injection Hsh as <-. exact Hpos.
Defined.

(** ** lockPiece: the scan for full rows *)

Lemma fullRowsBelow_spec (b : BoardMatrix) (down : nat) :
  (down <= length b)%nat ->
  exists rows, fullRowsBelow b down = Ok rows /\
    (forall r, In r rows <-> (r < down)%nat /\ fullAt b r) /\
    Forall (fun r => (r < down)%nat) rows /\ descending rows.
Proof.
  induction down as [|r IH]; intros Hdown.
  - exists []. split; [reflexivity|]. split; [|split; [constructor|exact I]].
    intros r. split; [intros []|intros [Hlt _]; lia].
  - destruct IH as (rest & Hrest & Hmem & Hlt & Hdesc); [lia|].
    destruct (lookup_lt_is_Some_2 b r) as [line Hline]; [lia|].
    cbn [fullRowsBelow]. rewrite Hline, Hrest. cbn [deref mbind outcome_bind].
    eexists. split; [reflexivity|].
    assert (Forall (fun x => (x < S r)%nat) rest) as Hlt'
      by (eapply Forall_impl; [exact Hlt|]; intros; simpl in *; lia).
    destruct (isFullRow line) eqn:Hfull.
    + split; [|split; [constructor; [lia|assumption]|split; assumption]].
      intros x. cbn [In]. rewrite Hmem. split.
      * intros [<- | [Hx Hfx]]; [|split; [lia|assumption]].
        split; [lia|]. exists line. auto.
      * intros [Hx Hfx]. destruct (Nat.eq_dec r x) as [->|Hne]; [left; reflexivity|].
        right. split; [lia|assumption].
    + split; [|split; assumption].
      intros x. rewrite Hmem. split.
      * intros [Hx Hfx]. split; [lia|assumption].
      * intros [Hx Hfx]. split; [|assumption].
        destruct (Nat.eq_dec r x) as [->|Hne]; [|lia].
        destruct Hfx as (line' & Hline' & Hfull'). congruence.
Qed.

Lemma sortDescending_of_descending (l : list nat) :
  descending l -> sortDescending l = l.
Proof.
  induction l as [|x rest IH]; [reflexivity|].
  intros [Hlt Hdesc]. cbn [sortDescending foldr]. fold (sortDescending rest).
  rewrite IH by assumption.
  destruct rest as [|y rest']; [reflexivity|].
  cbn [insertDescending]. inversion Hlt as [|? ? Hy _]; subst.
  replace (y <=? x)%nat with true by (symmetry; apply Nat.leb_le; lia). reflexivity.
Qed.

(** X3. On a board of 20 rows the scan of [lockPiece] returns exactly the
    indexes of the full rows, in strictly descending order, so that the sort
    made by the callback of the animation leaves the list as it is. *)
Theorem linesToClear_finds_full_rows (b : BoardMatrix) :
  length b = Z.to_nat BOARD_HEIGHT ->
  exists rows, linesToClear b = Ok rows /\
    (forall r, In r rows <-> fullAt b r) /\
    descending rows /\ sortDescending rows = rows.
Proof.
  intros Hlen. unfold linesToClear.
  destruct (fullRowsBelow_spec b (Z.to_nat BOARD_HEIGHT)) as (rows & Hrun & Hmem & _ & Hdesc);
    [lia|].
  exists rows. split; [assumption|]. split; [|split].
  - intros r. rewrite Hmem. split; [tauto|].
    intros Hfull. split; [|assumption].
    destruct Hfull as (line & Hline & _). apply lookup_lt_Some in Hline. lia.
  - assumption.
  - apply sortDescending_of_descending. assumption.
Qed.

Lemma linesToClear_finds_full_rows_witness :
  exists rows, linesToClear (board sampleLocked) = Ok rows /\
    (forall r, In r rows <-> fullAt (board sampleLocked) r).
Proof.
  destruct (linesToClear_finds_full_rows (board sampleLocked)) as (rows & Hrun & Hmem & _).
  - reflexivity.
  - exists rows. split; assumption.
Defined.

(** ** The two clear loops *)

Lemma filter_none_full (l : BoardMatrix) :
  Forall (fun line => isFullRow line = false) l ->
  List.filter isFullRow l = [] /\ List.filter (fun line => negb (isFullRow line)) l = l.
Proof.
  induction 1 as [|x l Hx _ [IH1 IH2]]; [split; reflexivity|].
  cbn [List.filter]. rewrite Hx. cbn [negb]. rewrite IH1, IH2. split; reflexivity.
Qed.

Lemma afterClear_rows_not_full (b : BoardMatrix) :
  Forall (fun line => isFullRow line = false) (afterClear b).
Proof.
  unfold afterClear. apply Forall_app. split.
  - apply Forall_replicate. reflexivity.
  - apply Forall_forall. intros line Hin.
    apply list_elem_of_In, List.filter_In in Hin as [_ Hnot].
    apply negb_true_iff in Hnot. assumption.
Qed.

Lemma afterClear_single (b : BoardMatrix) (r : nat) :
  fullAt b r -> (forall r', r' <> r -> ~ fullAt b r') ->
  afterClear b = emptyRow :: delete r b.
Proof.
  intros (x & Hx & Hfull) Honly.
  assert (Forall (fun line => isFullRow line = false) (take r b)) as Htake.
  { apply Forall_lookup. intros i line Hi.
    apply lookup_take_Some in Hi as [Hi Hlt].
    destruct (isFullRow line) eqn:Hf; [|reflexivity].
    exfalso. apply (Honly i); [lia|]. exists line. auto. }
  assert (Forall (fun line => isFullRow line = false) (drop (S r) b)) as Hdrop.
  { apply Forall_lookup. intros i line Hi. rewrite lookup_drop in Hi.
    destruct (isFullRow line) eqn:Hf; [|reflexivity].
    exfalso. apply (Honly (S r + i)%nat); [lia|]. exists line. auto. }
  apply filter_none_full in Htake as [Ht1 Ht2].
  apply filter_none_full in Hdrop as [Hd1 Hd2].
  rewrite delete_take_drop.
  unfold afterClear, fullRowCount.
  rewrite <- (take_drop_middle b r x Hx) at 1 2.
  rewrite !List.filter_app. cbn [List.filter]. rewrite Hfull. cbn [negb].
  rewrite Ht1, Ht2, Hd1, Hd2. reflexivity.
Qed.

Lemma settle_ok (b : BoardMatrix) (p : ActivePiece) (newBoard : BoardMatrix) :
  board_ok b -> settle b p = Ok newBoard -> board_ok newBoard.
Proof.
  intros Hok. unfold settle.
  destruct (matrices p !! rotation p) as [m|]; cbn [deref mbind outcome_bind];
    [|discriminate].
  destruct (lockRows_spec m 0 (position p) b Hok) as (b' & Hrun & Hok' & _).
  rewrite Hrun. intros H. injection H as <-. assumption.
Qed.

(** X4. The loop of the planner's evaluation, run on any board of 20 rows,
    ends within its fuel, counts the full rows, and returns a board of 20
    rows none of which is full: the rows that were not full, in their
    order, under as many empty rows. *)
Theorem simulated_clear_removes_every_full_row (b : BoardMatrix) :
  length b = Z.to_nat BOARD_HEIGHT ->
  exists cleared,
    clearFullRows clearFuel b (Z.to_nat BOARD_HEIGHT) 0
      = Ok (cleared, Z.of_nat (fullRowCount b)) /\
    cleared = replicate (fullRowCount b) emptyRow
              ++ List.filter (fun line => negb (isFullRow line)) b /\
    length cleared = Z.to_nat BOARD_HEIGHT /\
    Forall (fun line => isFullRow line = false) cleared.
Proof.
  intros Hlen. exists (afterClear b).
  split; [apply clearFullRows_total; assumption|].
  split; [reflexivity|]. split; [|apply afterClear_rows_not_full].
  unfold afterClear, fullRowCount. rewrite length_app, length_replicate, <- Hlen.
  clear Hlen. induction b as [|x b IH]; [reflexivity|].
  cbn [List.filter]. destruct (isFullRow x); cbn [negb length]; lia.
Qed.

Lemma simulated_clear_removes_every_full_row_witness :
  exists cleared,
    clearFullRows clearFuel (board sampleLocked) (Z.to_nat BOARD_HEIGHT) 0
      = Ok (cleared, Z.of_nat (fullRowCount (board sampleLocked))) /\
    Forall (fun line => isFullRow line = false) cleared.
Proof.
  destruct (simulated_clear_removes_every_full_row (board sampleLocked))
    as (cleared & Hrun & _ & _ & Hnone).
  - reflexivity.
  - exists cleared. split; assumption.
Defined.

(** X5. A turn that fills exactly one row is cleared rightly: when the
    animation ends the board is the locked board without that row and with
    an empty row on top, it has 20 rows of 10 cells and no full row is
    left. *)
Theorem single_row_clear_is_right (p : ActivePiece) (k1 k2 k3 k4 : nat) (g g1 : Game)
    (r : nat) :
  board_ok (board g) ->
  isLineClearingAnimationActive g = false ->
  lockPiece (Some p) k1 k2 g = Ok g1 ->
  isLineClearingAnimationActive g1 = true ->
  clearingRows g1 = [r] ->
  (k3 < length TETROMINOES)%nat -> (k4 < length TETROMINOES)%nat ->
  (forall q, nextPiecePreview g = Some q -> is_Some (matrices q !! rotation q)) ->
  fullAt (board g1) r /\
  exists g2, fireLineClear k3 k4 g1 = Ok g2 /\
    board g2 = emptyRow :: delete r (board g1) /\
    board g2 = afterClear (board g1) /\
    board_ok (board g2) /\
    (forall r', ~ fullAt (board g2) r').
Proof.
  intros Hok Hidle Hlock Hflag Hrows Hk3 Hk4 Hpre.
  destruct (lockPiece_enters_clearing p k1 k2 g g1 Hidle Hlock Hflag)
    as (newBoard & Hsettle & Hlines & _ & Hboard & _).
  pose proof (settle_ok (board g) p newBoard Hok Hsettle) as Hok1.
  rewrite <- Hboard in Hok1, Hlines.
  destruct (fullRowsBelow_spec (board g1) (Z.to_nat BOARD_HEIGHT))
    as (rows & Hrun & Hmem & _); [destruct Hok1; lia|].
  unfold linesToClear in Hlines. rewrite Hlines in Hrun. injection Hrun as <-.
  rewrite Hrows in Hmem.
  assert (fullAt (board g1) r) as Hfull by (apply Hmem; left; reflexivity).
  assert (forall r', r' <> r -> ~ fullAt (board g1) r') as Honly.
  { intros r' Hne Hf.
    assert (In r' [r]) as [Heq | []]; [|congruence].
    apply Hmem. split; [|assumption]. destruct Hf as (line & Hline & _).
    apply lookup_lt_Some in Hline. destruct Hok1. lia. }
  split; [assumption|].
  destruct (clearing_turn p k1 k2 k3 k4 g g1 Hidle Hlock Hflag Hk3 Hk4 Hpre)
    as (_ & g2 & Hfire & _ & _ & _ & _ & Hb2).
  rewrite Hrows in Hb2. change (board g2 = emptyRow :: delete r (board g1)) in Hb2.
  exists g2. split; [assumption|]. split; [assumption|].
  pose proof (afterClear_single (board g1) r Hfull Honly) as Hafter.
  split; [congruence|].
  split; [rewrite Hb2, <- Hafter; apply afterClear_ok; assumption|].
  intros r' (line & Hline & Hf).
  rewrite Hb2, <- Hafter in Hline.
  pose proof (afterClear_rows_not_full (board g1)) as Hnone.
  eapply Forall_lookup_1 in Hnone; eauto. cbv beta in Hnone. congruence.
Qed.

Lemma single_row_clear_is_right_witness :
  exists g1 g2,
    lockPiece (Some (pieceOf O_SHAPE 0 18 0)) 0 1
      (sessionWith 0 0 1 (replicate 19 emptyRow ++ [[0; 0] ++ replicate 8 1])
                   (Some (pieceOf O_SHAPE 0 18 0))) = Ok g1 /\
    fireLineClear 2 3 g1 = Ok g2 /\
    board g2 = emptyRow :: delete 19%nat (board g1).
Proof.
  pose (g := sessionWith 0 0 1 (replicate 19 emptyRow ++ [[0; 0] ++ replicate 8 1])
                         (Some (pieceOf O_SHAPE 0 18 0))).
  pose (g1 := match lockPiece (Some (pieceOf O_SHAPE 0 18 0)) 0 1 g with
              | Ok s => s | _ => g end).
  destruct (single_row_clear_is_right (pieceOf O_SHAPE 0 18 0) 0 1 2 3 g g1 19)
    as (_ & g2 & Hfire & Hboard & _).
  - split; [reflexivity | repeat constructor].
  - reflexivity.
  - vm_compute. reflexivity.
  - vm_compute. reflexivity.
  - vm_compute. reflexivity.
  - simpl. lia.
  - simpl. lia.
  - intros q Hq. vm_compute in Hq. discriminate.
  - exists g1, g2. split; [vm_compute; reflexivity|]. split; assumption.
Defined.

(** ** lockPiece: the two exits without animation *)

(** X6. When an occupied cell of the piece to lock lies above row 0,
    [lockPiece] ends the game: the phase is GameOver, there is no active
    piece, nothing is pending, and the board, the preview and the counters
    are as before. The cells of the piece are not written into the board
    that the session keeps. *)
Theorem lockPiece_above_top_ends_game (p : ActivePiece) (k1 k2 : nat) (g : Game)
    (m : list (list Z)) :
  board_ok (board g) ->
  isLineClearingAnimationActive g = false ->
  matrices p !! rotation p = Some m ->
  landsAboveTop m (row (position p)) ->
  exists g', lockPiece (Some p) k1 k2 g = Ok g' /\
    gameState g' = GameOver /\ currentPiece g' = None /\
    board g' = board g /\ nextPiecePreview g' = nextPiecePreview g /\
    score g' = score g /\ linesCleared g' = linesCleared g /\ level g' = level g /\
    fallInterval g' = fallInterval g /\
    isLineClearingAnimationActive g' = false /\ clearingRows g' = [] /\
    lineClearEffectTimeout g' = None /\ aiStepTimeout g' = false /\
    aiCurrentBestMove g' = None /\ aiActionInProgress g' = false.
Proof.
  intros Hok Hidle Hm Habove. unfold lockPiece. rewrite Hidle.
  destruct (lockRows_spec m 0 (position p) (board g) Hok) as (newBoard & Hrun & _ & _).
  unfold settle. rewrite Hm. cbn [deref mbind outcome_bind]. rewrite Hrun.
  cbn [mbind outcome_bind].
  apply occupiedAbove_true in Habove. rewrite Habove.
  eexists. split; [reflexivity|]. repeat split.
Qed.

Lemma lockPiece_above_top_ends_game_witness :
  exists g', lockPiece (Some (pieceOf O_SHAPE 0 (-1) 4)) 0 1
               (sessionWith 0 0 1 createEmptyBoard (Some (pieceOf O_SHAPE 0 (-1) 4))) = Ok g' /\
    gameState g' = GameOver /\ board g' = createEmptyBoard.
Proof.
  destruct (lockPiece_above_top_ends_game (pieceOf O_SHAPE 0 (-1) 4) 0 1
              (sessionWith 0 0 1 createEmptyBoard (Some (pieceOf O_SHAPE 0 (-1) 4)))
              (matrix O_SHAPE))
    as (g' & Hrun & Hover & _ & Hboard & _).
  - split; [reflexivity | repeat constructor].
  - reflexivity.
  - reflexivity.
  - exists 0%nat, 0%nat, [4; 4], 4.
    split; [reflexivity|]. split; [reflexivity|]. split; [discriminate|simpl; lia].
  - exists g'. split; [assumption|]. split; assumption.
Defined.

(** X7. When no occupied cell of the piece lies above row 0 and the locked
    board has no full row, [lockPiece] commits the locked board, leaves the
    counters as they are, takes the queued preview as the next piece (a
    fresh piece if nothing is queued) and queues a fresh preview. The next
    piece becomes the active piece unless it collides where it spawns; then
    the game is over and there is no active piece. The driver is disarmed
    in both cases. *)
Theorem lockPiece_without_full_row_spawns (p : ActivePiece) (k1 k2 : nat) (g : Game)
    (m : list (list Z)) (newBoard : BoardMatrix) (next fresh : ActivePiece) :
  isLineClearingAnimationActive g = false ->
  matrices p !! rotation p = Some m ->
  ~ landsAboveTop m (row (position p)) ->
  settle (board g) p = Ok newBoard ->
  linesToClear newBoard = Ok [] ->
  (nextPiecePreview g = Some next /\ spawnNewPiece k1 = Ok fresh) \/
  (nextPiecePreview g = None /\ spawnNewPiece k1 = Ok next /\ spawnNewPiece k2 = Ok fresh) ->
  is_Some (matrices next !! rotation next) ->
  exists g' hit, lockPiece (Some p) k1 k2 g = Ok g' /\
    checkCollision next (position next) newBoard = Ok hit /\
    board g' = newBoard /\ nextPiecePreview g' = Some fresh /\
    currentPiece g' = (if hit then None else Some next) /\
    gameState g' = (if hit then GameOver else gameState g) /\
    score g' = score g /\ linesCleared g' = linesCleared g /\ level g' = level g /\
    fallInterval g' = fallInterval g /\
    isLineClearingAnimationActive g' = false /\
    aiStepTimeout g' = false /\ aiCurrentBestMove g' = None /\
    aiActionInProgress g' = false.
Proof.
  intros Hidle Hm Hnot Hsettle Hlines Hnext [mn Hmn].
  unfold lockPiece. rewrite Hidle, Hsettle, Hm. cbn [deref mbind outcome_bind].
  destruct (occupiedAbove m (row (position p))) eqn:Habove.
  { apply occupiedAbove_true in Habove. contradiction. }
  rewrite Hlines. cbn [mbind outcome_bind].
  assert (takeNextPiece (nextPiecePreview g) k1 k2 (setBoard newBoard g)
          = Ok (next, setNextPiecePreview (Some fresh) (setBoard newBoard g))) as Htake.
  { unfold takeNextPiece.
    destruct Hnext as [[-> ->] | (-> & -> & Hk2)]; cbn [mbind outcome_bind];
      [reflexivity|]. rewrite Hk2. reflexivity. }
  rewrite Htake. cbn [mbind outcome_bind].
  unfold placeNextPiece, checkCollision. rewrite Hmn. cbn [deref mbind outcome_bind].
  destruct (collidesFromRow mn 0 (position next) newBoard) eqn:Hhit.
  - eexists. exists true. split; [reflexivity|]. repeat split; exact Hidle.
  - eexists. exists false. split; [reflexivity|]. repeat split; exact Hidle.
Qed.

Lemma lockPiece_without_full_row_spawns_witness :
  exists g', lockPiece (Some (pieceOf O_SHAPE 0 18 4)) 0 1
               (sessionWith 0 0 1 createEmptyBoard (Some (pieceOf O_SHAPE 0 18 4))) = Ok g' /\
    currentPiece g' = Some (pieceOf I_SHAPE 0 0 3) /\
    nextPiecePreview g' = Some (pieceOf L_SHAPE 0 0 4).
Proof.
  pose (g := sessionWith 0 0 1 createEmptyBoard (Some (pieceOf O_SHAPE 0 18 4))).
  pose (nb := match settle createEmptyBoard (pieceOf O_SHAPE 0 18 4) with
              | Ok b => b | _ => [] end).
  destruct (lockPiece_without_full_row_spawns (pieceOf O_SHAPE 0 18 4) 0 1 g
              (matrix O_SHAPE) nb (pieceOf I_SHAPE 0 0 3) (pieceOf L_SHAPE 0 0 4))
    as (g' & hit & Hrun & Hhit & _ & Hpre & Hcur & _).
  - reflexivity.
  - reflexivity.
  - intros (r & c & cells & v & _ & _ & _ & Hlt). simpl in Hlt. lia.
  - vm_compute. reflexivity.
  - vm_compute. reflexivity.
  - right. split; [reflexivity|]. split; reflexivity.
  - vm_compute. eauto.
  - exists g'. split; [exact Hrun|]. split; [|exact Hpre].
    vm_compute in Hhit. injection Hhit as <-. exact Hcur.
Defined.

(** ** Movement and rotation keep the piece legal *)

Lemma firstFree_free (rp : ActivePiece) (candidates : list Position) (b : BoardMatrix)
    (pos : Position) :
  firstFree rp candidates b = Ok (Some pos) -> checkCollision rp pos b = Ok false.
Proof.
  induction candidates as [|c rest IH]; cbn [firstFree]; [discriminate|].
  destruct (checkCollision rp c b) as [hit| |] eqn:Hhit; cbn [mbind outcome_bind];
    try discriminate.
  destruct hit; [exact IH|].
  intros H. injection H as <-. assumption.
Qed.

Lemma actingPiece_Some (g : Game) (p : ActivePiece) :
  actingPiece g = Some p ->
  currentPiece g = Some p /\ isPlaying g = true /\ isLineClearingAnimationActive g = false.
Proof.
  unfold actingPiece. destruct (currentPiece g) as [q|]; [|discriminate].
  destruct (isPlaying g); [|discriminate].
  destruct (isLineClearingAnimationActive g); [discriminate|].
  intros H. injection H as ->. auto.
Qed.

(** X8. A rotation that [rotatePiece] commits keeps the shape and the
    matrices, advances the rotation index by one modulo the number of
    matrices, and puts the piece where it does not collide: at its place,
    or one or two columns to either side in the same row, or, from row 1 or
    above, one row up (two for the I shape) in the same column. A rejected
    rotation changes nothing at all. *)
Theorem rotatePiece_commits_only_legal (g g' : Game) :
  rotatePiece g = Ok g' ->
  g' = g \/
  exists p p',
    actingPiece g = Some p /\ g' = setCurrentPiece (Some p') g /\
    shape p' = shape p /\ matrices p' = matrices p /\
    rotation p' = ((rotation p + 1) mod length (matrices p))%nat /\
    checkCollision p' (position p') (board g) = Ok false /\
    (position p' = position p \/
     (row (position p') = row (position p) /\
      In (col (position p') - col (position p)) [-1; 1; -2; 2]) \/
     (col (position p') = col (position p) /\ row (position p) <= 1 /\
      (row (position p') = row (position p) - 1 \/
       (row (position p') = row (position p) - 2 /\ id (shape p) = "I"%string)))).
Proof.
  unfold rotatePiece. intros Hrun.
  destruct (actingPiece g) as [p|] eqn:Hact.
  2:{ injection Hrun as <-. left; reflexivity. }
  destruct (rotated p (board g)) as [r| |] eqn:Hrot; cbn [mbind outcome_bind] in Hrun;
    try discriminate.
  injection Hrun as <-.
  destruct r as [p'|]; [|left; reflexivity].
  right. exists p, p'.
  split; [reflexivity|]. split; [reflexivity|].
  unfold rotated in Hrot.
  set (rp := withRotation p _) in Hrot.
  set (side := firstFree rp (horizontalKicks (position p)) (board g)) in Hrot.
  set (up2 := firstFree rp [shiftedBy (position p) (-1) 0;
                            shiftedBy (position p) (-2) 0] (board g)) in Hrot.
  set (up1 := firstFree rp [shiftedBy (position p) (-1) 0] (board g)) in Hrot.
  destruct (checkCollision rp (position p) (board g)) as [hit| |] eqn:Hhit;
    cbn [mbind outcome_bind] in Hrot; try discriminate.
  destruct hit.
  2:{ injection Hrot as <-. repeat split; [exact Hhit|left; reflexivity]. }
  destruct side as [sideways| |] eqn:Hside;
    cbn [mbind outcome_bind] in Hrot; try discriminate.
  destruct sideways as [pos|].
  { injection Hrot as <-. repeat split.
    - apply firstFree_free in Hside. exact Hside.
    - right. left. apply firstFree_In in Hside. cbn in Hside.
      destruct Hside as [<- | [<- | [<- | [<- | []]]]]; cbn; (split; [lia|]).
      + left. lia.
      + right. left. lia.
      + right. right. left. lia.
      + right. right. right. left. lia. }
  destruct ((id (shape p) =? "I")%string && (row (position p) <=? 1)) eqn:HI.
  - apply andb_true_iff in HI as [HI Hrow].
    apply String.eqb_eq in HI. apply Z.leb_le in Hrow.
    destruct up2 as [up| |] eqn:Hup; cbn [mbind outcome_bind] in Hrot; try discriminate.
    destruct up as [pos|]; cbn in Hrot; [|discriminate].
    injection Hrot as <-. repeat split.
    + apply firstFree_free in Hup. exact Hup.
    + right. right. apply firstFree_In in Hup. cbn in Hup.
      destruct Hup as [<- | [<- | []]]; cbn; (split; [lia|]); (split; [assumption|]).
      * left. lia.
      * right. split; [lia|assumption].
  - destruct (row (position p) <=? 1) eqn:Hrow; [|discriminate].
    apply Z.leb_le in Hrow.
    destruct up1 as [up| |] eqn:Hup; cbn [mbind outcome_bind] in Hrot; try discriminate.
    destruct up as [pos|]; cbn in Hrot; [|discriminate].
    injection Hrot as <-. repeat split.
    + apply firstFree_free in Hup. exact Hup.
    + right. right. apply firstFree_In in Hup. cbn in Hup.
      destruct Hup as [<- | []]; cbn; (split; [lia|]); (split; [assumption|]).
      left. lia.
Qed.

Lemma rotatePiece_commits_only_legal_witness :
  exists g',
    rotatePiece (sessionWith 0 0 1 stackUnderT (Some (pieceOf T_SHAPE 0 1 4))) = Ok g' /\
    (g' = sessionWith 0 0 1 stackUnderT (Some (pieceOf T_SHAPE 0 1 4)) \/
     exists p', currentPiece g' = Some p' /\
                checkCollision p' (position p') stackUnderT = Ok false).
Proof.
  pose (g := sessionWith 0 0 1 stackUnderT (Some (pieceOf T_SHAPE 0 1 4))).
  pose (g' := match rotatePiece g with Ok s => s | _ => g end).
  exists g'. split; [vm_compute; reflexivity|].
  destruct (rotatePiece_commits_only_legal g g') as [Hsame | (p & p' & _ & Hg' & _ & _ & _ & Hfree & _)].
  - vm_compute. reflexivity.
  - left. exact Hsame.
  - right. exists p'. split; [rewrite Hg'; reflexivity | exact Hfree].
Defined.

Lemma movePiece_inv (dRow dCol : Z) (g g' : Game) (moved : bool) :
  movePiece dRow dCol g = Ok (moved, g') ->
  (moved = false -> g' = g) /\
  (moved = true ->
   exists p,
     actingPiece g = Some p /\
     g' = setCurrentPiece
            (Some (withPosition p (shiftedBy (position p) dRow dCol))) g /\
     checkCollision p (shiftedBy (position p) dRow dCol) (board g) = Ok false).
Proof.
  unfold movePiece. intros Hrun.
  destruct (actingPiece g) as [p|] eqn:Hact.
  2:{ injection Hrun as <- <-. split; [reflexivity|discriminate]. }
  fold (shiftedBy (position p) dRow dCol) in Hrun.
  destruct (checkCollision p (shiftedBy (position p) dRow dCol) (board g)) as [hit| |] eqn:Hhit;
    cbn [mbind outcome_bind] in Hrun; try discriminate.
  destruct hit; injection Hrun as <- <-.
  - split; [reflexivity|discriminate].
  - split; [discriminate|]. intros _. exists p.
    apply actingPiece_Some in Hact as (Hcur & _). rewrite Hcur.
    split; [reflexivity|]. split; [reflexivity|exact Hhit].
Qed.

(** X9. [movePiece] returns true exactly when it moved the piece: then the
    piece is the same piece at the shifted position, which is free of
    collision; when it returns false the session is unchanged. The board,
    the phase and the counters are untouched either way. *)
Theorem movePiece_moves_only_to_free_cells (dRow dCol : Z) (g g' : Game) (moved : bool) :
  movePiece dRow dCol g = Ok (moved, g') ->
  board g' = board g /\ gameState g' = gameState g /\ score g' = score g /\
  linesCleared g' = linesCleared g /\ level g' = level g /\
  (moved = false -> g' = g) /\
  (moved = true ->
   exists p,
     actingPiece g = Some p /\
     currentPiece g' = Some (withPosition p (shiftedBy (position p) dRow dCol)) /\
     shiftedBy (position p) dRow dCol
       = {| row := row (position p) + dRow; col := col (position p) + dCol |} /\
     checkCollision p (shiftedBy (position p) dRow dCol) (board g) = Ok false).
Proof.
  intros Hrun. destruct (movePiece_inv dRow dCol g g' moved Hrun) as [Hstay Hmoved].
  destruct moved.
  - destruct (Hmoved eq_refl) as (p & Hact & -> & Hfree).
    repeat match goal with |- _ /\ _ => split end; try reflexivity.
    + discriminate.
    + intros _. exists p. repeat split; assumption.
  - rewrite (Hstay eq_refl).
    repeat match goal with |- _ /\ _ => split end; try reflexivity.
    discriminate.
Qed.

Lemma movePiece_moves_only_to_free_cells_witness :
  exists g', movePiece 0 (-1) (sessionWith 0 0 1 createEmptyBoard (Some spawnedO))
             = Ok (true, g') /\
    currentPiece g' = Some (withPosition spawnedO {| row := 0; col := 3 |}).
Proof.
  pose (g := sessionWith 0 0 1 createEmptyBoard (Some spawnedO)).
  pose (g' := match movePiece 0 (-1) g with Ok (_, s) => s | _ => g end).
  destruct (movePiece_moves_only_to_free_cells 0 (-1) g g' true)
    as (_ & _ & _ & _ & _ & _ & Hmoved).
  - vm_compute. reflexivity.
  - destruct (Hmoved eq_refl) as (p & Hact & Hg' & _).
    exists g'. split; [vm_compute; reflexivity|].
    vm_compute in Hact. injection Hact as <-. rewrite Hg'. reflexivity.
Defined.

(** X10. A move that succeeded is undone by the opposite move: from a
    session whose piece is legal where it stands, moving by (dRow, dCol)
    and then by (-dRow, -dCol) succeeds twice and gives the session back. *)
Theorem movePiece_there_and_back (dRow dCol : Z) (g g1 : Game) (p : ActivePiece) :
  actingPiece g = Some p ->
  checkCollision p (position p) (board g) = Ok false ->
  movePiece dRow dCol g = Ok (true, g1) ->
  movePiece (- dRow) (- dCol) g1 = Ok (true, g).
Proof.
  intros Hact Hfree Hmove.
  pose proof (actingPiece_Some g p Hact) as (Hcur & Hplay & Hidle).
  destruct (movePiece_inv dRow dCol g g1 true Hmove) as [_ Hmoved].
  destruct (Hmoved eq_refl) as (q & Hq & -> & _).
  assert (q = p) as -> by congruence.
  unfold movePiece, actingPiece, isPlaying in *. cbn.
  destruct (gameState g); try discriminate. rewrite Hidle. cbn.
  assert ({| row := row (position p) + dRow + - dRow;
             col := col (position p) + dCol + - dCol |} = position p) as Hback.
  { destruct (position p) as [r c]. cbn. f_equal; lia. }
  rewrite Hback.
  change (checkCollision (withPosition p _) (position p) (board g))
    with (checkCollision p (position p) (board g)).
  rewrite Hfree. cbn. f_equal. f_equal.
  destruct g; cbn in *. subst. destruct p; reflexivity.
Qed.

Lemma movePiece_there_and_back_witness :
  exists g1, movePiece 0 1 (sessionWith 0 0 1 createEmptyBoard (Some spawnedO)) = Ok (true, g1) /\
    movePiece (- 0) (- 1) g1 = Ok (true, sessionWith 0 0 1 createEmptyBoard (Some spawnedO)).
Proof.
  pose (g := sessionWith 0 0 1 createEmptyBoard (Some spawnedO)).
  pose (g1 := match movePiece 0 1 g with Ok (_, s) => s | _ => g end).
  exists g1. split; [vm_compute; reflexivity|].
  apply (movePiece_there_and_back 0 1 g g1 spawnedO); vm_compute; reflexivity.
Defined.

(** ** The descent of hardDrop *)

Lemma descend_spec (p : ActivePiece) (c : Z) (b : BoardMatrix) :
  forall fuel r r', descend fuel p r c b = Ok r' ->
    r <= r' /\
    checkCollision p {| row := r' + 1; col := c |} b = Ok true /\
    (forall x, r < x <= r' -> checkCollision p {| row := x; col := c |} b = Ok false).
Proof.
  induction fuel as [|k IH]; intros r r' Hrun; [discriminate|].
  cbn [descend] in Hrun.
  destruct (checkCollision p {| row := r + 1; col := c |} b) as [hit| |] eqn:Hhit;
    cbn [mbind outcome_bind] in Hrun; try discriminate.
  destruct hit.
  - injection Hrun as <-. split; [lia|]. split; [assumption|]. intros x Hx. lia.
  - destruct (IH (r + 1) r' Hrun) as (Hle & Hrest & Hfree).
    split; [lia|]. split; [assumption|].
    intros x Hx. destruct (Z.eq_dec x (r + 1)) as [->|Hne]; [assumption|].
    apply Hfree. lia.
Qed.

(** X11. [hardDrop] on a legal piece with an occupied cell ends its loop
    and locks the piece at its resting row: the row is at or below the row
    the piece had and above the floor, every row passed on the way is free,
    the piece is free at the resting row and collides one row further down;
    the column and the rotation are kept. *)
Theorem hardDrop_locks_at_resting_row (k1 k2 : nat) (g : Game) (p : ActivePiece) :
  actingPiece g = Some p ->
  piece_ok p ->
  checkCollision p (position p) (board g) = Ok false ->
  exists rest,
    hardDrop k1 k2 g =
      lockPiece (Some (withPosition p {| row := rest; col := col (position p) |})) k1 k2 g /\
    row (position p) <= rest < BOARD_HEIGHT /\
    (forall x, row (position p) <= x <= rest ->
       checkCollision p {| row := x; col := col (position p) |} (board g) = Ok false) /\
    checkCollision p {| row := rest + 1; col := col (position p) |} (board g) = Ok true.
Proof.
  intros Hact Hok Hfree.
  destruct (piece_ok_matrix p Hok) as (m & Hm & Hocc).
  destruct (descend_total p m (col (position p)) (board g) Hm Hocc
              (descentBound (row (position p))) (row (position p)))
    as (rest & Hrun & Hle); [lia|].
  destruct (descend_spec p (col (position p)) (board g) _ _ _ Hrun) as (_ & Hblocked & Hpassed).
  assert (forall x, row (position p) <= x <= rest ->
            checkCollision p {| row := x; col := col (position p) |} (board g) = Ok false)
    as Hall.
  { intros x Hx. destruct (Z.eq_dec x (row (position p))) as [->|Hne].
    - destruct (position p); exact Hfree.
    - apply Hpassed. lia. }
  exists rest. unfold hardDrop. rewrite Hact, Hrun. cbn [mbind outcome_bind].
  split; [reflexivity|]. split; [|split; assumption].
  split; [assumption|].
  destruct (Z.lt_ge_cases rest BOARD_HEIGHT) as [Hlt|Hge]; [assumption|].
  specialize (Hall rest ltac:(lia)).
  rewrite (checkCollision_below_board p m rest (col (position p)) (board g) Hm Hocc Hge)
    in Hall.
  discriminate.
Qed.

Lemma hardDrop_locks_at_resting_row_witness :
  exists rest,
    hardDrop 0 1 (sessionWith 0 0 1 createEmptyBoard (Some spawnedO)) =
      lockPiece (Some (withPosition spawnedO {| row := rest; col := 4 |})) 0 1
                (sessionWith 0 0 1 createEmptyBoard (Some spawnedO)) /\
    0 <= rest < BOARD_HEIGHT.
Proof.
  destruct (hardDrop_locks_at_resting_row 0 1
              (sessionWith 0 0 1 createEmptyBoard (Some spawnedO)) spawnedO)
    as (rest & Hrun & Hrange & _).
  - reflexivity.
  - apply piece_ok_by_test. vm_compute. reflexivity.
  - vm_compute. reflexivity.
  - exists rest. split; assumption.
Defined.

(** ** Commands outside manual play *)

(** X12. Key commands and gravity act only in manual play: when the AI is
    switched on, or the phase is not Playing, or there is no active piece,
    every key and every gravity tick leaves the session exactly as it is. *)
Theorem keys_and_gravity_need_manual_play (g : Game) (key : Key) (due : bool) (k1 k2 : nat) :
  isAiActive g = true \/ isPlaying g = false \/ currentPiece g = None ->
  handleKeyDown key k1 k2 g = Ok g /\ gravityTick due k1 k2 g = Ok g.
Proof.
  intros Hcase. unfold handleKeyDown, gravityTick.
  destruct (isLineClearingAnimationActive g); [rewrite !andb_false_r; auto|].
  destruct Hcase as [Hai | [Hplay | Hnone]].
  - rewrite Hai. destruct (isPlaying g); cbn; auto.
    destruct (bool_decide _); auto.
  - rewrite Hplay. rewrite andb_false_r. cbn. auto.
  - rewrite Hnone.
    destruct (isAiActive g), (isPlaying g); cbn; auto.
Qed.

Lemma keys_and_gravity_need_manual_play_witness :
  handleKeyDown Space 0 1 (toggleAi sampleSession) = Ok (toggleAi sampleSession) /\
  gravityTick true 0 1 (toggleAi sampleSession) = Ok (toggleAi sampleSession).
Proof.
  apply keys_and_gravity_need_manual_play. left. reflexivity.
Defined.

(** ** The planner: what it returns *)

Lemma scoreGt_irrefl (a : Score) : scoreGt a a = false.
Proof. destruct a; cbn; [reflexivity|apply Z.ltb_irrefl]. Qed.

Lemma scoreGt_asym (a b : Score) : scoreGt a b = true -> scoreGt b a = false.
Proof.
  destruct a, b; cbn; try congruence. intros H. apply Z.ltb_lt in H. apply Z.ltb_ge. lia.
Qed.

Lemma scoreGt_le_trans (a b c : Score) :
  scoreGt a b = false -> scoreGt b c = false -> scoreGt a c = false.
Proof.
  destruct a, b, c; cbn; try congruence.
  intros H1 H2. apply Z.ltb_ge in H1, H2. apply Z.ltb_ge. lia.
Qed.

Lemma scoreGt_le_lt (a b c : Score) :
  scoreGt a b = false -> scoreGt c b = true -> scoreGt c a = true.
Proof.
  destruct a, b, c; cbn; try congruence.
  intros H1 H2. apply Z.ltb_ge in H1. apply Z.ltb_lt in H2. apply Z.ltb_lt. lia.
Qed.

Lemma better_None_r (best : option AiMove) : better best None = best.
Proof. reflexivity. Qed.

Lemma better_None_l (cand : option AiMove) : better None cand = cand.
Proof. destruct cand; reflexivity. Qed.

Lemma better_assoc (a b c : option AiMove) :
  better (better a b) c = better a (better b c).
Proof.
  destruct c as [z|]; [|reflexivity].
  destruct b as [y|]; [|destruct a; reflexivity].
  destruct a as [x|].
  2:{ cbn. destruct (scoreGt (Move.score z) (Move.score y)); reflexivity. }
  cbn.
  destruct (scoreGt (Move.score y) (Move.score x)) eqn:Hyx;
    destruct (scoreGt (Move.score z) (Move.score y)) eqn:Hzy; cbn;
    rewrite ?Hyx, ?Hzy; try reflexivity.
  - rewrite (scoreGt_le_lt _ _ _ (scoreGt_asym _ _ Hyx) Hzy). reflexivity.
  - destruct (scoreGt (Move.score z) (Move.score x)) eqn:Hzx; [|reflexivity].
    rewrite (scoreGt_le_trans _ _ _ Hzy Hyx) in Hzx. discriminate.
Qed.

Lemma forEachM_ext {A S : Type} (f g : S -> A -> outcome S) (l : list A) (s : S) :
  (forall s a, f s a = g s a) -> forEachM f l s = forEachM g l s.
Proof.
  intros Hext. revert s. induction l as [|a l IH]; intros s; [reflexivity|].
  cbn [forEachM]. rewrite Hext. destruct (g s a); cbn [mbind outcome_bind]; auto.
Qed.

(** A loop that folds [better] over the results of [f]. *)
Lemma select_from_best {A : Type} (f : A -> outcome (option AiMove)) (l : list A)
    (best : option AiMove) :
  forEachM (fun bm a => f a ≫= fun cand => Ok (better bm cand)) l best =
  forEachM (fun bm a => f a ≫= fun cand => Ok (better bm cand)) l None
    ≫= fun m => Ok (better best m).
Proof.
  revert best. induction l as [|a l IH]; intros best; [reflexivity|].
  cbn [forEachM].
  destruct (f a) as [cand| |]; cbn [mbind outcome_bind]; try reflexivity.
  rewrite (IH (better best cand)), (IH (better None cand)).
  destruct (forEachM _ l None) as [m| |]; cbn [mbind outcome_bind]; try reflexivity.
  rewrite better_None_l, better_assoc. reflexivity.
Qed.

Lemma select_first_best {A : Type} (f : A -> outcome (option AiMove)) (l : list A)
    (res : option AiMove) :
  forEachM (fun bm a => f a ≫= fun cand => Ok (better bm cand)) l None = Ok res ->
  (forall a, In a l -> exists cand, f a = Ok cand) /\
  (res = None -> forall a, In a l -> f a = Ok None) /\
  (forall mv, res = Some mv ->
     (forall a x, In a l -> f a = Ok (Some x) ->
        scoreGt (Move.score x) (Move.score mv) = false) /\
     exists l1 a l2,
       l = l1 ++ a :: l2 /\ f a = Ok (Some mv) /\
       (forall a' x, In a' l1 -> f a' = Ok (Some x) ->
          scoreGt (Move.score mv) (Move.score x) = true)).
Proof.
  revert res. induction l as [|a l IH]; intros res Hrun.
  - injection Hrun as <-. split; [intros a []|]. split; [intros _ a []|discriminate].
  - cbn [forEachM] in Hrun.
    destruct (f a) as [cand| |] eqn:Hfa; cbn [mbind outcome_bind] in Hrun; try discriminate.
    rewrite select_from_best in Hrun.
    destruct (forEachM _ l None) as [m| |] eqn:Hrest; cbn [mbind outcome_bind] in Hrun;
      try discriminate.
    injection Hrun as <-. rewrite better_None_l.
    destruct (IH m eq_refl) as (Hall & Hnone & Hsome).
    split; [|split].
    + intros a' [<- | Hin]; [eauto|apply Hall; assumption].
    + intros Hres a' [<- | Hin].
      * destruct cand as [x|]; [|assumption]. destruct m as [y|]; cbn in Hres;
          [destruct (scoreGt _ _)|]; discriminate.
      * apply Hnone; [|assumption].
        destruct m as [y|]; [|reflexivity]. destruct cand as [x|]; cbn in Hres;
          [destruct (scoreGt _ _)|]; discriminate.
    + intros mv Hres. destruct cand as [x|].
      * destruct m as [y|].
        -- cbn in Hres. destruct (Hsome y eq_refl) as (Hmax & l1 & a1 & l2 & -> & Hf1 & Hbefore).
           destruct (scoreGt (Move.score y) (Move.score x)) eqn:Hyx; injection Hres as <-.
           ++ split.
              ** intros a' z [<- | Hin] Hz.
                 --- rewrite Hfa in Hz. injection Hz as <-. apply scoreGt_asym. assumption.
                 --- apply (Hmax a'); assumption.
              ** exists (a :: l1), a1, l2. split; [reflexivity|]. split; [assumption|].
                 intros a' z [<- | Hin] Hz.
                 --- rewrite Hfa in Hz. injection Hz as <-. assumption.
                 --- apply (Hbefore a'); assumption.
           ++ split.
              ** intros a' z [<- | Hin] Hz.
                 --- rewrite Hfa in Hz. injection Hz as <-. apply scoreGt_irrefl.
                 --- apply (scoreGt_le_trans _ (Move.score y)); [|assumption].
                     apply (Hmax a'); assumption.
              ** exists [], a, (l1 ++ a1 :: l2). split; [reflexivity|]. split; [assumption|].
                 intros a' z [].
        -- cbn in Hres. injection Hres as <-. split.
           ++ intros a' z [<- | Hin] Hz.
              ** rewrite Hfa in Hz. injection Hz as <-. apply scoreGt_irrefl.
              ** rewrite (Hnone eq_refl a' Hin) in Hz. discriminate.
           ++ exists [], a, l. split; [reflexivity|]. split; [assumption|]. intros a' z [].
      * rewrite better_None_l in Hres. subst m.
        destruct (Hsome mv eq_refl) as (Hmax & l1 & a1 & l2 & -> & Hf1 & Hbefore).
        split.
        -- intros a' z [<- | Hin] Hz; [congruence|]. apply (Hmax a'); assumption.
        -- exists (a :: l1), a1, l2. split; [reflexivity|]. split; [assumption|].
           intros a' z [<- | Hin] Hz; [congruence|]. apply (Hbefore a'); assumption.
Qed.

Lemma map_seq_split {A : Type} (g : nat -> A) (n : nat) (l1 : list A) (x : A) (l2 : list A) :
  map g (seq 0 n) = l1 ++ x :: l2 ->
  l1 = map g (seq 0 (length l1)) /\ x = g (length l1) /\ (length l1 < n)%nat.
Proof.
  intros Hsplit.
  assert (length l1 < n)%nat as Hlt.
  { apply (f_equal (@length A)) in Hsplit.
    rewrite length_map, length_seq, length_app in Hsplit. cbn in Hsplit. lia. }
  split; [|split; [|assumption]].
  - rewrite <- (take_app_length l1 (x :: l2)), <- Hsplit, firstn_map, take_seq.
    rewrite Nat.min_l by lia. rewrite length_map, length_seq. reflexivity.
  - pose proof (lookup_map_seq g n 0 (length l1) Hlt) as Hlook.
    rewrite Hsplit, list_lookup_middle in Hlook by reflexivity.
    injection Hlook as ->. reflexivity.
Qed.

Lemma tryColumn_select (piece : ActivePiece) (b : BoardMatrix) (rot : nat)
    (best : option AiMove) (c : Z) :
  tryColumn piece b rot best c =
  tryColumn piece b rot None c ≫= fun cand => Ok (better best cand).
Proof.
  unfold tryColumn.
  set (tp := withPosition (withRotation piece rot) {| row := 0; col := c |}).
  destruct (checkCollision tp {| row := 0; col := c |} b) as [hit| |];
    cbn [mbind outcome_bind]; try reflexivity.
  set (entry := if hit : bool then _ else _).
  destruct entry as [e| |]; cbn [mbind outcome_bind]; try reflexivity.
  destruct e as [simulatedRow|]; [|reflexivity].
  destruct (descend _ tp simulatedRow c b) as [finalDropRow| |];
    cbn [mbind outcome_bind]; try reflexivity.
  destruct (evaluateBoardState b _ finalDropRow) as [scoreForMove| |];
    cbn [mbind outcome_bind]; reflexivity.
Qed.

Lemma tryRotation_select (piece : ActivePiece) (b : BoardMatrix) (best : option AiMove)
    (rot : nat) :
  tryRotation piece b best rot =
  tryRotation piece b None rot ≫= fun m => Ok (better best m).
Proof.
  unfold tryRotation.
  destruct (deref (matrices piece !! rot)) as [m| |]; cbn [mbind outcome_bind];
    try reflexivity.
  destruct (columnExtent m) as [[[minC maxC] empty]| |]; cbn [mbind outcome_bind];
    try reflexivity.
  destruct empty; [reflexivity|].
  rewrite (forEachM_ext (tryColumn piece b rot)
             (fun bm c => tryColumn piece b rot None c ≫= fun cand => Ok (better bm cand)))
    by (intros; apply tryColumn_select).
  rewrite (forEachM_ext (tryColumn piece b rot)
             (fun bm c => tryColumn piece b rot None c ≫= fun cand => Ok (better bm cand))
             _ None)
    by (intros; apply tryColumn_select).
  apply select_from_best.
Qed.

(** The placement evaluated for one rotation and column. *)
Lemma tryColumn_candidate (piece : ActivePiece) (b : BoardMatrix) (rot : nat) (c : Z)
    (cand : AiMove) :
  tryColumn piece b rot None c = Ok (Some cand) ->
  let tp := withRotation piece rot in
  targetRotation cand = rot /\ targetCol cand = c /\ - 3 <= finalRow cand /\
  checkCollision tp {| row := finalRow cand; col := c |} b = Ok false /\
  checkCollision tp {| row := finalRow cand + 1; col := c |} b = Ok true /\
  evaluateBoardState b (withPosition tp {| row := finalRow cand; col := c |}) (finalRow cand)
    = Ok (Move.score cand).
Proof.
  intros Hrun tp. unfold tryColumn in Hrun.
  change (withPosition (withRotation piece rot) {| row := 0; col := c |})
    with (withPosition tp {| row := 0; col := c |}) in Hrun.
  set (tp0 := withPosition tp {| row := 0; col := c |}) in Hrun.
  assert (forall pos, checkCollision tp0 pos b = checkCollision tp pos b) as Hsame
    by reflexivity.
  destruct (checkCollision tp0 {| row := 0; col := c |} b) as [hit| |] eqn:Hhit;
    cbn [mbind outcome_bind] in Hrun; try discriminate.
  assert (exists start, - 3 <= start /\
            checkCollision tp {| row := start; col := c |} b = Ok false /\
            descend (descentBound start) tp0 start c b ≫= (fun finalDropRow =>
              evaluateBoardState b (withPosition tp0 {| row := finalDropRow; col := c |})
                finalDropRow ≫= fun scoreForMove =>
              Ok (Some {| targetRotation := rot; targetCol := c;
                          Move.score := scoreForMove; finalRow := finalDropRow |}))
            = Ok (Some cand)) as (start & Hstart & Hfree & Hrest).
  { destruct hit.
    - destruct (firstFree tp0 _ b) as [higher| |] eqn:Hprobe;
        cbn [mbind outcome_bind] in Hrun; try discriminate.
      destruct higher as [pos|]; cbn in Hrun; [|discriminate].
      pose proof (firstFree_free _ _ _ _ Hprobe) as Hposfree.
      apply firstFree_In in Hprobe. cbn in Hprobe.
      exists (row pos). rewrite <- Hsame.
      destruct Hprobe as [<- | [<- | [<- | []]]]; cbn in *;
        (split; [lia|]); (split; [assumption|exact Hrun]).
    - cbn in Hrun. exists 0. split; [lia|]. split; [rewrite <- Hsame; assumption|exact Hrun]. }
  destruct (descend (descentBound start) tp0 start c b) as [finalDropRow| |] eqn:Hdrop;
    cbn [mbind outcome_bind] in Hrest; try discriminate.
  destruct (evaluateBoardState b _ finalDropRow) as [scoreForMove| |] eqn:Heval;
    cbn [mbind outcome_bind] in Hrest; try discriminate.
  injection Hrest as <-. cbn.
  destruct (descend_spec tp0 c b _ _ _ Hdrop) as (Hle & Hblocked & Hpassed).
  split; [reflexivity|]. split; [reflexivity|]. split; [lia|].
  split; [|split; [rewrite <- Hsame; assumption|exact Heval]].
  destruct (Z.eq_dec finalDropRow start) as [->|Hne]; [assumption|].
  rewrite <- Hsame. apply Hpassed. lia.
Qed.

Lemma colsFromTo_In (lo hi c : Z) : In c (colsFromTo lo hi) <-> lo <= c <= hi.
Proof.
  unfold colsFromTo. rewrite in_map_iff. split.
  - intros (i & <- & Hi). apply in_seq in Hi. lia.
  - intros Hc. exists (Z.to_nat (c - lo)). split; [lia|]. apply in_seq. lia.
Qed.

Lemma calculateBestMove_as_selection (piece : ActivePiece) (b : BoardMatrix) :
  calculateBestMove piece b =
  forEachM (fun bm rot => tryRotation piece b None rot ≫= fun m => Ok (better bm m))
           (seq 0 (length (matrices piece))) None.
Proof.
  unfold calculateBestMove. apply forEachM_ext. intros. apply tryRotation_select.
Qed.

Lemma tryRotation_None_inv (piece : ActivePiece) (b : BoardMatrix) (rot : nat)
    (r : option AiMove) :
  tryRotation piece b None rot = Ok r ->
  exists m minC maxC empty,
    matrices piece !! rot = Some m /\ columnExtent m = Ok (minC, maxC, empty) /\
    (if empty : bool then r = None
     else forEachM (fun bm c => tryColumn piece b rot None c ≫= fun cand => Ok (better bm cand))
                   (colsFromTo (- minC) (BOARD_WIDTH - 1 - maxC)) None = Ok r).
Proof.
  unfold tryRotation. intros Hrun.
  destruct (matrices piece !! rot) as [m|] eqn:Hm; cbn [deref mbind outcome_bind] in Hrun;
    [|discriminate].
  destruct (columnExtent m) as [[[minC maxC] empty]| |] eqn:Hext;
    cbn [mbind outcome_bind] in Hrun; try discriminate.
  exists m, minC, maxC, empty. split; [reflexivity|]. split; [assumption|].
  destruct empty; [congruence|].
  rewrite <- Hrun. symmetry. apply forEachM_ext. intros. apply tryColumn_select.
Qed.

(** X13. A move returned by the planner is a resting placement of the piece:
    its rotation index selects one of the matrices, and in that rotation the
    piece is free of collision at the target column and resting row and
    collides one row further down, so that every occupied cell is between
    the walls and above the floor. The resting row is at least -3, and the
    score of the move is the evaluation of the board with the piece placed
    there. *)
Theorem planner_move_is_a_resting_placement (piece : ActivePiece) (b : BoardMatrix)
    (mv : AiMove) :
  calculateBestMove piece b = Ok (Some mv) ->
  let tp := withRotation piece (targetRotation mv) in
  let rest := {| row := finalRow mv; col := targetCol mv |} in
  exists m,
    matrices piece !! targetRotation mv = Some m /\
    - 3 <= finalRow mv /\
    checkCollision tp rest b = Ok false /\
    checkCollision tp {| row := finalRow mv + 1; col := targetCol mv |} b = Ok true /\
    evaluateBoardState b (withPosition tp rest) (finalRow mv) = Ok (Move.score mv) /\
    (forall r j cells v, m !! r = Some cells -> cells !! j = Some v -> v <> 0 ->
       0 <= targetCol mv + Z.of_nat j < BOARD_WIDTH /\
       finalRow mv + Z.of_nat r < BOARD_HEIGHT).
Proof.
  intros Hrun tp rest. rewrite calculateBestMove_as_selection in Hrun.
  destruct (select_first_best _ _ _ Hrun) as (_ & _ & Hsome).
  destruct (Hsome mv eq_refl) as (_ & l1 & rot & l2 & _ & Hrot & _).
  destruct (tryRotation_None_inv piece b rot (Some mv) Hrot)
    as (m & minC & maxC & empty & Hm & _ & Hcols).
  destruct empty; [discriminate|].
  destruct (select_first_best _ _ _ Hcols) as (_ & _ & Hsome').
  destruct (Hsome' mv eq_refl) as (_ & c1 & c & c2 & _ & Hcand & _).
  destruct (tryColumn_candidate piece b rot c mv Hcand)
    as (Hr & Hc & Hlow & Hfree & Hblocked & Heval).
  subst tp rest. rewrite Hr, Hc in *.
  exists m. split; [assumption|]. split; [assumption|]. split; [assumption|].
  split; [assumption|]. split; [assumption|].
  intros r j cells v Hrow Hcell Hv.
  unfold checkCollision in Hfree. cbn [matrices rotation withRotation] in Hfree.
  rewrite Hm in Hfree. cbn [deref mbind outcome_bind] in Hfree. injection Hfree as Hfree.
  assert (cellCollides b (finalRow mv + Z.of_nat r) (c + Z.of_nat j) = false) as Hcell'.
  { destruct (cellCollides b (finalRow mv + Z.of_nat r) (c + Z.of_nat j)) eqn:Hhit;
      [|reflexivity].
    assert (collidesFromRow m 0 {| row := finalRow mv; col := c |} b = true) as Habs
      by (apply collidesFromRow_true; exists r, j, cells, v; auto).
    congruence. }
  unfold cellCollides in Hcell'.
  apply orb_false_iff in Hcell' as [Hcell' _].
  apply orb_false_iff in Hcell' as [Hcell' Hright].
  apply orb_false_iff in Hcell' as [Hfloor Hleft].
  apply Z.leb_gt in Hfloor, Hright. apply Z.ltb_ge in Hleft. lia.
Qed.

Lemma planner_move_is_a_resting_placement_witness :
  checkCollision (withRotation spawnedO 0) {| row := 18; col := 0 |} createEmptyBoard
    = Ok false /\
  checkCollision (withRotation spawnedO 0) {| row := 18 + 1; col := 0 |} createEmptyBoard
    = Ok true.
Proof.
  destruct (planner_move_is_a_resting_placement spawnedO createEmptyBoard
              {| targetRotation := 0; targetCol := 0;
                 Move.score := Finite (-46); finalRow := 18 |})
    as (m & _ & _ & Hfree & Hblocked & _).
  - vm_compute. reflexivity.
  - split; [exact Hfree | exact Hblocked].
Defined.

(** X14. The planner returns the first best of the placements it evaluates:
    the move it returns is the placement of its own rotation and column, no
    placement scores strictly higher, and every placement tried before it
    (a lower rotation, or the same rotation and a lower column) scores
    strictly lower. It returns no move only when there is no placement to
    evaluate. *)
Theorem planner_returns_first_best (piece : ActivePiece) (b : BoardMatrix)
    (res : option AiMove) :
  calculateBestMove piece b = Ok res ->
  (forall mv, res = Some mv ->
     candidate piece b (targetRotation mv) (targetCol mv) mv /\
     forall rot c cand, candidate piece b rot c cand ->
       scoreGt (Move.score cand) (Move.score mv) = false /\
       (triedBefore rot c (targetRotation mv) (targetCol mv) ->
        scoreGt (Move.score mv) (Move.score cand) = true)) /\
  (res = None -> forall rot c cand, ~ candidate piece b rot c cand).
Proof.
  intros Hrun. rewrite calculateBestMove_as_selection in Hrun.
  destruct (select_first_best _ _ _ Hrun) as (Hall & Hnone & Hsome).
  (* what the loop over the columns of a rotation says about a placement *)
  assert (forall rot c cand, candidate piece b rot c cand ->
            exists top c1 c2,
              tryRotation piece b None rot = Ok (Some top) /\
              In rot (seq 0 (length (matrices piece))) /\
              scoreGt (Move.score cand) (Move.score top) = false /\
              (exists m minC maxC, matrices piece !! rot = Some m /\
                 columnExtent m = Ok (minC, maxC, false) /\
                 colsFromTo (- minC) (BOARD_WIDTH - 1 - maxC) = c1 ++ targetCol top :: c2 /\
                 tryColumn piece b rot None (targetCol top) = Ok (Some top) /\
                 (In c c1 -> scoreGt (Move.score top) (Move.score cand) = true)))
    as Hinner.
  { intros rot c cand (m & minC & maxC & Hm & Hext & Hrange & Hcand).
    assert (In rot (seq 0 (length (matrices piece)))) as Hin
      by (apply in_seq; apply lookup_lt_Some in Hm; lia).
    destruct (Hall rot Hin) as [r Hr].
    destruct (tryRotation_None_inv piece b rot r Hr)
      as (m' & minC' & maxC' & empty & Hm' & Hext' & Hcols).
    rewrite Hm in Hm'. injection Hm' as <-. rewrite Hext in Hext'.
    injection Hext' as <- <- <-.
    destruct (select_first_best _ _ _ Hcols) as (_ & Hnone' & Hsome').
    apply colsFromTo_In in Hrange.
    destruct r as [top|]; [|rewrite (Hnone' eq_refl c Hrange) in Hcand; discriminate].
    destruct (Hsome' top eq_refl) as (Hmax & c1 & c0 & c2 & Hsplit & Hc0 & Hbefore).
    destruct (tryColumn_candidate piece b rot c0 top Hc0) as (_ & Hcol & _).
    subst c0.
    exists top, c1, c2. split; [assumption|]. split; [assumption|].
    split; [apply (Hmax c); assumption|].
    exists m, minC, maxC. repeat split; try assumption.
    intros Hc1. apply (Hbefore c); assumption. }
  split.
  - intros mv ->.
    destruct (Hsome mv eq_refl) as (Hmax & l1 & rot0 & l2 & Hsplit & Hrot0 & Hbefore).
    rewrite <- (map_id (seq 0 (length (matrices piece)))) in Hsplit.
    apply map_seq_split in Hsplit as (Hl1 & Hrot0eq & Hlt). cbv beta in Hrot0eq.
    destruct (tryRotation_None_inv piece b rot0 (Some mv) Hrot0)
      as (m0 & minC0 & maxC0 & empty0 & Hm0 & Hext0 & Hcols0).
    destruct empty0; [discriminate|].
    destruct (select_first_best _ _ _ Hcols0) as (_ & _ & Hsome0).
    destruct (Hsome0 mv eq_refl) as (Hmax0 & c1 & c0 & c2 & Hsplit0 & Hc0 & Hbefore0).
    destruct (tryColumn_candidate piece b rot0 c0 mv Hc0) as (Hr & Hc & _).
    assert (In c0 (colsFromTo (- minC0) (BOARD_WIDTH - 1 - maxC0))) as Hin0
      by (rewrite Hsplit0; apply in_or_app; right; left; reflexivity).
    apply colsFromTo_In in Hin0.
    split.
    { rewrite Hr, Hc. exists m0, minC0, maxC0. auto. }
    intros rot c cand Hcand.
    destruct (Hinner rot c cand Hcand)
      as (top & d1 & d2 & Htop & Hin & Hle & m & minC & maxC & Hm & Hext & Hsplit' & Hct & Hlt').
    split.
    + apply (scoreGt_le_trans _ (Move.score top)); [assumption|].
      apply (Hmax rot); assumption.
    + intros [Hrot | [Hrot Hcol]].
      * apply (scoreGt_le_lt _ (Move.score top)); [assumption|].
        apply (Hbefore rot); [|assumption].
        rewrite Hl1, map_id. apply in_seq. lia.
      * assert (rot = rot0) as -> by congruence.
        rewrite Htop in Hrot0. injection Hrot0 as ->.
        apply Hlt'.
        rewrite Hm0 in Hm. injection Hm as <-. rewrite Hext0 in Hext.
        injection Hext as <- <-.
        unfold colsFromTo in Hsplit'.
        apply map_seq_split in Hsplit' as (Hd1 & Hd & _).
        rewrite Hd1. apply in_map_iff.
        destruct Hcand as (m' & minC' & maxC' & Hm' & Hext' & Hrange & _).
        rewrite Hm0 in Hm'. injection Hm' as <-. rewrite Hext0 in Hext'.
        injection Hext' as <- <-.
        exists (Z.to_nat (c - - minC0)). split; [lia|]. apply in_seq. lia.
  - intros -> rot c cand Hcand.
    destruct (Hinner rot c cand Hcand) as (top & _ & _ & Htop & Hin & _).
    rewrite (Hnone eq_refl rot Hin) in Htop. discriminate.
Qed.

Lemma planner_returns_first_best_witness :
  candidate spawnedO createEmptyBoard 0 0
    {| targetRotation := 0; targetCol := 0; Move.score := Finite (-46); finalRow := 18 |}.
Proof.
  destruct (planner_returns_first_best spawnedO createEmptyBoard
              (Some {| targetRotation := 0; targetCol := 0;
                       Move.score := Finite (-46); finalRow := 18 |}))
    as [Hsome _].
  - vm_compute. reflexivity.
  - destruct (Hsome _ eq_refl) as [Hcand _]. exact Hcand.
Defined.

(** ** The driver *)

(** X15. A rotation that the driver commits keeps the shape and the
    matrices, sets the rotation index to the target rotation of the move,
    and puts the piece where it does not collide: at its place, or one or
    two columns to either side in the same row, or, for the shapes I, L and
    J at row 1 or above, one or two rows up in the same column. *)
Theorem driver_rotation_commits_only_legal (piece : ActivePiece) (targetMove : AiMove)
    (b : BoardMatrix) (p' : ActivePiece) :
  aiRotated piece targetMove b = Ok (Some p') ->
  shape p' = shape piece /\ matrices p' = matrices piece /\
  rotation p' = targetRotation targetMove /\
  checkCollision p' (position p') b = Ok false /\
  (position p' = position piece \/
   (row (position p') = row (position piece) /\
    In (col (position p') - col (position piece)) [-1; 1; -2; 2]) \/
   (col (position p') = col (position piece) /\ row (position piece) <= 1 /\
    In (id (shape piece)) ["I"; "L"; "J"]%string /\
    In (row (position p') - row (position piece)) [-1; -2])).
Proof.
  unfold aiRotated. intros Hrot.
  set (rp := withRotation piece _) in Hrot.
  set (side := firstFree rp (horizontalKicks (position piece)) b) in Hrot.
  change (map (fun upOffset => shiftedBy (position piece) upOffset 0) [-1; -2])
    with [shiftedBy (position piece) (-1) 0; shiftedBy (position piece) (-2) 0] in Hrot.
  set (up := firstFree rp [shiftedBy (position piece) (-1) 0;
                           shiftedBy (position piece) (-2) 0] b) in Hrot.
  destruct (checkCollision rp (position piece) b) as [hit| |] eqn:Hhit;
    cbn [mbind outcome_bind] in Hrot; try discriminate.
  destruct hit.
  2:{ injection Hrot as <-. repeat split; [exact Hhit|left; reflexivity]. }
  destruct side as [sideways| |] eqn:Hside;
    cbn [mbind outcome_bind] in Hrot; try discriminate.
  destruct sideways as [pos|].
  { injection Hrot as <-. repeat split.
    - apply firstFree_free in Hside. exact Hside.
    - right. left. apply firstFree_In in Hside. cbn in Hside.
      destruct Hside as [<- | [<- | [<- | [<- | []]]]]; cbn; (split; [lia|]).
      + left. lia.
      + right. left. lia.
      + right. right. left. lia.
      + right. right. right. left. lia. }
  destruct (((id (shape piece) =? "I")%string || (id (shape piece) =? "L")%string
             || (id (shape piece) =? "J")%string) && (row (position piece) <=? 1)) eqn:Hkick;
    [|discriminate].
  apply andb_true_iff in Hkick as [Hid Hrow]. apply Z.leb_le in Hrow.
  destruct up as [u| |] eqn:Hup; cbn [mbind outcome_bind] in Hrot; try discriminate.
  destruct u as [pos|]; cbn in Hrot; [|discriminate].
  injection Hrot as <-. repeat split.
  - apply firstFree_free in Hup. exact Hup.
  - right. right. apply firstFree_In in Hup. cbn in Hup.
    assert (In (id (shape piece)) ["I"; "L"; "J"]%string) as Hshape.
    { apply orb_true_iff in Hid as [Hid | Hid]; [apply orb_true_iff in Hid as [Hid | Hid]|];
        apply String.eqb_eq in Hid; rewrite Hid; cbn; auto. }
    destruct Hup as [<- | [<- | []]]; cbn; (split; [lia|]); (split; [assumption|]);
      (split; [assumption|]).
    + left. lia.
    + right. left. lia.
Qed.

Lemma driver_rotation_commits_only_legal_witness :
  checkCollision (pieceOf L_SHAPE 1 (-1) 3) {| row := -1; col := 3 |} wellForL = Ok false.
Proof.
  destruct (driver_rotation_commits_only_legal (pieceOf L_SHAPE 0 1 3) (moveTo 1 3 1)
              wellForL (pieceOf L_SHAPE 1 (-1) 3)) as (_ & _ & _ & Hfree & _).
  - vm_compute. reflexivity.
  - exact Hfree.
Defined.

(** X16. With the rotation already at its target, a step of the driver
    moves the piece one column toward the target column, so that the
    distance to it drops by one; with the column reached too, it moves the
    piece one row down while the resting row of the move is below; and when
    the row is reached it locks the piece. A step that finds its cell
    taken locks the piece instead of moving it. After a move the next step
    is scheduled if the driver is in progress. *)
Theorem driver_step_approaches_target (g : Game) (p : ActivePiece) (mv : AiMove)
    (k1 k2 : nat) :
  currentPiece g = Some p -> aiCurrentBestMove g = Some mv ->
  isAiActive g = true -> isPlaying g = true -> isLineClearingAnimationActive g = false ->
  rotation p = targetRotation mv ->
  let g0 := setAiStepTimeout false g in
  let taken pos := checkCollision p pos (board g) = Ok true in
  let free pos := checkCollision p pos (board g) = Ok false in
  let movedTo pos := Ok (scheduleNextStep (setCurrentPiece (Some (withPosition p pos)) g0)) in
  (col (position p) <> targetCol mv ->
   exists dir,
     (dir = 1 \/ dir = -1) /\
     Z.abs (targetCol mv - (col (position p) + dir))
       = Z.abs (targetCol mv - col (position p)) - 1 /\
     (free (shiftedBy (position p) 0 dir) ->
      executeAiStep k1 k2 g = movedTo (shiftedBy (position p) 0 dir)) /\
     (taken (shiftedBy (position p) 0 dir) ->
      executeAiStep k1 k2 g = lockPiece (Some p) k1 k2 g0)) /\
  (col (position p) = targetCol mv -> row (position p) < finalRow mv ->
   (free (shiftedBy (position p) 1 0) ->
    executeAiStep k1 k2 g = movedTo (shiftedBy (position p) 1 0)) /\
   (taken (shiftedBy (position p) 1 0) ->
    executeAiStep k1 k2 g = lockPiece (Some p) k1 k2 g0)) /\
  (col (position p) = targetCol mv -> finalRow mv <= row (position p) ->
   executeAiStep k1 k2 g = lockPiece (Some p) k1 k2 g0).
Proof.
  intros Hcur Hbest Hai Hplay Hidle Hrot g0 taken free movedTo.
  assert (actingPiece g0 = Some p) as Hact.
  { unfold actingPiece. change (currentPiece g0) with (currentPiece g).
    change (isPlaying g0) with (isPlaying g).
    change (isLineClearingAnimationActive g0) with (isLineClearingAnimationActive g).
    rewrite Hcur, Hplay, Hidle. reflexivity. }
  assert (executeAiStep k1 k2 g =
          if negb (col (position p) =? targetCol mv) then
            let direction := if col (position p) <? targetCol mv then 1 else -1 in
            movePiece 0 direction g0 ≫= fun '(moved, g1) =>
              if moved : bool then Ok (scheduleNextStep g1)
              else lockPiece (currentPiece g1) k1 k2 g1
          else if row (position p) <? finalRow mv then
            movePiece 1 0 g0 ≫= fun '(moved, g1) =>
              if moved : bool then Ok (scheduleNextStep g1)
              else lockPiece (currentPiece g1) k1 k2 g1
          else lockPiece (Some p) k1 k2 g0) as Hstep.
  { unfold executeAiStep. cbv zeta. fold g0.
    change (currentPiece g0) with (currentPiece g).
    change (aiCurrentBestMove g0) with (aiCurrentBestMove g).
    change (isAiActive g0) with (isAiActive g).
    change (isPlaying g0) with (isPlaying g).
    change (isLineClearingAnimationActive g0) with (isLineClearingAnimationActive g).
    rewrite Hcur, Hbest, Hai, Hidle, Hplay, Hrot, Nat.eqb_refl.
    cbn [negb orb]. reflexivity. }
  assert (forall dRow dCol,
            (free (shiftedBy (position p) dRow dCol) ->
             movePiece dRow dCol g0 ≫= (fun '(moved, g1) =>
               if moved : bool then Ok (scheduleNextStep g1)
               else lockPiece (currentPiece g1) k1 k2 g1)
             = movedTo (shiftedBy (position p) dRow dCol)) /\
            (taken (shiftedBy (position p) dRow dCol) ->
             movePiece dRow dCol g0 ≫= (fun '(moved, g1) =>
               if moved : bool then Ok (scheduleNextStep g1)
               else lockPiece (currentPiece g1) k1 k2 g1)
             = lockPiece (Some p) k1 k2 g0)) as Hmove.
  { intros dRow dCol. unfold movePiece. rewrite Hact.
    change (board g0) with (board g).
    fold (shiftedBy (position p) dRow dCol).
    split; intros Hcell; unfold free, taken in Hcell; rewrite Hcell;
      cbn [mbind outcome_bind].
    - change (currentPiece g0) with (currentPiece g). rewrite Hcur. reflexivity.
    - change (currentPiece g0) with (currentPiece g). rewrite Hcur. reflexivity. }
  split; [|split].
  - intros Hcol. rewrite Hstep.
    replace (col (position p) =? targetCol mv) with false
      by (symmetry; apply Z.eqb_neq; assumption).
    cbn [negb]. cbv zeta.
    destruct (Z.ltb_spec (col (position p)) (targetCol mv)) as [Hlt|Hge].
    + exists 1. split; [auto|]. split; [lia|]. apply Hmove.
    + exists (-1). split; [auto|]. split; [lia|]. apply Hmove.
  - intros Hcol Hrow. rewrite Hstep.
    replace (col (position p) =? targetCol mv) with true
      by (symmetry; apply Z.eqb_eq; assumption).
    replace (row (position p) <? finalRow mv) with true
      by (symmetry; apply Z.ltb_lt; assumption).
    cbn [negb]. apply Hmove.
  - intros Hcol Hrow. rewrite Hstep.
    replace (col (position p) =? targetCol mv) with true
      by (symmetry; apply Z.eqb_eq; assumption).
    replace (row (position p) <? finalRow mv) with false
      by (symmetry; apply Z.ltb_ge; assumption).
    reflexivity.
Qed.

Lemma driver_step_approaches_target_witness :
  exists dir,
    (dir = 1 \/ dir = -1) /\
    Z.abs (0 - (4 + dir)) = Z.abs (0 - 4) - 1 /\
    (checkCollision spawnedO (shiftedBy (position spawnedO) 0 dir) createEmptyBoard = Ok false ->
     executeAiStep 0 1 (drivenSession createEmptyBoard spawnedO (moveTo 0 0 18)) =
     Ok (scheduleNextStep
           (setCurrentPiece
              (Some (withPosition spawnedO (shiftedBy (position spawnedO) 0 dir)))
              (setAiStepTimeout false
                 (drivenSession createEmptyBoard spawnedO (moveTo 0 0 18)))))).
Proof.
  destruct (driver_step_approaches_target
              (drivenSession createEmptyBoard spawnedO (moveTo 0 0 18)) spawnedO
              (moveTo 0 0 18) 0 1) as (Hcol & _ & _); try reflexivity.
  destruct Hcol as (dir & Hdir & Hdist & Hfree & _); [cbn; lia|].
  exists dir. split; [exact Hdir|]. split; [exact Hdist|]. exact Hfree.
Defined.

(** ** Sessions that stay well formed *)

Lemma checkCollision_Ok (p : ActivePiece) (m : list (list Z)) (pos : Position)
    (b : BoardMatrix) :
  matrices p !! rotation p = Some m ->
  checkCollision p pos b = Ok (collidesFromRow m 0 pos b).
Proof. intros Hm. unfold checkCollision. rewrite Hm. reflexivity. Qed.

Lemma firstFree_total (rp : ActivePiece) (m : list (list Z)) (candidates : list Position)
    (b : BoardMatrix) :
  matrices rp !! rotation rp = Some m -> exists r, firstFree rp candidates b = Ok r.
Proof.
  intros Hm. induction candidates as [|pos rest IH]; cbn [firstFree]; [eauto|].
  rewrite (checkCollision_Ok rp m) by assumption. cbn [mbind outcome_bind].
  destruct (collidesFromRow _ _ _ _); eauto.
Qed.

Lemma piece_ok_withPosition (p : ActivePiece) (pos : Position) :
  piece_ok p -> piece_ok (withPosition p pos).
Proof. intros [Hrot Hocc]. split; assumption. Qed.

Lemma piece_ok_withRotation (p : ActivePiece) (rot : nat) :
  piece_ok p -> (rot < length (matrices p))%nat -> piece_ok (withRotation p rot).
Proof. intros [Hrot Hocc] Hlt. split; assumption. Qed.

(** The rotation branches commit well-formed pieces with the same matrices. *)
Lemma rotated_safe (p : ActivePiece) (b : BoardMatrix) :
  piece_ok p ->
  exists r, rotated p b = Ok r /\
    forall p', r = Some p' -> piece_ok p' /\ matrices p' = matrices p.
Proof.
  intros Hp.
  assert (piece_ok (withRotation p ((rotation p + 1) mod length (matrices p)))) as Hrp.
  { apply piece_ok_withRotation; [assumption|].
    apply Nat.mod_upper_bound. destruct Hp as [Hrot _]. lia. }
  destruct (piece_ok_matrix _ Hrp) as (m & Hm & _).
  unfold rotated. cbv zeta.
  set (rp := withRotation p _) in *.
  assert (forall pos, piece_ok (withPosition rp pos) /\
                      matrices (withPosition rp pos) = matrices p) as Hcommit
    by (intros pos; split; [apply piece_ok_withPosition; assumption|reflexivity]).
  rewrite (checkCollision_Ok rp m) by assumption. cbn [mbind outcome_bind].
  destruct (collidesFromRow m 0 (position p) b).
  2:{ eexists. split; [reflexivity|]. intros p' [= <-]. split; [assumption|reflexivity]. }
  destruct (firstFree_total rp m (horizontalKicks (position p)) b Hm) as [side Hside].
  rewrite Hside. cbn [mbind outcome_bind].
  destruct side as [pos|].
  { eexists. split; [reflexivity|]. intros p' [= <-]. apply Hcommit. }
  destruct ((id (shape p) =? "I")%string && (row (position p) <=? 1)).
  { destruct (firstFree_total rp m [shiftedBy (position p) (-1) 0;
                                    shiftedBy (position p) (-2) 0] b Hm) as [up Hup].
    rewrite Hup. cbn [mbind outcome_bind]. eexists. split; [reflexivity|].
    destruct up; intros p' [= <-]. apply Hcommit. }
  destruct (row (position p) <=? 1).
  { destruct (firstFree_total rp m [shiftedBy (position p) (-1) 0] b Hm) as [up Hup].
    rewrite Hup. cbn [mbind outcome_bind]. eexists. split; [reflexivity|].
    destruct up; intros p' [= <-]. apply Hcommit. }
  eexists. split; [reflexivity|]. intros p' [=].
Qed.

Lemma aiRotated_safe (p : ActivePiece) (mv : AiMove) (b : BoardMatrix) :
  piece_ok p -> (targetRotation mv < length (matrices p))%nat ->
  exists r, aiRotated p mv b = Ok r /\
    forall p', r = Some p' -> piece_ok p' /\ matrices p' = matrices p.
Proof.
  intros Hp Hlt.
  assert (piece_ok (withRotation p (targetRotation mv))) as Hrp
    by (apply piece_ok_withRotation; assumption).
  destruct (piece_ok_matrix _ Hrp) as (m & Hm & _).
  unfold aiRotated. cbv zeta.
  set (rp := withRotation p _) in *.
  assert (forall pos, piece_ok (withPosition rp pos) /\
                      matrices (withPosition rp pos) = matrices p) as Hcommit
    by (intros pos; split; [apply piece_ok_withPosition; assumption|reflexivity]).
  rewrite (checkCollision_Ok rp m) by assumption. cbn [mbind outcome_bind].
  destruct (collidesFromRow m 0 (position p) b).
  2:{ eexists. split; [reflexivity|]. intros p' [= <-]. split; [assumption|reflexivity]. }
  destruct (firstFree_total rp m (horizontalKicks (position p)) b Hm) as [side Hside].
  rewrite Hside. cbn [mbind outcome_bind].
  destruct side as [pos|].
  { eexists. split; [reflexivity|]. intros p' [= <-]. apply Hcommit. }
  destruct (_ && (row (position p) <=? 1)).
  { destruct (firstFree_total rp m
                (map (fun upOffset => shiftedBy (position p) upOffset 0) [-1; -2]) b Hm)
      as [up Hup].
    rewrite Hup. cbn [mbind outcome_bind]. eexists. split; [reflexivity|].
    destruct up; intros p' [= <-]. apply Hcommit. }
  eexists. split; [reflexivity|]. intros p' [=].
Qed.

Lemma settle_total (b : BoardMatrix) (p : ActivePiece) :
  board_ok b -> piece_ok p -> exists newBoard, settle b p = Ok newBoard /\ board_ok newBoard.
Proof.
  intros Hb Hp. destruct (piece_ok_matrix p Hp) as (m & Hm & _).
  unfold settle. rewrite Hm. cbn [deref mbind outcome_bind].
  destruct (lockRows_spec m 0 (position p) b Hb) as (b' & Hrun & Hok & _). eauto.
Qed.

Lemma linesToClear_total (b : BoardMatrix) :
  board_ok b ->
  exists rows, linesToClear b = Ok rows /\
               Forall (fun r => (r < Z.to_nat BOARD_HEIGHT)%nat) rows.
Proof.
  intros [Hlen _].
  destruct (fullRowsBelow_spec b (Z.to_nat BOARD_HEIGHT)) as (rows & Hrun & _ & Hall & _);
    [lia|].
  exists rows. split; assumption.
Qed.

Lemma takeNextPiece_safe (preview : option ActivePiece) (k1 k2 : nat) (g : Game) :
  (k1 < length TETROMINOES)%nat -> (k2 < length TETROMINOES)%nat ->
  (forall q, preview = Some q -> piece_ok q) ->
  exists p fresh,
    takeNextPiece preview k1 k2 g = Ok (p, setNextPiecePreview (Some fresh) g) /\
    piece_ok p /\ piece_ok fresh.
Proof.
  intros Hk1 Hk2 Hprev.
  destruct (spawnNewPiece_piece_ok k1 Hk1) as (p1 & Hp1 & Hok1).
  destruct (spawnNewPiece_piece_ok k2 Hk2) as (p2 & Hp2 & Hok2).
  unfold takeNextPiece. destruct preview as [q|].
  - rewrite Hp1. exists q, p1. split; [reflexivity|]. split; [auto|assumption].
  - rewrite Hp1. cbn [mbind outcome_bind]. rewrite Hp2.
    exists p1, p2. split; [reflexivity|]. split; assumption.
Qed.

Lemma sortDescending_Forall (P : nat -> Prop) (l : list nat) :
  Forall P l -> Forall P (sortDescending l).
Proof.
  assert (forall x l, P x -> Forall P l -> Forall P (insertDescending x l)) as Hins.
  { intros x l0 Hx. induction 1 as [|y rest Hy Hrest IH]; cbn [insertDescending].
    - constructor; [assumption|constructor].
    - destruct (y <=? x)%nat; repeat constructor; assumption. }
  induction 1 as [|x rest Hx Hrest IH]; cbn; [constructor|].
  apply Hins; assumption.
Qed.

Lemma spliceUnshift_ok (b : BoardMatrix) (rowIndex : nat) :
  board_ok b -> (rowIndex < Z.to_nat BOARD_HEIGHT)%nat -> board_ok (spliceUnshift b rowIndex).
Proof.
  intros [Hlen Hrows] Hlt. unfold spliceUnshift. split.
  - cbn [length]. rewrite length_delete by (apply lookup_lt_is_Some_2; lia). lia.
  - constructor; [apply length_replicate|]. apply Forall_delete. assumption.
Qed.

Lemma clearRows_ok (b : BoardMatrix) (l : list nat) :
  board_ok b -> Forall (fun r => (r < Z.to_nat BOARD_HEIGHT)%nat) l ->
  board_ok (fst (clearRows b l)).
Proof.
  intros Hb. induction l as [|rowIndex l IH] using rev_ind; intros Hall; [exact Hb|].
  apply Forall_app in Hall as [Hl Hlast].
  inversion Hlast as [|? ? Hlt _]; subst.
  rewrite clearRows_snoc. apply spliceUnshift_ok; auto.
Qed.

Lemma session_ok_piece (g : Game) (p : ActivePiece) :
  session_ok g -> currentPiece g = Some p -> piece_ok p.
Proof. intros (_ & Hcur & _). apply Hcur. Qed.

Lemma session_ok_board (g : Game) : session_ok g -> board_ok (board g).
Proof. intros (Hb & _). exact Hb. Qed.

Lemma applyScoring_ok (n : Z) (cl : ClearClosure) (g : Game) :
  session_ok g -> session_ok (applyScoring n cl g).
Proof.
  intros Hok. unfold applyScoring.
  destruct (0 <? n); [|assumption].
  cbv zeta. destruct (closedLevel cl <? _); session_ok_by Hok.
Qed.

Lemma placeNextPiece_safe (p : ActivePiece) (b : BoardMatrix) (g : Game)
    (onCollision : Game -> Game) :
  piece_ok p ->
  exists hit, placeNextPiece p b g onCollision =
              Ok (if hit : bool then onCollision (onGameOver g)
                  else setCurrentPiece (Some p) g).
Proof.
  intros Hp. destruct (piece_ok_matrix p Hp) as (m & Hm & _).
  unfold placeNextPiece. rewrite (checkCollision_Ok p m) by assumption.
  cbn [mbind outcome_bind]. eauto.
Qed.

Lemma lineClearEffect_safe (cl : ClearClosure) (k1 k2 : nat) (g : Game) :
  session_ok g ->
  (forall q, closedNextPiecePreview cl = Some q -> piece_ok q) ->
  (k1 < length TETROMINOES)%nat -> (k2 < length TETROMINOES)%nat ->
  safely (lineClearEffect cl k1 k2 g).
Proof.
  intros Hok Hcl Hk1 Hk2. unfold lineClearEffect.
  destruct (clearRows (board g) (sortDescending (clearingRows g))) as [cleared n] eqn:Hclear.
  assert (board_ok cleared) as Hcleared.
  { change cleared with (fst (cleared, n)). rewrite <- Hclear.
    destruct Hok as (Hb & _ & _ & _ & Hrows & _).
    apply clearRows_ok; [assumption|]. apply sortDescending_Forall. assumption. }
  assert (session_ok (applyScoring n cl (setBoard cleared g))) as Hscored.
  { apply applyScoring_ok. session_ok_by Hok. }
  set (g2 := applyScoring n cl (setBoard cleared g)) in *.
  destruct (takeNextPiece_safe (closedNextPiecePreview cl) k1 k2 g2 Hk1 Hk2 Hcl)
    as (p & fresh & Htake & Hp & Hfresh).
  rewrite Htake. cbn [mbind outcome_bind].
  destruct (placeNextPiece_safe p cleared (setNextPiecePreview (Some fresh) g2) (fun g => g) Hp)
    as [hit Hplace].
  rewrite Hplace. cbn [mbind outcome_bind].
  eexists. split; [reflexivity|].
  destruct hit; session_ok_by Hscored; intros ? [= <-]; assumption.
Qed.

Lemma fireLineClear_safe (k1 k2 : nat) (g : Game) :
  session_ok g -> (k1 < length TETROMINOES)%nat -> (k2 < length TETROMINOES)%nat ->
  safely (fireLineClear k1 k2 g).
Proof.
  intros Hok Hk1 Hk2. unfold fireLineClear.
  destruct (lineClearEffectTimeout g) as [cl|] eqn:Htimer.
  - apply lineClearEffect_safe; try assumption.
    + session_ok_by Hok.
    + intros q Hq. destruct Hok as (_ & _ & _ & Hcl & _). eauto.
  - exists g. split; [reflexivity|assumption].
Qed.

Lemma lockPiece_safe (pieceToLock : option ActivePiece) (k1 k2 : nat) (g : Game) :
  session_ok g -> (forall p, pieceToLock = Some p -> piece_ok p) ->
  (k1 < length TETROMINOES)%nat -> (k2 < length TETROMINOES)%nat ->
  safely (lockPiece pieceToLock k1 k2 g).
Proof.
  intros Hok Hpiece Hk1 Hk2. unfold lockPiece.
  destruct pieceToLock as [p|].
  2:{ eexists. split; [reflexivity|]. session_ok_by Hok. }
  specialize (Hpiece p eq_refl).
  destruct (isLineClearingAnimationActive g).
  { exists g. split; [reflexivity|assumption]. }
  pose proof (session_ok_board g Hok) as Hb.
  destruct (settle_total (board g) p Hb Hpiece) as (newBoard & Hsettle & Hnew).
  rewrite Hsettle. cbn [mbind outcome_bind].
  destruct (piece_ok_matrix p Hpiece) as (m & Hm & _).
  rewrite Hm. cbn [deref mbind outcome_bind].
  destruct (occupiedAbove m (row (position p))).
  { eexists. split; [reflexivity|]. session_ok_by Hok. }
  destruct (linesToClear_total newBoard Hnew) as (rows & Hscan & Hrows).
  rewrite Hscan. cbn [mbind outcome_bind].
  destruct rows as [|r rest].
  - assert (forall q, nextPiecePreview g = Some q -> piece_ok q) as Hprev
      by (destruct Hok as (_ & _ & Hprev & _); exact Hprev).
    destruct (takeNextPiece_safe (nextPiecePreview g) k1 k2 (setBoard newBoard g) Hk1 Hk2 Hprev)
      as (next & fresh & Htake & Hnext & Hfresh).
    rewrite Htake. cbn [mbind outcome_bind].
    destruct (placeNextPiece_safe next newBoard
                (setNextPiecePreview (Some fresh) (setBoard newBoard g))
                (setCurrentPiece None) Hnext) as [hit Hplace].
    rewrite Hplace. cbn [mbind outcome_bind].
    eexists. split; [reflexivity|].
    destruct hit; session_ok_by Hok; intros ? [= <-]; assumption.
  - eexists. split; [reflexivity|].
    session_ok_by Hok. intros cl q [= <-]. session_fields. auto.
Qed.

Lemma movePiece_safe (dRow dCol : Z) (g : Game) :
  session_ok g ->
  exists moved g', movePiece dRow dCol g = Ok (moved, g') /\ session_ok g'.
Proof.
  intros Hok. unfold movePiece.
  destruct (actingPiece g) as [p|] eqn:Hact; [|eauto].
  apply actingPiece_Some in Hact as (Hcur & _ & _).
  assert (piece_ok p) as Hp by (eapply session_ok_piece; eassumption).
  destruct (piece_ok_matrix p Hp) as (m & Hm & _).
  rewrite (checkCollision_Ok p m) by assumption. cbn [mbind outcome_bind].
  destruct (collidesFromRow m 0 _ (board g)); [eauto|].
  eexists _, _. split; [reflexivity|].
  rewrite Hcur. cbn [fmap option_fmap option_map].
  session_ok_by Hok.
  - intros ? [= <-]. apply piece_ok_withPosition. assumption.
  - intros mv ? Hbest [= <-]. cbn [matrices withPosition]. eauto.
Qed.

Lemma moved_or_locked_safe (dRow dCol : Z) (k1 k2 : nat) (g : Game)
    (onMoved : Game -> Game) :
  session_ok g -> (forall g1, session_ok g1 -> session_ok (onMoved g1)) ->
  (k1 < length TETROMINOES)%nat -> (k2 < length TETROMINOES)%nat ->
  safely (movePiece dRow dCol g ≫= fun '(moved, g1) =>
            if moved : bool then Ok (onMoved g1) else lockPiece (currentPiece g1) k1 k2 g1).
Proof.
  intros Hok Hon Hk1 Hk2.
  destruct (movePiece_safe dRow dCol g Hok) as (moved & g1 & Hmove & Hok1).
  rewrite Hmove. cbn [mbind outcome_bind].
  destruct moved.
  - eexists. split; [reflexivity|]. auto.
  - apply lockPiece_safe; try assumption. intros p. apply session_ok_piece. assumption.
Qed.

Lemma moveDown_safe (k1 k2 : nat) (g : Game) :
  session_ok g -> (k1 < length TETROMINOES)%nat -> (k2 < length TETROMINOES)%nat ->
  safely (moveDown k1 k2 g).
Proof.
  intros Hok Hk1 Hk2. unfold moveDown.
  destruct (actingPiece g); [|exists g; split; [reflexivity|assumption]].
  apply (moved_or_locked_safe 1 0 k1 k2 g (fun g1 => g1)); auto.
Qed.

Lemma rotatePiece_safe (g : Game) : session_ok g -> safely (rotatePiece g).
Proof.
  intros Hok. unfold rotatePiece.
  destruct (actingPiece g) as [p|] eqn:Hact; [|exists g; split; [reflexivity|assumption]].
  apply actingPiece_Some in Hact as (Hcur & _ & _).
  assert (piece_ok p) as Hp by (eapply session_ok_piece; eassumption).
  destruct (rotated_safe p (board g) Hp) as (r & Hrun & Hr).
  rewrite Hrun. cbn [mbind outcome_bind].
  eexists. split; [reflexivity|].
  destruct r as [p'|]; [|assumption].
  destruct (Hr p' eq_refl) as [Hp' Hsame].
  session_ok_by Hok.
  - intros ? [= <-]. assumption.
  - intros mv ? Hbest [= <-]. rewrite Hsame. eauto.
Qed.

Lemma hardDrop_safe (k1 k2 : nat) (g : Game) :
  session_ok g -> (k1 < length TETROMINOES)%nat -> (k2 < length TETROMINOES)%nat ->
  safely (hardDrop k1 k2 g).
Proof.
  intros Hok Hk1 Hk2. unfold hardDrop.
  destruct (actingPiece g) as [p|] eqn:Hact; [|exists g; split; [reflexivity|assumption]].
  apply actingPiece_Some in Hact as (Hcur & _ & _).
  assert (piece_ok p) as Hp by (eapply session_ok_piece; eassumption).
  destruct (piece_ok_matrix p Hp) as (m & Hm & Hocc).
  cbv zeta.
  destruct (descend_total p m (col (position p)) (board g) Hm Hocc
              (descentBound (row (position p))) (row (position p))) as (r & Hdrop & _);
    [lia|].
  rewrite Hdrop. cbn [mbind outcome_bind].
  apply lockPiece_safe; try assumption.
  intros ? [= <-]. apply piece_ok_withPosition. assumption.
Qed.

Lemma handleKeyDown_safe (key : Key) (k1 k2 : nat) (g : Game) :
  session_ok g -> (k1 < length TETROMINOES)%nat -> (k2 < length TETROMINOES)%nat ->
  safely (handleKeyDown key k1 k2 g).
Proof.
  intros Hok Hk1 Hk2.
  assert (safely (Ok g)) as Hsame by (exists g; split; [reflexivity|assumption]).
  unfold handleKeyDown.
  destruct (isLineClearingAnimationActive g); [assumption|].
  destruct (isAiActive g && isPlaying g); [assumption|].
  destruct (negb (isPlaying g) || _); [assumption|].
  destruct key; try assumption.
  - destruct (movePiece_safe 0 (-1) g Hok) as (moved & g' & Hmove & Hok').
    rewrite Hmove. exists g'. split; [reflexivity|assumption].
  - destruct (movePiece_safe 0 1 g Hok) as (moved & g' & Hmove & Hok').
    rewrite Hmove. exists g'. split; [reflexivity|assumption].
  - apply moveDown_safe; assumption.
  - apply rotatePiece_safe; assumption.
  - apply rotatePiece_safe; assumption.
  - apply hardDrop_safe; assumption.
Qed.

Lemma gravityTick_safe (due : bool) (k1 k2 : nat) (g : Game) :
  session_ok g -> (k1 < length TETROMINOES)%nat -> (k2 < length TETROMINOES)%nat ->
  safely (gravityTick due k1 k2 g).
Proof.
  intros Hok Hk1 Hk2.
  assert (safely (Ok g)) as Hsame by (exists g; split; [reflexivity|assumption]).
  unfold gravityTick.
  destruct (_ && negb (isLineClearingAnimationActive g)); [|assumption].
  destruct due; [|assumption]. apply moveDown_safe; assumption.
Qed.

(** *** The planner always returns *)

Lemma evaluateBoardState_total (tempBoard : BoardMatrix) (piece : ActivePiece) (dropRow : Z)
    (m : list (list Z)) :
  matrices piece !! rotation piece = Some m -> board_ok tempBoard ->
  exists s, evaluateBoardState tempBoard piece dropRow = Ok s.
Proof.
  intros Hm Hok.
  pose proof (placeOnCopy_settle tempBoard piece dropRow m Hm) as Hplace.
  destruct (lockRows_spec m 0 {| row := dropRow; col := col (position piece) |} tempBoard Hok)
    as (placed & Hrows & Hokp & _).
  assert (settle tempBoard
            (withPosition piece {| row := dropRow; col := col (position piece) |}) = Ok placed)
    as Hsettle.
  { unfold settle. cbn [matrices rotation position withPosition]. rewrite Hm. exact Hrows. }
  rewrite Hsettle in Hplace. cbn [mbind outcome_bind] in Hplace.
  unfold evaluateBoardState. rewrite Hm. cbn [deref mbind outcome_bind].
  rewrite Hplace. cbn [mbind outcome_bind].
  destruct (occupiedAbove m dropRow); [eauto|].
  pose proof (afterClear_ok placed Hokp) as [Hlenc _].
  destruct Hokp as [Hlenp _].
  rewrite (clearFullRows_total placed Hlenp). cbn [mbind outcome_bind].
  rewrite (columnHeights_spec (afterClear placed) Hlenc). cbn [mbind outcome_bind].
  rewrite (countHoles_spec (afterClear placed) Hlenc). cbn [mbind outcome_bind].
  eauto.
Qed.

Lemma tryColumn_total (piece : ActivePiece) (b : BoardMatrix) (rot : nat)
    (best : option AiMove) (c : Z) (m : list (list Z)) :
  matrices piece !! rot = Some m -> hasOccupiedCell m -> board_ok b ->
  exists r, tryColumn piece b rot best c = Ok r.
Proof.
  intros Hm Hocc Hb. unfold tryColumn. cbv zeta.
  set (tp0 := withPosition (withRotation piece rot) {| row := 0; col := c |}).
  assert (matrices tp0 !! rotation tp0 = Some m) as Hm0 by exact Hm.
  assert (forall start, exists r,
            descend (descentBound start) tp0 start c b ≫= (fun finalDropRow =>
              evaluateBoardState b (withPosition tp0 {| row := finalDropRow; col := c |})
                finalDropRow ≫= fun scoreForMove =>
              Ok (match best with
                  | None => Some {| targetRotation := rot; targetCol := c;
                                    Move.score := scoreForMove; finalRow := finalDropRow |}
                  | Some bm =>
                      if scoreGt scoreForMove (Move.score bm)
                      then Some {| targetRotation := rot; targetCol := c;
                                   Move.score := scoreForMove; finalRow := finalDropRow |}
                      else best
                  end)) = Ok r) as Hrest.
  { intros start.
    destruct (descend_total tp0 m c b Hm0 Hocc (descentBound start) start) as (r' & Hdrop & _);
      [lia|].
    rewrite Hdrop. cbn [mbind outcome_bind].
    destruct (evaluateBoardState_total b (withPosition tp0 {| row := r'; col := c |}) r' m)
      as [s Hs]; [exact Hm|assumption|].
    rewrite Hs. cbn [mbind outcome_bind]. eauto. }
  rewrite (checkCollision_Ok tp0 m) by assumption. cbn [mbind outcome_bind].
  destruct (collidesFromRow m 0 _ b).
  - destruct (firstFree_total tp0 m
                (map (fun rOffset => {| row := rOffset; col := c |}) [-1; -2; -3]) b Hm0)
      as [higher Hprobe].
    rewrite Hprobe. cbn [mbind outcome_bind].
    destruct higher as [pos|]; cbn [fmap option_fmap option_map]; [|eauto].
    apply Hrest.
  - cbn [mbind outcome_bind]. apply Hrest.
Qed.

Lemma forEachM_total {A S : Type} (body : S -> A -> outcome S) (l : list A) :
  (forall s a, In a l -> exists s', body s a = Ok s') ->
  forall s, exists s', forEachM body l s = Ok s'.
Proof.
  induction l as [|a rest IH]; intros Hbody s; cbn [forEachM]; [eauto|].
  destruct (Hbody s a) as [s1 Hs1]; [left; reflexivity|].
  rewrite Hs1. cbn [mbind outcome_bind].
  apply IH. intros s0 a0 Hin. apply Hbody. right. assumption.
Qed.

Lemma tryRotation_total (piece : ActivePiece) (b : BoardMatrix) (best : option AiMove)
    (rot : nat) :
  board_ok b -> Forall hasOccupiedCell (matrices piece) ->
  (rot < length (matrices piece))%nat ->
  exists r, tryRotation piece b best rot = Ok r.
Proof.
  intros Hb Hall Hlt. unfold tryRotation.
  destruct (lookup_lt_is_Some_2 (matrices piece) rot Hlt) as [m Hm].
  assert (hasOccupiedCell m) as Hocc.
  { rewrite Forall_forall in Hall. apply Hall. eapply list_elem_of_lookup_2. eassumption. }
  rewrite Hm. cbn [deref mbind outcome_bind].
  unfold columnExtent.
  destruct (m !! 0%nat) as [line0|] eqn:Hline0.
  2:{ destruct Hocc as (r & j & cells & v & Hr & _). destruct m; discriminate. }
  cbn [deref mbind outcome_bind].
  destruct (foldl _ _ m) as [[minCShape maxCShape] pieceIsEmpty].
  destruct pieceIsEmpty; [eauto|].
  apply forEachM_total. intros best' c _.
  apply (tryColumn_total piece b rot best' c m); assumption.
Qed.

Lemma calculateBestMove_total (piece : ActivePiece) (b : BoardMatrix) :
  board_ok b -> Forall hasOccupiedCell (matrices piece) ->
  exists r, calculateBestMove piece b = Ok r.
Proof.
  intros Hb Hall. unfold calculateBestMove.
  apply forEachM_total. intros best rot Hin.
  apply in_seq in Hin. apply tryRotation_total; [assumption|assumption|lia].
Qed.

Lemma calculateBestMove_rotation (piece : ActivePiece) (b : BoardMatrix) (mv : AiMove) :
  calculateBestMove piece b = Ok (Some mv) ->
  (targetRotation mv < length (matrices piece))%nat.
Proof.
  intros Hrun. rewrite calculateBestMove_as_selection in Hrun.
  destruct (select_first_best _ _ _ Hrun) as (_ & _ & Hsome).
  destruct (Hsome mv eq_refl) as (_ & l1 & rot & l2 & Hsplit & Hrot & _).
  destruct (tryRotation_None_inv piece b rot (Some mv) Hrot)
    as (m & minC & maxC & empty & Hm & _ & Hcols).
  destruct empty; [discriminate|].
  destruct (select_first_best _ _ _ Hcols) as (_ & _ & Hsome').
  destruct (Hsome' mv eq_refl) as (_ & c1 & c & c2 & _ & Hcand & _).
  destruct (tryColumn_candidate piece b rot c mv Hcand) as (Hr & _).
  rewrite Hr. apply lookup_lt_Some in Hm. assumption.
Qed.

(** *** The driver and the effects *)

Lemma scheduleNextStep_ok (g : Game) : session_ok g -> session_ok (scheduleNextStep g).
Proof.
  intros Hok. unfold scheduleNextStep. destruct (aiActionInProgress g); [|assumption].
  session_ok_by Hok.
Qed.

Lemma executeAiStep_safe (k1 k2 : nat) (g : Game) :
  session_ok g -> (k1 < length TETROMINOES)%nat -> (k2 < length TETROMINOES)%nat ->
  safely (executeAiStep k1 k2 g).
Proof.
  intros Hok Hk1 Hk2. unfold executeAiStep. cbv zeta.
  assert (session_ok (setAiStepTimeout false g)) as Hok0 by (session_ok_by Hok).
  set (g0 := setAiStepTimeout false g) in *.
  assert (safely (Ok (setAiCurrentBestMove None (setAiActionInProgress false g0)))) as Hoff.
  { eexists. split; [reflexivity|]. session_ok_by Hok0. }
  destruct (currentPiece g0) as [piece|] eqn:Hcur; [|assumption].
  destruct (aiCurrentBestMove g0) as [targetMove|] eqn:Hbest; [|assumption].
  destruct (negb (isAiActive g0) || negb (isPlaying g0) || isLineClearingAnimationActive g0);
    [assumption|].
  assert (piece_ok piece) as Hp by (eapply session_ok_piece; eassumption).
  assert (forall p, Some piece = Some p -> piece_ok p) as Hlock by (intros ? [= <-]; assumption).
  destruct (negb (rotation piece =? targetRotation targetMove)%nat).
  - destruct (aiRotated_safe piece targetMove (board g0) Hp) as (r & Hrun & Hr).
    { destruct Hok0 as (_ & _ & _ & _ & _ & Hmv). eauto. }
    rewrite Hrun. cbn [mbind outcome_bind].
    destruct r as [p'|]; [|apply lockPiece_safe; assumption].
    destruct (Hr p' eq_refl) as [Hp' Hsame].
    eexists. split; [reflexivity|]. apply scheduleNextStep_ok.
    session_ok_by Hok0.
    + intros ? [= <-]. assumption.
    + intros mv ? Hmv' [= <-]. rewrite Hsame. eauto.
  - destruct (negb (col (position piece) =? targetCol targetMove)).
    + cbv zeta. apply moved_or_locked_safe; auto using scheduleNextStep_ok.
    + destruct (row (position piece) <? finalRow targetMove).
      * apply moved_or_locked_safe; auto using scheduleNextStep_ok.
      * apply lockPiece_safe; assumption.
Qed.

Lemma aiThink_safe (k1 k2 : nat) (g : Game) :
  session_ok g -> (k1 < length TETROMINOES)%nat -> (k2 < length TETROMINOES)%nat ->
  safely (aiThink k1 k2 g).
Proof.
  intros Hok Hk1 Hk2. unfold aiThink. cbv zeta.
  assert (session_ok (setAiThinkTimeout false g)) as Hok0 by (session_ok_by Hok).
  set (g0 := setAiThinkTimeout false g) in *.
  assert (safely (Ok (setAiActionInProgress false g0))) as Hoff.
  { eexists. split; [reflexivity|]. session_ok_by Hok0. }
  destruct (currentPiece g0) as [piece|] eqn:Hcur; [|assumption].
  destruct (negb (isAiActive g0) || negb (isPlaying g0) || isLineClearingAnimationActive g0);
    [assumption|].
  assert (piece_ok piece) as Hp by (eapply session_ok_piece; eassumption).
  destruct (calculateBestMove_total piece (board g0)) as [bestMove Hplan];
    [apply session_ok_board; assumption|apply Hp|].
  rewrite Hplan. cbn [mbind outcome_bind].
  destruct bestMove as [m|].
  - apply executeAiStep_safe; try assumption.
    apply calculateBestMove_rotation in Hplan.
    session_ok_by Hok0. intros mv p [= <-] Hcur'.
    rewrite Hcur in Hcur'. injection Hcur' as <-. assumption.
  - apply (moved_or_locked_safe 1 0 k1 k2 g0 (setAiActionInProgress false)); try assumption.
    intros g1 Hok1. session_ok_by Hok1.
Qed.

Lemma gameStateEffect_safe (previousGameState : option GameState) (k1 k2 : nat) (g : Game) :
  session_ok g -> (k1 < length TETROMINOES)%nat -> (k2 < length TETROMINOES)%nat ->
  safely (gameStateEffect previousGameState k1 k2 g).
Proof.
  intros Hok Hk1 Hk2.
  destruct (spawnNewPiece_piece_ok k1 Hk1) as (p1 & Hp1 & Hok1).
  destruct (spawnNewPiece_piece_ok k2 Hk2) as (p2 & Hp2 & Hok2).
  pose proof board_ok_empty as Hempty.
  unfold gameStateEffect. rewrite Hp1, Hp2. cbn [mbind outcome_bind].
  destruct (gameState g);
    try (eexists; split; [reflexivity|]; session_ok_by Hok; fail).
  destruct previousGameState as [[]|]; cbn [mbind outcome_bind];
    eexists; (split; [reflexivity|]); session_ok_by Hok;
    intros ? [= <-]; assumption.
Qed.

Lemma session_commands_ok (g : Game) :
  session_ok g ->
  session_ok (fst (aiEffect g)) /\ session_ok (aiSwitchEffect g) /\ session_ok (toggleAi g) /\
  session_ok (startGame g) /\ session_ok (pauseGame g) /\ session_ok (resumeGame g).
Proof.
  intros Hok.
  unfold aiEffect, aiSwitchEffect, toggleAi, startGame, pauseGame, resumeGame.
  repeat match goal with |- _ /\ _ => split end.
  - destruct (isLineClearingAnimationActive g); [session_ok_by Hok|].
    destruct (_ && negb (aiActionInProgress g)); [session_ok_by Hok|assumption].
  - destruct (isAiActive g); [assumption|session_ok_by Hok].
  - session_ok_by Hok.
  - session_ok_by Hok.
  - destruct (isPlaying g); [session_ok_by Hok|assumption].
  - destruct (gameState g); assumption.
Qed.

(** X17. No operation of a well-formed session raises or hangs, and each
    leaves the session well formed. With random indexes below the number of
    shapes: the key handler, the gravity tick, the line-clear timer, the
    think timer, a step of the driver, [lockPiece] on a well-formed piece and
    the phase effect (whatever the previous phase) return a well-formed
    session; the planner returns for the active piece; and the AI effect,
    the AI switch and the start, pause and resume commands keep the session
    well formed. *)
Theorem session_stays_well_formed (g : Game) (k1 k2 : nat) :
  session_ok g -> (k1 < length TETROMINOES)%nat -> (k2 < length TETROMINOES)%nat ->
  (forall key, safely (handleKeyDown key k1 k2 g)) /\
  (forall due, safely (gravityTick due k1 k2 g)) /\
  safely (fireLineClear k1 k2 g) /\
  safely (aiThink k1 k2 g) /\
  safely (executeAiStep k1 k2 g) /\
  (forall pieceToLock, (forall p, pieceToLock = Some p -> piece_ok p) ->
     safely (lockPiece pieceToLock k1 k2 g)) /\
  (forall previousGameState, safely (gameStateEffect previousGameState k1 k2 g)) /\
  (forall p, currentPiece g = Some p -> exists r, calculateBestMove p (board g) = Ok r) /\
  session_ok (fst (aiEffect g)) /\ session_ok (aiSwitchEffect g) /\
  session_ok (toggleAi g) /\
  session_ok (startGame g) /\ session_ok (pauseGame g) /\ session_ok (resumeGame g).
Proof.
  intros Hok Hk1 Hk2.
  split; [intros key; apply handleKeyDown_safe; assumption|].
  split; [intros due; apply gravityTick_safe; assumption|].
  split; [apply fireLineClear_safe; assumption|].
  split; [apply aiThink_safe; assumption|].
  split; [apply executeAiStep_safe; assumption|].
  split; [intros pieceToLock Hpiece; apply lockPiece_safe; assumption|].
  split; [intros previousGameState; apply gameStateEffect_safe; assumption|].
  split; [|apply session_commands_ok; assumption].
  intros p Hcur. apply calculateBestMove_total.
  - apply session_ok_board. assumption.
  - apply (session_ok_piece g p Hok Hcur).
Qed.

Lemma session_stays_well_formed_witness :
  session_ok (startGame initialSession) /\
  safely (gameStateEffect (Some Initial) 0 1 (startGame initialSession)).
Proof.
  assert (session_ok (startGame initialSession)) as Hok.
  { unfold session_ok. cbn.
    repeat match goal with |- _ /\ _ => split end;
      try (intros; discriminate); repeat constructor. }
  split; [exact Hok|].
  destruct (session_stays_well_formed (startGame initialSession) 0 1 Hok)
    as (_ & _ & _ & _ & _ & _ & Heffect & _); [cbn; lia|cbn; lia|].
  apply Heffect.
Defined.

(** ** Pause, resume and restart *)

Lemma gameStateEffect_not_playing (previousGameState : option GameState) (k1 k2 : nat)
    (g : Game) :
  gameState g <> Playing ->
  gameStateEffect previousGameState k1 k2 g =
  Ok (setClearingRows []
        (setLineClearing false
           (setLineClearEffectTimeout None
              (resetDriver (match gameState g with
                            | Paused => g
                            | _ => setCurrentPiece None g
                            end))))).
Proof.
  intros Hphase. unfold gameStateEffect. destruct (gameState g); [contradiction|..]; reflexivity.
Qed.

Lemma gameStateEffect_continued (previousGameState : GameState) (k1 k2 : nat) (g : Game) :
  gameState g = Playing -> previousGameState = Playing \/ previousGameState = Paused ->
  gameStateEffect (Some previousGameState) k1 k2 g = Ok (resetDriver g).
Proof.
  intros Hphase Hprev. unfold gameStateEffect. rewrite Hphase.
  destruct Hprev as [-> | ->]; reflexivity.
Qed.

(** X18. Pausing a session in play and resuming it gives back the board,
    the active piece, the counters, the fall interval, the preview and the
    AI switch as they were, with the driver reset. A line clear that was
    pending is not resumed: its timer is cancelled and the marked rows are
    forgotten, so a session paused during the animation comes back without
    an active piece and with nothing pending that would spawn one. *)
Theorem pause_then_resume (g : Game) (k1 k2 k3 k4 : nat) :
  isPlaying g = true ->
  exists g1 g2,
    gameStateEffect (Some (gameState g)) k1 k2 (pauseGame g) = Ok g1 /\
    gameStateEffect (Some (gameState g1)) k3 k4 (resumeGame g1) = Ok g2 /\
    gameState g1 = Paused /\ gameState g2 = Playing /\
    sameBoardPieceCounters g g1 /\ sameBoardPieceCounters g g2 /\
    nextPiecePreview g2 = nextPiecePreview g /\ isAiActive g2 = isAiActive g /\
    isLineClearingAnimationActive g2 = false /\ clearingRows g2 = [] /\
    lineClearEffectTimeout g2 = None /\
    aiActionInProgress g2 = false /\ aiCurrentBestMove g2 = None /\
    aiThinkTimeout g2 = false /\ aiStepTimeout g2 = false /\
    (currentPiece g = None -> stranded g1 /\ stranded g2).
Proof.
  intros Hplay.
  set (g1 := setClearingRows []
               (setLineClearing false
                  (setLineClearEffectTimeout None (resetDriver (setGameState Paused g))))).
  set (g2 := resetDriver (setGameState Playing g1)).
  exists g1, g2.
  assert (pauseGame g = setGameState Paused g) as Hpaused
    by (unfold pauseGame; rewrite Hplay; reflexivity).
  assert (resumeGame g1 = setGameState Playing g1) as Hresumed by reflexivity.
  split.
  { rewrite Hpaused. rewrite gameStateEffect_not_playing by discriminate. reflexivity. }
  split.
  { rewrite Hresumed. apply gameStateEffect_continued; [reflexivity|right; reflexivity]. }
  unfold sameBoardPieceCounters, stranded.
  repeat match goal with |- _ /\ _ => split end; try reflexivity.
  intros Hnone. repeat split; auto.
Qed.

Lemma pause_then_resume_witness :
  exists g1 g2,
    gameStateEffect (Some Playing) 0 1 (pauseGame sampleLocked) = Ok g1 /\
    gameStateEffect (Some Paused) 2 3 (resumeGame g1) = Ok g2 /\
    board g2 = board sampleLocked /\ stranded g2.
Proof.
  destruct (pause_then_resume sampleLocked 0 1 2 3)
    as (g1 & g2 & Hpause & Hresume & Hp1 & _ & _ & Hsame & _ & _ & _ & _ & _ & _ & _ & _ & _
        & Hstranded).
  - reflexivity.
  - exists g1, g2.
    split; [exact Hpause|].
    split; [rewrite <- Hp1; exact Hresume|].
    split; [apply Hsame|]. apply Hstranded. reflexivity.
Defined.

(** X19. A session in play or paused that has no active piece and no line
    clear pending never gets a piece again and never changes its board:
    keys, gravity, the three timers, the AI effect and the AI switch, and
    the pause, resume and restart commands, with or without the phase
    effect after them, all leave it that way. *)
Theorem session_without_piece_stays_stranded (g : Game) (k1 k2 : nat) :
  stranded g ->
  (forall key, staysStranded g (handleKeyDown key k1 k2 g)) /\
  (forall due, staysStranded g (gravityTick due k1 k2 g)) /\
  staysStranded g (fireLineClear k1 k2 g) /\
  staysStranded g (aiThink k1 k2 g) /\
  staysStranded g (executeAiStep k1 k2 g) /\
  staysStranded g (Ok (fst (aiEffect g))) /\
  staysStranded g (Ok (aiSwitchEffect (toggleAi g))) /\
  (forall command, In command [pauseGame; resumeGame; startGame] ->
     staysStranded g (Ok (command g)) /\
     staysStranded g (gameStateEffect (Some (gameState g)) k1 k2 (command g))).
Proof.
  intros (Hcur & Htimer & Hphase).
  assert (staysStranded g (Ok g)) as Hsame.
  { exists g. split; [reflexivity|]. split; [split; auto|reflexivity]. }
  assert (forall g', currentPiece g' = None -> lineClearEffectTimeout g' = None ->
                     gameState g' = Playing \/ gameState g' = Paused ->
                     board g' = board g -> staysStranded g (Ok g')) as Hby.
  { intros g' H1 H2 H3 H4. exists g'. split; [reflexivity|]. split; [split; auto|assumption]. }
  split; [|split; [|split; [|split; [|split; [|split; [|split]]]]]].
  - intros key. unfold handleKeyDown.
    destruct (isLineClearingAnimationActive g); [assumption|].
    destruct (isAiActive g && isPlaying g); [assumption|].
    rewrite Hcur. rewrite bool_decide_eq_false_2 by (intros [? [=]]).
    rewrite orb_true_r. assumption.
  - intros due. unfold gravityTick.
    rewrite Hcur. rewrite bool_decide_eq_false_2 by (intros [? [=]]).
    rewrite andb_false_r. assumption.
  - unfold fireLineClear. rewrite Htimer. assumption.
  - unfold aiThink. cbv zeta. session_fields. rewrite Hcur. apply Hby; assumption || reflexivity.
  - unfold executeAiStep. cbv zeta. session_fields. rewrite Hcur.
    apply Hby; assumption || reflexivity.
  - unfold aiEffect.
    destruct (isLineClearingAnimationActive g); [apply Hby; assumption || reflexivity|].
    rewrite Hcur. rewrite bool_decide_eq_false_2 by (intros [? [=]]).
    rewrite andb_false_r. assumption.
  - unfold aiSwitchEffect, toggleAi. session_fields.
    destruct (negb (isAiActive g)); apply Hby; assumption || reflexivity.
  - intros command Hin.
    assert (command = pauseGame \/ command = resumeGame \/ command = startGame) as Hcommand
      by (cbn in Hin; intuition).
    destruct Hcommand as [-> | [-> | ->]].
    + unfold pauseGame, isPlaying.
      destruct Hphase as [Hphase | Hphase]; rewrite Hphase.
      * split; [apply Hby; auto|].
        rewrite gameStateEffect_not_playing by discriminate.
        session_fields. apply Hby; auto.
      * split; [assumption|].
        rewrite gameStateEffect_not_playing by (rewrite Hphase; discriminate).
        rewrite Hphase. apply Hby; auto.
    + unfold resumeGame.
      destruct Hphase as [Hphase | Hphase]; rewrite Hphase.
      * split; [assumption|].
        rewrite gameStateEffect_continued by auto. apply Hby; auto.
      * split; [apply Hby; auto|].
        rewrite gameStateEffect_continued by auto. apply Hby; auto.
    + split; [apply Hby; auto|].
      rewrite gameStateEffect_continued by (assumption || reflexivity).
      apply Hby; auto.
Qed.

Lemma session_without_piece_stays_stranded_witness :
  staysStranded (setLineClearEffectTimeout None sampleLocked)
    (gameStateEffect (Some Playing) 0 1
       (startGame (setLineClearEffectTimeout None sampleLocked))).
Proof.
  destruct (session_without_piece_stays_stranded
              (setLineClearEffectTimeout None sampleLocked) 0 1)
    as (_ & _ & _ & _ & _ & _ & _ & Hcommands).
  - vm_compute. auto.
  - destruct (Hcommands startGame) as [_ Heffect]; [cbn; auto|]. exact Heffect.
Defined.

(** X20. Starting a game draws a new session only from the initial phase
    and after a game over: then the phase effect empties the board, spawns
    the active piece and the preview, and sets the fall interval of level 1.
    A restart while the game is in play or paused resets the score, the
    lines, the level and the preview, but keeps the board, the active piece,
    the fall interval and a pending line clear as they are. *)
Theorem restart_draws_new_session_only_after_end (g : Game) (k1 k2 : nat) :
  (k1 < length TETROMINOES)%nat -> (k2 < length TETROMINOES)%nat ->
  (gameState g = Initial \/ gameState g = GameOver ->
   exists p fresh g',
     spawnNewPiece k1 = Ok p /\ spawnNewPiece k2 = Ok fresh /\
     gameStateEffect (Some (gameState g)) k1 k2 (startGame g) = Ok g' /\
     gameState g' = Playing /\ board g' = createEmptyBoard /\
     currentPiece g' = Some p /\ nextPiecePreview g' = Some fresh /\
     score g' = 0 /\ linesCleared g' = 0 /\ level g' = 1 /\
     fallInterval g' = INITIAL_FALL_INTERVAL /\
     isLineClearingAnimationActive g' = false /\ clearingRows g' = [] /\
     aiActionInProgress g' = false /\ aiCurrentBestMove g' = None) /\
  (gameState g = Playing \/ gameState g = Paused ->
   exists g',
     gameStateEffect (Some (gameState g)) k1 k2 (startGame g) = Ok g' /\
     gameState g' = Playing /\
     score g' = 0 /\ linesCleared g' = 0 /\ level g' = 1 /\ nextPiecePreview g' = None /\
     board g' = board g /\ currentPiece g' = currentPiece g /\
     fallInterval g' = fallInterval g /\
     isLineClearingAnimationActive g' = isLineClearingAnimationActive g /\
     clearingRows g' = clearingRows g /\
     lineClearEffectTimeout g' = lineClearEffectTimeout g /\
     board (startGame g) = board g /\ currentPiece (startGame g) = currentPiece g /\
     fallInterval (startGame g) = fallInterval g).
Proof.
  intros Hk1 Hk2.
  destruct (spawnNewPiece_piece_ok k1 Hk1) as (p1 & Hp1 & _).
  destruct (spawnNewPiece_piece_ok k2 Hk2) as (p2 & Hp2 & _).
  split; intros Hphase.
  - exists p1, p2.
    assert (gameStateEffect (Some (gameState g)) k1 k2 (startGame g) =
            Ok (resetDriver
                  (setClearingRows []
                     (setLineClearing false
                        (setFallInterval
                           (Z.max 100 (INITIAL_FALL_INTERVAL - (1 - 1) * LEVEL_INTERVAL_DECREMENT))
                           (setNextPiecePreview (Some p2)
                              (setCurrentPiece (Some p1)
                                 (setBoard createEmptyBoard (startGame g))))))))) as Hrun.
    { unfold gameStateEffect. rewrite Hp1, Hp2.
      destruct Hphase as [Hphase | Hphase]; rewrite Hphase; reflexivity. }
    eexists. split; [assumption|]. split; [assumption|]. split; [exact Hrun|].
    repeat split.
  - assert (gameStateEffect (Some (gameState g)) k1 k2 (startGame g) =
            Ok (resetDriver (startGame g))) as Hrun.
    { unfold gameStateEffect.
      destruct Hphase as [Hphase | Hphase]; rewrite Hphase; reflexivity. }
    eexists. split; [exact Hrun|]. repeat split.
Qed.

Lemma restart_draws_new_session_only_after_end_witness :
  exists g',
    gameStateEffect (Some Playing) 0 1 (startGame sampleSession) = Ok g' /\
    score g' = 0 /\ level g' = 1 /\
    board g' = twoRowsOpenLeft /\ fallInterval g' = 900.
Proof.
  destruct (restart_draws_new_session_only_after_end sampleSession 0 1) as [_ Hkeep];
    [cbn; lia|cbn; lia|].
  destruct Hkeep as (g' & Hrun & _ & Hscore & _ & Hlevel & _ & Hboard & _ & Hfall & _).
  - left. reflexivity.
  - exists g'. split; [exact Hrun|]. split; [exact Hscore|]. split; [exact Hlevel|].
    split; [exact Hboard|exact Hfall].
Defined.

(** ** The active piece never overlaps *)

Lemma spawnNewPiece_free (k : nat) (p : ActivePiece) :
  spawnNewPiece k = Ok p -> checkCollision p (position p) createEmptyBoard = Ok false.
Proof.
  do 7 (destruct k as [|k]; [intros [= <-]; vm_compute; reflexivity|]).
  unfold spawnNewPiece. rewrite lookup_ge_None_2 by (cbn; lia). discriminate.
Qed.

Lemma placeNextPiece_free (p : ActivePiece) (b : BoardMatrix) (g : Game)
    (onCollision : Game -> Game) (g' : Game) :
  placeNextPiece p b g onCollision = Ok g' -> board g = b ->
  placed_free (onCollision (onGameOver g)) -> placed_free g'.
Proof.
  unfold placeNextPiece. intros Hrun Hb Hover.
  destruct (checkCollision p (position p) b) as [hit| |] eqn:Hhit;
    cbn [mbind outcome_bind] in Hrun; try discriminate.
  injection Hrun as <-. destruct hit; [assumption|].
  intros q [= <-]. session_fields. rewrite Hb. assumption.
Qed.

Lemma applyScoring_board (n : Z) (cl : ClearClosure) (g : Game) :
  board (applyScoring n cl g) = board g /\
  currentPiece (applyScoring n cl g) = currentPiece g.
Proof.
  unfold applyScoring. destruct (0 <? n); [|auto].
  cbv zeta. destruct (closedLevel cl <? _); auto.
Qed.

Lemma lockPiece_free (pieceToLock : option ActivePiece) (k1 k2 : nat) (g g' : Game) :
  lockPiece pieceToLock k1 k2 g = Ok g' -> placed_free g -> placed_free g'.
Proof.
  unfold lockPiece. intros Hrun Hfree.
  destruct pieceToLock as [p|]; [|injection Hrun as <-; exact Hfree].
  destruct (isLineClearingAnimationActive g); [injection Hrun as <-; exact Hfree|].
  destruct (settle (board g) p) as [newBoard| |]; cbn [mbind outcome_bind] in Hrun;
    try discriminate.
  destruct (matrices p !! rotation p) as [m|]; cbn [deref mbind outcome_bind] in Hrun;
    [|discriminate].
  destruct (occupiedAbove m (row (position p))).
  { injection Hrun as <-. intros q [=]. }
  destruct (linesToClear newBoard) as [rows| |]; cbn [mbind outcome_bind] in Hrun;
    try discriminate.
  destruct rows as [|r rest].
  - destruct (takeNextPiece _ k1 k2 _) as [[next g2]| |] eqn:Htake;
      cbn [mbind outcome_bind] in Hrun; try discriminate.
    apply takeNextPiece_inv in Htake as [fresh ->].
    destruct (placeNextPiece next newBoard _ _) as [g3| |] eqn:Hplace;
      cbn [mbind outcome_bind] in Hrun; try discriminate.
    injection Hrun as <-.
    apply placeNextPiece_free in Hplace; [exact Hplace|reflexivity|intros q [=]].
  - injection Hrun as <-. intros q [=].
Qed.

Lemma lineClearEffect_free (cl : ClearClosure) (k1 k2 : nat) (g g' : Game) :
  lineClearEffect cl k1 k2 g = Ok g' -> currentPiece g = None -> placed_free g'.
Proof.
  unfold lineClearEffect. intros Hrun Hnone.
  destruct (clearRows (board g) (sortDescending (clearingRows g))) as [cleared n].
  destruct (takeNextPiece _ k1 k2 _) as [[next g3]| |] eqn:Htake;
    cbn [mbind outcome_bind] in Hrun; try discriminate.
  apply takeNextPiece_inv in Htake as [fresh ->].
  destruct (placeNextPiece next cleared _ _) as [g4| |] eqn:Hplace;
    cbn [mbind outcome_bind] in Hrun; try discriminate.
  injection Hrun as <-.
  destruct (applyScoring_board n cl (setBoard cleared g)) as [Hboard Hpiece].
  apply placeNextPiece_free in Hplace; [exact Hplace|exact Hboard|].
  intros q Hq. session_fields. rewrite Hpiece in Hq. session_fields. congruence.
Qed.

Lemma movePiece_free (dRow dCol : Z) (g g' : Game) (moved : bool) :
  movePiece dRow dCol g = Ok (moved, g') -> placed_free g -> placed_free g'.
Proof.
  intros Hrun Hfree. destruct (movePiece_inv _ _ _ _ _ Hrun) as [Hstay Hmoved].
  destruct moved; [|rewrite Hstay by reflexivity; exact Hfree].
  destruct (Hmoved eq_refl) as (p & _ & -> & Hcell).
  intros q [= <-]. exact Hcell.
Qed.

Lemma moved_or_locked_free (dRow dCol : Z) (k1 k2 : nat) (g g' : Game)
    (onMoved : Game -> Game) :
  movePiece dRow dCol g ≫= (fun '(moved, g1) =>
    if moved : bool then Ok (onMoved g1) else lockPiece (currentPiece g1) k1 k2 g1) = Ok g' ->
  (forall g1, placed_free g1 -> placed_free (onMoved g1)) ->
  placed_free g -> placed_free g'.
Proof.
  intros Hrun Hon Hfree.
  destruct (movePiece dRow dCol g) as [[moved g1]| |] eqn:Hmove;
    cbn [mbind outcome_bind] in Hrun; try discriminate.
  apply movePiece_free in Hmove; [|assumption].
  destruct moved.
  - injection Hrun as <-. auto.
  - eapply lockPiece_free; eassumption.
Qed.

Lemma moveDown_free (k1 k2 : nat) (g g' : Game) :
  moveDown k1 k2 g = Ok g' -> placed_free g -> placed_free g'.
Proof.
  unfold moveDown. intros Hrun Hfree.
  destruct (actingPiece g); [|injection Hrun as <-; exact Hfree].
  apply (moved_or_locked_free 1 0 k1 k2 g g' (fun g1 => g1)); auto.
Qed.

Lemma rotated_free (p : ActivePiece) (b : BoardMatrix) (p' : ActivePiece) :
  rotated p b = Ok (Some p') -> checkCollision p' (position p') b = Ok false.
Proof.
  unfold rotated. cbv zeta. intros Hrun.
  set (rp := withRotation p _) in *.
  destruct (checkCollision rp (position p) b) as [hit| |] eqn:Hhit;
    cbn [mbind outcome_bind] in Hrun; try discriminate.
  destruct hit; [|injection Hrun as <-; exact Hhit].
  destruct (firstFree rp (horizontalKicks (position p)) b) as [side| |] eqn:Hside;
    cbn [mbind outcome_bind] in Hrun; try discriminate.
  destruct side as [pos|].
  { injection Hrun as <-. apply firstFree_free in Hside. exact Hside. }
  destruct ((id (shape p) =? "I")%string && (row (position p) <=? 1)).
  { destruct (firstFree rp [_; _] b) as [up| |] eqn:Hup;
      cbn [mbind outcome_bind] in Hrun; try discriminate.
    destruct up as [pos|]; cbn in Hrun; [|discriminate].
    injection Hrun as <-. apply firstFree_free in Hup. exact Hup. }
  destruct (row (position p) <=? 1); [|discriminate].
  destruct (firstFree rp [_] b) as [up| |] eqn:Hup;
    cbn [mbind outcome_bind] in Hrun; try discriminate.
  destruct up as [pos|]; cbn in Hrun; [|discriminate].
  injection Hrun as <-. apply firstFree_free in Hup. exact Hup.
Qed.

Lemma aiRotated_free (p : ActivePiece) (mv : AiMove) (b : BoardMatrix) (p' : ActivePiece) :
  aiRotated p mv b = Ok (Some p') -> checkCollision p' (position p') b = Ok false.
Proof.
  unfold aiRotated. cbv zeta. intros Hrun.
  set (rp := withRotation p _) in *.
  destruct (checkCollision rp (position p) b) as [hit| |] eqn:Hhit;
    cbn [mbind outcome_bind] in Hrun; try discriminate.
  destruct hit; [|injection Hrun as <-; exact Hhit].
  destruct (firstFree rp (horizontalKicks (position p)) b) as [side| |] eqn:Hside;
    cbn [mbind outcome_bind] in Hrun; try discriminate.
  destruct side as [pos|].
  { injection Hrun as <-. apply firstFree_free in Hside. exact Hside. }
  destruct (_ && (row (position p) <=? 1)); [|discriminate].
  destruct (firstFree rp (map _ _) b) as [up| |] eqn:Hup;
    cbn [mbind outcome_bind] in Hrun; try discriminate.
  destruct up as [pos|]; cbn in Hrun; [|discriminate].
  injection Hrun as <-. apply firstFree_free in Hup. exact Hup.
Qed.

Lemma rotatePiece_free (g g' : Game) :
  rotatePiece g = Ok g' -> placed_free g -> placed_free g'.
Proof.
  unfold rotatePiece. intros Hrun Hfree.
  destruct (actingPiece g) as [p|]; [|injection Hrun as <-; exact Hfree].
  destruct (rotated p (board g)) as [r| |] eqn:Hrot;
    cbn [mbind outcome_bind] in Hrun; try discriminate.
  injection Hrun as <-. destruct r as [p'|]; [|exact Hfree].
  intros q [= <-]. apply rotated_free in Hrot. exact Hrot.
Qed.

Lemma hardDrop_free (k1 k2 : nat) (g g' : Game) :
  hardDrop k1 k2 g = Ok g' -> placed_free g -> placed_free g'.
Proof.
  unfold hardDrop. intros Hrun Hfree.
  destruct (actingPiece g) as [p|]; [|injection Hrun as <-; exact Hfree].
  cbv zeta in Hrun.
  destruct (descend _ p _ _ (board g)) as [r| |]; cbn [mbind outcome_bind] in Hrun;
    try discriminate.
  eapply lockPiece_free; eassumption.
Qed.

Lemma handleKeyDown_free (key : Key) (k1 k2 : nat) (g g' : Game) :
  handleKeyDown key k1 k2 g = Ok g' -> placed_free g -> placed_free g'.
Proof.
  unfold handleKeyDown. intros Hrun Hfree.
  destruct (isLineClearingAnimationActive g); [injection Hrun as <-; exact Hfree|].
  destruct (isAiActive g && isPlaying g); [injection Hrun as <-; exact Hfree|].
  destruct (negb (isPlaying g) || _); [injection Hrun as <-; exact Hfree|].
  destruct key.
  - destruct (movePiece 0 (-1) g) as [[moved g1]| |] eqn:Hmove; try discriminate.
    injection Hrun as <-. eapply movePiece_free; eassumption.
  - destruct (movePiece 0 1 g) as [[moved g1]| |] eqn:Hmove; try discriminate.
    injection Hrun as <-. eapply movePiece_free; eassumption.
  - eapply moveDown_free; eassumption.
  - eapply rotatePiece_free; eassumption.
  - eapply rotatePiece_free; eassumption.
  - eapply hardDrop_free; eassumption.
  - injection Hrun as <-. exact Hfree.
Qed.

Lemma gravityTick_free (due : bool) (k1 k2 : nat) (g g' : Game) :
  gravityTick due k1 k2 g = Ok g' -> placed_free g -> placed_free g'.
Proof.
  unfold gravityTick. intros Hrun Hfree.
  destruct (_ && negb (isLineClearingAnimationActive g));
    [|injection Hrun as <-; exact Hfree].
  destruct due; [|injection Hrun as <-; exact Hfree].
  eapply moveDown_free; eassumption.
Qed.

Lemma scheduleNextStep_free (g : Game) : placed_free g -> placed_free (scheduleNextStep g).
Proof.
  intros Hfree. unfold scheduleNextStep. destruct (aiActionInProgress g); exact Hfree.
Qed.

Lemma executeAiStep_free (k1 k2 : nat) (g g' : Game) :
  executeAiStep k1 k2 g = Ok g' -> placed_free g -> placed_free g'.
Proof.
  unfold executeAiStep. cbv zeta. intros Hrun Hfree.
  assert (placed_free (setAiStepTimeout false g)) as Hfree0 by exact Hfree.
  set (g0 := setAiStepTimeout false g) in *.
  destruct (currentPiece g0) as [piece|] eqn:Hcur; [|injection Hrun as <-; exact Hfree].
  destruct (aiCurrentBestMove g0) as [targetMove|]; [|injection Hrun as <-; exact Hfree].
  destruct (negb (isAiActive g0) || negb (isPlaying g0) || isLineClearingAnimationActive g0);
    [injection Hrun as <-; exact Hfree|].
  destruct (negb (rotation piece =? targetRotation targetMove)%nat).
  - destruct (aiRotated piece targetMove (board g0)) as [r| |] eqn:Hrot;
      cbn [mbind outcome_bind] in Hrun; try discriminate.
    destruct r as [p'|]; [|eapply lockPiece_free; eassumption].
    injection Hrun as <-. apply scheduleNextStep_free.
    intros q [= <-]. apply aiRotated_free in Hrot. exact Hrot.
  - destruct (negb (col (position piece) =? targetCol targetMove)).
    + cbv zeta in Hrun.
      eapply moved_or_locked_free; [exact Hrun|apply scheduleNextStep_free|assumption].
    + destruct (row (position piece) <? finalRow targetMove).
      * eapply moved_or_locked_free; [exact Hrun|apply scheduleNextStep_free|assumption].
      * eapply lockPiece_free; eassumption.
Qed.

Lemma aiThink_free (k1 k2 : nat) (g g' : Game) :
  aiThink k1 k2 g = Ok g' -> placed_free g -> placed_free g'.
Proof.
  unfold aiThink. cbv zeta. intros Hrun Hfree.
  assert (placed_free (setAiThinkTimeout false g)) as Hfree0 by exact Hfree.
  set (g0 := setAiThinkTimeout false g) in *.
  destruct (currentPiece g0) as [piece|] eqn:Hcur; [|injection Hrun as <-; exact Hfree].
  destruct (negb (isAiActive g0) || negb (isPlaying g0) || isLineClearingAnimationActive g0);
    [injection Hrun as <-; exact Hfree|].
  destruct (calculateBestMove piece (board g0)) as [bestMove| |];
    cbn [mbind outcome_bind] in Hrun; try discriminate.
  destruct bestMove as [m|].
  - eapply executeAiStep_free; [exact Hrun|exact Hfree].
  - eapply (moved_or_locked_free 1 0 k1 k2 g0 g' (setAiActionInProgress false));
      [exact Hrun|intros g1 Hg1; exact Hg1|assumption].
Qed.

Lemma gameStateEffect_free (previousGameState : option GameState) (k1 k2 : nat)
    (g g' : Game) :
  gameStateEffect previousGameState k1 k2 g = Ok g' -> placed_free g -> placed_free g'.
Proof.
  unfold gameStateEffect. intros Hrun Hfree.
  destruct (gameState g).
  - destruct previousGameState as [[]|]; cbn [mbind outcome_bind] in Hrun;
      try (injection Hrun as <-; exact Hfree);
      destruct (spawnNewPiece k1) as [p1| |] eqn:Hp1; cbn [mbind outcome_bind] in Hrun;
      try discriminate;
      destruct (spawnNewPiece k2) as [p2| |]; cbn [mbind outcome_bind] in Hrun;
      try discriminate;
      injection Hrun as <-; intros q [= <-]; apply spawnNewPiece_free in Hp1; exact Hp1.
  - injection Hrun as <-. exact Hfree.
  - injection Hrun as <-. intros q [=].
  - injection Hrun as <-. intros q [=].
Qed.

Lemma keepsFree_of (o : outcome Game) :
  safely o -> (forall g', o = Ok g' -> placed_free g') -> keepsFree o.
Proof.
  intros (g' & Hrun & _) Hfree. exists g'. split; [assumption|auto].
Qed.

(** X21. The active piece never overlaps the stack or leaves the well. In a
    well-formed session whose active piece is free of collision, after the
    key handler, the gravity tick, the think timer, a step of the driver,
    [lockPiece], the phase effect, and the line-clear timer when it fires on
    a session without active piece (as [lockPiece] leaves it when it arms
    the timer), the operation has returned and the active piece, moved,
    rotated or newly spawned, is free of collision on the board of the new
    state. *)
Theorem active_piece_never_overlaps (g : Game) (k1 k2 : nat) :
  session_ok g -> placed_free g ->
  (k1 < length TETROMINOES)%nat -> (k2 < length TETROMINOES)%nat ->
  (forall key, keepsFree (handleKeyDown key k1 k2 g)) /\
  (forall due, keepsFree (gravityTick due k1 k2 g)) /\
  (currentPiece g = None -> keepsFree (fireLineClear k1 k2 g)) /\
  keepsFree (aiThink k1 k2 g) /\
  keepsFree (executeAiStep k1 k2 g) /\
  (forall pieceToLock, (forall p, pieceToLock = Some p -> piece_ok p) ->
     keepsFree (lockPiece pieceToLock k1 k2 g)) /\
  (forall previousGameState, keepsFree (gameStateEffect previousGameState k1 k2 g)) /\
  placed_free (fst (aiEffect g)) /\ placed_free (aiSwitchEffect (toggleAi g)) /\
  placed_free (startGame g) /\ placed_free (pauseGame g) /\ placed_free (resumeGame g).
Proof.
  intros Hok Hfree Hk1 Hk2.
  split.
  { intros key. apply keepsFree_of; [apply handleKeyDown_safe; assumption|].
    intros g' Hrun. eapply handleKeyDown_free; eassumption. }
  split.
  { intros due. apply keepsFree_of; [apply gravityTick_safe; assumption|].
    intros g' Hrun. eapply gravityTick_free; eassumption. }
  split.
  { intros Hnone. apply keepsFree_of; [apply fireLineClear_safe; assumption|].
    intros g' Hrun. unfold fireLineClear in Hrun.
    destruct (lineClearEffectTimeout g) as [cl|]; [|injection Hrun as <-; exact Hfree].
    eapply lineClearEffect_free; [exact Hrun|exact Hnone]. }
  split.
  { apply keepsFree_of; [apply aiThink_safe; assumption|].
    intros g' Hrun. eapply aiThink_free; eassumption. }
  split.
  { apply keepsFree_of; [apply executeAiStep_safe; assumption|].
    intros g' Hrun. eapply executeAiStep_free; eassumption. }
  split.
  { intros pieceToLock Hpiece. apply keepsFree_of; [apply lockPiece_safe; assumption|].
    intros g' Hrun. eapply lockPiece_free; eassumption. }
  split.
  { intros previousGameState.
    apply keepsFree_of; [apply gameStateEffect_safe; assumption|].
    intros g' Hrun. eapply gameStateEffect_free; eassumption. }
  unfold aiEffect, aiSwitchEffect, toggleAi, startGame, pauseGame, resumeGame.
  repeat match goal with |- _ /\ _ => split end.
  - destruct (isLineClearingAnimationActive g); [exact Hfree|].
    destruct (_ && negb (aiActionInProgress g)); exact Hfree.
  - session_fields. destruct (negb (isAiActive g)); exact Hfree.
  - exact Hfree.
  - destruct (isPlaying g); exact Hfree.
  - destruct (gameState g); exact Hfree.
Qed.

Lemma active_piece_never_overlaps_witness :
  keepsFree (handleKeyDown Space 0 1 (sessionWith 0 0 1 createEmptyBoard (Some spawnedO))).
Proof.
  destruct (active_piece_never_overlaps
              (sessionWith 0 0 1 createEmptyBoard (Some spawnedO)) 0 1) as [Hkeys _].
  - unfold session_ok. cbn.
    repeat match goal with |- _ /\ _ => split end; try (intros; discriminate).
    + split; [reflexivity|repeat constructor].
    + intros p [= <-]. apply piece_ok_by_test. vm_compute. reflexivity.
    + constructor.
  - intros p [= <-]. vm_compute. reflexivity.
  - cbn. lia.
  - cbn. lia.
  - apply Hkeys.
Defined.
